(** * RWKV parallel novel: the multi-stream generation coordinator

    A shallow embedding of [AIService] (the SSE reader, the per-index
    demultiplexer and the token-rate metric) and of the [ChatPage] update
    scheduler (pending-update map, throttle timer, flush, stop and failure
    handlers), with the properties the design document states about them.

    Conventions of the embedding:
    - a JavaScript string is the list of its UTF-16 code units ([list N]), so
      [length] is the JavaScript [.length] and [++] is string concatenation;
    - JavaScript numbers that hold counts, indices, lengths and millisecond
      timestamps are integers ([nat] or [Z]); they are exact below 2^53;
    - the two divisions and the [Math.round] of the token rate are binary64
      operations, taken from the [SpecFloat] specification of IEEE 754;
    - [fetch], [Date.now], [JSON.parse] and the translated prompt prefix belong
      to the environment and are section variables;
    - a React state update [setResults(prev => f(prev))] is applied when it is
      issued: updaters run in the order they were queued, so the state they
      produce is the same;
    - a handler that changes the state of a component is followed by a render
      of it, which comes before any timeout that is pending is due; the
      clean-up of an effect that has no dependency list runs at every
      render. *)

From Stdlib Require Import ZArith NArith List Lia Bool String Ascii.
From Stdlib Require Import Floats.SpecFloat.
From stdpp Require Import base list gmap pretty.

Local Open Scope Z_scope.

(** ** JavaScript strings *)

Module JS.

Definition jsstring := list N.

(** A string literal of the source, as code units. *)
Definition lit (s : string) : jsstring :=
  map N_of_ascii (list_ascii_of_string s).

Definition newline : N := 10%N.

(** [s.split('\n')]: the pieces between newlines; never empty. *)
Fixpoint split_nl (s : jsstring) : list jsstring :=
  match s with
  | [] => [[]]
  | c :: s' =>
      if N.eqb c newline then [] :: split_nl s'
      else match split_nl s' with
           | [] => [[c]]
           | l :: ls => (c :: l) :: ls
           end
  end.

(** [a.pop()]: the last element ([None] for [undefined]) and what is left. *)
Definition pop {A} (a : list A) : option A * list A :=
  (last a, removelast a).

(** [x || ''] for a string or [undefined] [x]. *)
Definition or_empty (x : option jsstring) : jsstring :=
  match x with
  | Some s => s
  | None => []
  end.

(** [s.startsWith(p)] *)
Fixpoint startsWith (p s : jsstring) : bool :=
  match p, s with
  | [], _ => true
  | _ :: _, [] => false
  | a :: p', b :: s' => N.eqb a b && startsWith p' s'
  end.

(** [s.slice(n)] for [0 <= n] *)
Definition slice (n : nat) (s : jsstring) : jsstring := drop n s.

(** ECMAScript WhiteSpace and LineTerminator code units, which [trim] strips. *)
Definition is_space (c : N) : bool :=
  ((9 <=? c) && (c <=? 13) || (c =? 32) || (c =? 160) || (c =? 5760)
   || (8192 <=? c) && (c <=? 8202) || (c =? 8232) || (c =? 8233)
   || (c =? 8239) || (c =? 8287) || (c =? 12288) || (c =? 65279))%N.

Fixpoint trimStart (s : jsstring) : jsstring :=
  match s with
  | c :: s' => if is_space c then trimStart s' else s
  | [] => []
  end.

Definition trim (s : jsstring) : jsstring :=
  rev (trimStart (rev (trimStart s))).

Definition string_eqb (a b : jsstring) : bool := bool_decide (a = b).

End JS.

Import JS.

(** ** JavaScript numbers: binary64 *)

Module Number.

Definition number := spec_float.

Definition prec : Z := 53.
Definition emax : Z := 1024.

(** The number nearest to an integer (the integer itself below 2^53). *)
Definition of_Z (z : Z) : number := binary_normalize prec emax z 0 false.

Definition zero : number := S754_zero false.

(** [x / y] *)
Definition div (x y : number) : number := SFdiv prec emax x y.

(** [x > y] *)
Definition gt (x y : number) : bool := SFltb y x.

(** [x >= y] *)
Definition ge (x y : number) : bool := SFleb y x.

(** The integer [floor (x + 1/2)] for the finite [x = (-1)^s * m * 2^e]. *)
Definition round_int (s : bool) (m : positive) (e : Z) : Z :=
  let v := cond_Zopp s (Zpos m) in
  match e with
  | Zneg k => (2 * v + 2 ^ Zpos k) / 2 ^ (Zpos k + 1)
  | _ => v * 2 ^ e
  end.

(** [Math.round(x)]: NaN, infinities, zeros and integers are returned as they
    are; otherwise the nearest integer, a tie going up, and a result of zero
    keeps the sign of [x]. *)
Definition Math_round (x : number) : number :=
  match x with
  | S754_finite s m (Zneg k) =>
      let n := round_int s m (Zneg k) in
      if n =? 0 then S754_zero s else of_Z n
  | _ => x
  end.

(** [Object.is(x, y)], by which React tells whether a state has changed: the
    same number, with [NaN] the same as [NaN] and [+0] not the same as [-0].
    The numbers are in their canonical form. *)
Definition same_value (x y : number) : bool :=
  match x, y with
  | S754_zero s, S754_zero s' => Bool.eqb s s'
  | S754_infinity s, S754_infinity s' => Bool.eqb s s'
  | S754_nan, S754_nan => true
  | S754_finite s m e, S754_finite s' m' e' =>
      Bool.eqb s s' && (m =? m')%positive && (e =? e')
  | _, _ => false
  end.

End Number.

Import Number.

(** ** AIService *)

Module AIService.

(** The payload of one SSE frame. The source reads [choice.delta?.content] and
    tests [json.choices] before use, so both may be missing. *)
Record Delta := { content : option jsstring }.
Record Choice := { index : Z; delta : option Delta }.
Record StreamChunk := { object : jsstring; choices : option (list Choice) }.

Record AuthConfig := { apiUrl : jsstring; password : jsstring }.

(** A decimal constant of the source, [mantissa * 10^exponent]. *)
Record decimal := { mantissa : Z; exponent : Z }.

(** The JSON body of the POST request. *)
Record request_body := {
  contents : list jsstring;
  max_tokens : Z;
  temperature : decimal;
  top_k : Z;
  top_p : decimal;
  pad_zero : bool;
  alpha_presence : decimal;
  alpha_frequency : decimal;
  alpha_decay : decimal;
  chunk_size : Z;
  stream : bool;
  body_password : jsstring
}.

Inductive error :=
  | AbortError
  | NetworkError
  | HttpError (status : Z) (statusText text : jsstring)
  | StreamNotAvailable.

(** How the sequence of reads ends: [done], or a rejected [read()]. *)
Inductive read_end := Done | ReadRejected (e : error).

Record body_stream := { chunks : list jsstring; ending : read_end }.

Record response := {
  ok : bool;
  status : Z;
  statusText : jsstring;
  text : jsstring;
  body : option body_stream
}.

(** One call of [onProgress(index, content, isComplete, tokenRate, totalTokens)]. *)
Record progress := {
  p_index : nat;
  p_content : jsstring;
  isComplete : bool;
  tokenRate : number;
  totalTokens : Z
}.

Inductive outcome :=
  | Return (results : list jsstring)
  | Throw (e : error).

(** What a call of [_executeGeneration] does: the request it sends, the calls
    of [onProgress] in order, and how it ends. *)
Record execution := {
  sent : request_body;
  callbacks : list progress;
  result : outcome
}.

(** The state of the read loop. [ticks] counts the calls of [Date.now]. *)
Record gen_state := {
  contentBuffers : list jsstring;
  totalTokenCount : Z;
  ticks : nat;
  calls : list progress
}.

Inductive userMessage :=
  | Single (s : jsstring)
  | Multiple (a : list jsstring).

(** [elapsedSeconds > 0 ? Math.round(totalTokenCount / elapsedSeconds) : 0]
    with [elapsedSeconds = (now - startTime) / 1000]. *)
Definition rate (total now startTime : Z) : number :=
  let elapsedSeconds := div (of_Z (now - startTime)) (of_Z 1000) in
  if gt elapsedSeconds zero
  then Math_round (div (of_Z total) elapsedSeconds)
  else zero.

(** [choice.delta?.content ?? ''] *)
Definition delta_text (c : Choice) : jsstring :=
  match delta c with
  | Some d => or_empty (content d)
  | None => []
  end.

(** [delta && index >= 0 && index < count] *)
Definition accepted (count : nat) (c : Choice) : bool :=
  negb (bool_decide (delta_text c = [])) &&
  (0 <=? index c) && (index c <? Z.of_nat count).

(** The line splitting of one turn of the read loop: the chunk is appended to
    the pending partial line, the text is split at newlines, and the last
    piece is kept as the new partial line. *)
Definition next_lines (partial chunk : jsstring) : list jsstring * jsstring :=
  let partial := partial ++ chunk in
  let lines := split_nl partial in
  let '(last_line, lines) := pop lines in
  (lines, or_empty last_line).

Section Generation.

(** The environment of a run:
    - [Date_now k] is what the call number [k] of [Date.now()] returns;
    - [JSON_parse] decodes a payload, or fails ([None]) where [JSON.parse]
      throws;
    - [fetch] answers the request with a response, or rejects;
    - [authConfig] is what [getAuthConfig()] returns;
    - [promptPrefix] is [i18n.t('aiService.promptPrefix')]. *)
Variable Date_now : nat -> Z.
Variable JSON_parse : jsstring -> option StreamChunk.
Variable fetch : request_body -> error + response.
Variable authConfig : AuthConfig.
Variable promptPrefix : jsstring.

Section Loop.

(** [onProgress] tells whether a callback was passed. The calls are kept in
    the order they are made; what a call does is the caller's business. *)
Variable count : nat.
Variable onProgress : bool.
Variable startTime : Z.

(** [if (onProgress) onProgress(...)] *)
Definition report (p : progress) : list progress :=
  if onProgress then [p] else [].

(** The body of [for (const choice of json.choices)]. *)
Definition apply_choice (st : gen_state) (c : Choice) : gen_state :=
  if accepted count c then
    let i := Z.to_nat (index c) in
    let buffers := alter (fun s => s ++ delta_text c) i (contentBuffers st) in
    let total := totalTokenCount st + Z.of_nat (length (delta_text c)) in
    let tokenRate := rate total (Date_now (ticks st)) startTime in
    {| contentBuffers := buffers;
       totalTokenCount := total;
       ticks := S (ticks st);
       calls := calls st ++
                report {| p_index := i;
                          p_content := or_empty (buffers !! i);
                          isComplete := false;
                          tokenRate := tokenRate;
                          totalTokens := total |} |}
  else st.

(** The body of [if (json.choices && json.choices.length > 0)]. *)
Definition apply_event (st : gen_state) (json : StreamChunk) : gen_state :=
  match choices json with
  | Some cs => if (0 <? length cs)%nat then foldl apply_choice st cs else st
  | None => st
  end.

(** The body of [for (const line of lines)]. A payload that [JSON.parse]
    rejects is caught and the line is left. *)
Definition process_line (st : gen_state) (line : jsstring) : gen_state :=
  if negb (startsWith (lit "data: ") line) then st
  else
    let data := trim (slice 6 line) in
    if string_eqb data (lit "[DONE]") then st
    else
      match JSON_parse data with
      | None => st
      | Some json => apply_event st json
      end.

(** One turn of the [while (true)] loop, for a chunk that was read. *)
Definition read_chunk (s : gen_state * jsstring) (chunk : jsstring)
  : gen_state * jsstring :=
  let '(st, partial) := s in
  let '(lines, partial) := next_lines partial chunk in
  (foldl process_line st lines, partial).

(** The body of [for (let i = 0; i < count; i++)] after the loop. *)
Definition final_step (st : gen_state) (finalTokenRate : number)
    (acc : list jsstring * list progress) (i : nat)
  : list jsstring * list progress :=
  let '(results, called) := acc in
  let content := or_empty (contentBuffers st !! i) in
  (results ++ [content],
   called ++
   (if (0 <? length content)%nat
    then report {| p_index := i; p_content := content; isComplete := true;
                   tokenRate := finalTokenRate;
                   totalTokens := totalTokenCount st |}
    else [])).

Definition finish (st : gen_state) : list jsstring * list progress :=
  let finalTokenRate := rate (totalTokenCount st) (Date_now (ticks st)) startTime in
  foldl (final_step st finalTokenRate) ([], calls st) (seq 0 count).

End Loop.

Definition initial_state (count : nat) : gen_state :=
  {| contentBuffers := replicate count [];
     totalTokenCount := 0;
     ticks := 1;
     calls := [] |}.

Definition request (contents : list jsstring) (maxTokens : Z) : request_body :=
  {| contents := contents;
     max_tokens := maxTokens;
     temperature := {| mantissa := 85; exponent := -2 |};
     top_k := 1;
     top_p := {| mantissa := 4; exponent := -1 |};
     pad_zero := true;
     alpha_presence := {| mantissa := 5; exponent := -1 |};
     alpha_frequency := {| mantissa := 5; exponent := -1 |};
     alpha_decay := {| mantissa := 996; exponent := -3 |};
     chunk_size := 128;
     stream := true;
     body_password := password authConfig |}.

Definition _executeGeneration (contents : list jsstring) (count : nat)
    (onProgress : bool) (maxTokens : Z) : execution :=
  let startTime := Date_now 0 in
  let req := request contents maxTokens in
  let throw e := {| sent := req; callbacks := []; result := Throw e |} in
  match fetch req with
  | inl e => throw e
  | inr resp =>
      if negb (ok resp)
      then throw (HttpError (status resp) (statusText resp) (text resp))
      else
        match body resp with
        | None => throw StreamNotAvailable
        | Some stream =>
            let '(st, _) :=
              foldl (read_chunk count onProgress startTime)
                    (initial_state count, []) (chunks stream) in
            match ending stream with
            | ReadRejected e =>
                {| sent := req; callbacks := calls st; result := Throw e |}
            | Done =>
                let '(results, called) := finish count onProgress startTime st in
                {| sent := req; callbacks := called; result := Return results |}
            end
        end
  end.

(** The prompt of an initial generation. *)
Definition template (userMessage : jsstring) : jsstring :=
  lit "User: " ++ promptPrefix ++ [newline] ++ userMessage ++
  [newline; newline] ++ lit "Assistant: <think>" ++ [newline] ++ lit "</think>".

Definition generateMultipleResponses (message : userMessage) (count : nat)
    (onProgress : bool) (maxTokens : option Z) : execution :=
  let contents :=
    match message with
    | Multiple a => a
    | Single s => replicate count (template s)
    end in
  let actualCount :=
    match message with
    | Multiple a => length a
    | Single _ => count
    end in
  let defaultMaxTokens :=
    match message with
    | Multiple _ => 4000
    | Single _ => 800
    end in
  let finalMaxTokens := default defaultMaxTokens maxTokens in
  _executeGeneration contents actualCount onProgress finalMaxTokens.

End Generation.

End AIService.

(** ** ChatPage: the update scheduler *)

Module ChatPage.

Import AIService.

Record GeneratedResult := {
  id : jsstring;
  content : jsstring;
  isLoading : bool
}.

(** What is posted on the broadcast channel. One flush posts an
    [UPDATE_CONTENT] message for every entry of its copy of the pending map;
    the log keeps the copy, not the order of the messages within the flush. *)
Inductive ChannelMessage :=
  | UPDATE_CONTENT (updates : gmap nat jsstring)
  | GENERATION_COMPLETE
  | GENERATION_ERROR.

(** Which closure a pending timeout runs: the one of [handleGenerate]
    ([flushUpdates(); updateSessionStorage()]) or the one of
    [handleContinueGenerate] ([flushUpdates()]). *)
Inductive timer_callback := FlushAndStore | FlushOnly.

Definition totalCount : nat := 8.

(** The state the handlers share.
    - [results]: the React state;
    - [chatPageResults]: the [localStorage] item of that name, [None] when it
      is absent;
    - [updateBuffer]: the [Map] of pending updates, which [updateBuffer.current]
      and [globalState.updateBuffer] both name;
    - [updateTimeoutRef]: the deadline and closure of the timeout that is
      pending, [None] when there is none or it was cleared or has fired;
    - [now]: the time, in milliseconds, of the task that is running;
    - [flushes]: when [flushUpdates] has pushed updates, and which. *)
Record page := {
  results : list GeneratedResult;
  chatPageResults : option (list GeneratedResult);
  updateBuffer : gmap nat jsstring;
  updateTimeoutRef : option (Z * timer_callback);
  shownTokenRate : number;
  shownTotalTokens : Z;
  completedIndexes : gset nat;
  isGenerating : bool;
  now : Z;
  flushes : list (Z * gmap nat jsstring);
  posted : list ChannelMessage
}.

Definition set_results v (s : page) : page :=
  Build_page v (chatPageResults s) (updateBuffer s) (updateTimeoutRef s)
    (shownTokenRate s) (shownTotalTokens s) (completedIndexes s)
    (isGenerating s) (now s) (flushes s) (posted s).
Definition set_chatPageResults v (s : page) : page :=
  Build_page (results s) v (updateBuffer s) (updateTimeoutRef s)
    (shownTokenRate s) (shownTotalTokens s) (completedIndexes s)
    (isGenerating s) (now s) (flushes s) (posted s).
Definition set_updateBuffer v (s : page) : page :=
  Build_page (results s) (chatPageResults s) v (updateTimeoutRef s)
    (shownTokenRate s) (shownTotalTokens s) (completedIndexes s)
    (isGenerating s) (now s) (flushes s) (posted s).
Definition set_updateTimeoutRef v (s : page) : page :=
  Build_page (results s) (chatPageResults s) (updateBuffer s) v
    (shownTokenRate s) (shownTotalTokens s) (completedIndexes s)
    (isGenerating s) (now s) (flushes s) (posted s).
Definition set_shown r t (s : page) : page :=
  Build_page (results s) (chatPageResults s) (updateBuffer s)
    (updateTimeoutRef s) r t (completedIndexes s)
    (isGenerating s) (now s) (flushes s) (posted s).
Definition set_completedIndexes v (s : page) : page :=
  Build_page (results s) (chatPageResults s) (updateBuffer s)
    (updateTimeoutRef s) (shownTokenRate s) (shownTotalTokens s) v
    (isGenerating s) (now s) (flushes s) (posted s).
Definition set_isGenerating v (s : page) : page :=
  Build_page (results s) (chatPageResults s) (updateBuffer s)
    (updateTimeoutRef s) (shownTokenRate s) (shownTotalTokens s)
    (completedIndexes s) v (now s) (flushes s) (posted s).
Definition set_now v (s : page) : page :=
  Build_page (results s) (chatPageResults s) (updateBuffer s)
    (updateTimeoutRef s) (shownTokenRate s) (shownTotalTokens s)
    (completedIndexes s) (isGenerating s) v (flushes s) (posted s).
Definition log_flush v (s : page) : page :=
  Build_page (results s) (chatPageResults s) (updateBuffer s)
    (updateTimeoutRef s) (shownTokenRate s) (shownTotalTokens s)
    (completedIndexes s) (isGenerating s) (now s) (flushes s ++ [v]) (posted s).
Definition postMessage v (s : page) : page :=
  Build_page (results s) (chatPageResults s) (updateBuffer s)
    (updateTimeoutRef s) (shownTokenRate s) (shownTotalTokens s)
    (completedIndexes s) (isGenerating s) (now s) (flushes s) (posted s ++ [v]).

(** [{ ...result, content: c, isLoading: false }] *)
Definition updated (result : GeneratedResult) (c : jsstring) : GeneratedResult :=
  {| id := id result; content := c; isLoading := false |}.

(** [{ ...result, isLoading: false }] *)
Definition loaded (result : GeneratedResult) : GeneratedResult :=
  {| id := id result; content := content result; isLoading := false |}.

(** [prev.map((result, i) => updates.get(i) ? {...} : result)] *)
Definition apply_updates (updates : gmap nat jsstring)
    (prev : list GeneratedResult) : list GeneratedResult :=
  imap (fun i result =>
          match updates !! i with
          | Some c => updated result c
          | None => result
          end) prev.

(** [flushUpdates], of [handleGenerate] and of [handleContinueGenerate]: the two
    differ in what they print. The pending map is copied, not cleared. *)
Definition flushUpdates (s : page) : page :=
  if (0 <? size (updateBuffer s))%nat then
    let updates := updateBuffer s in
    let s := postMessage (UPDATE_CONTENT updates) s in
    let newResults := apply_updates updates (results s) in
    let s := set_results newResults s in
    let s := set_chatPageResults (Some newResults) s in
    log_flush (now s, updates) s
  else s.

(** [updateSessionStorage]: merges the pending map into the saved snapshot,
    and writes it back when an entry fell on an element of the snapshot. *)
Definition updateSessionStorage (s : page) : page :=
  match chatPageResults s with
  | Some saved =>
      let merged := apply_updates (updateBuffer s) saved in
      let hasUpdate :=
        existsb (fun i => bool_decide (is_Some (updateBuffer s !! i)))
                (seq 0 (length saved)) in
      if hasUpdate then set_chatPageResults (Some merged) s else s
  | None => s
  end.

(** [setTimeout(f, 300)] and [clearTimeout] on [updateTimeoutRef]. *)
Definition setTimeout (f : timer_callback) (delay : Z) (s : page) : page :=
  set_updateTimeoutRef (Some (now s + delay, f)) s.

Definition clearTimeout (s : page) : page := set_updateTimeoutRef None s.

Definition run_callback (f : timer_callback) (s : page) : page :=
  match f with
  | FlushAndStore => updateSessionStorage (flushUpdates s)
  | FlushOnly => flushUpdates s
  end.

(** The rest of a progress callback, once the update is in the pending map. *)
Definition schedule (f : timer_callback) (content : jsstring)
    (isComplete : bool) (s : page) : page :=
  let hasEnoughContent := (100 <? length content)%nat in
  if hasEnoughContent || isComplete
  then run_callback f (clearTimeout s)
  else setTimeout f 300 (clearTimeout s).

Definition record_update (p : progress) (c : jsstring) (s : page) : page :=
  let s := set_shown (tokenRate p) (totalTokens p) s in
  let s := set_updateBuffer (<[p_index p := c]> (updateBuffer s)) s in
  if AIService.isComplete p
  then set_completedIndexes ({[p_index p]} ∪ completedIndexes s) s
  else s.

(** The progress callback of [handleGenerate]. *)
Definition onProgress (s : page) (p : progress) : page :=
  let s := record_update p (p_content p) s in
  schedule FlushAndStore (p_content p) (AIService.isComplete p) s.

(** The progress callback of [handleContinueGenerate]: the text generated so
    far goes after the text the run started from. The length test is on the
    generated text. *)
Definition continued (contexts : list jsstring) (p : progress) : jsstring :=
  or_empty (contexts !! p_index p) ++ [newline; newline] ++ p_content p.

Definition onContinueProgress (contexts : list jsstring) (s : page)
    (p : progress) : page :=
  let s := record_update p (continued contexts p) s in
  schedule FlushOnly (p_content p) (AIService.isComplete p) s.

(** [results.map(r => r.content || '')] *)
Definition contexts_of (rs : list GeneratedResult) : list jsstring :=
  map content rs.

Definition placeholders : list GeneratedResult :=
  map (fun i => {| id := lit "result-" ++ lit (pretty i);
                   content := [];
                   isLoading := true |})
      (seq 0 totalCount).

(** The clean-up of the effect that has no dependency list: it runs at every
    render of the component and clears the pending timeout. *)
Definition cleanup (s : page) : page := clearTimeout s.

(** [handleGenerate], up to the call of the service, and the render that
    follows: [setResults] sets a new array. The pending map is left as it is;
    the handler leaves a pending timeout alone as well, and the clean-up of
    the render clears it. *)
Definition start (s : page) : page :=
  let s := set_isGenerating true s in
  let s := set_chatPageResults None s in
  let s := set_completedIndexes ∅ s in
  let s := set_shown zero 0 s in
  let s := set_results placeholders s in
  cleanup s.

(** [handleGenerate] and [handleContinueGenerate], after the service has
    returned: the last flush, the [GENERATION_COMPLETE] message and the
    [finally] block. The controller of the run is still the current one, as
    the run was not stopped and no other run was started, so [handleGenerate]
    sets [isGenerating] to [false]; [handleContinueGenerate] sets
    [isContinuing], which is no part of this state. *)
Definition completed (f : timer_callback) (s : page) : page :=
  let s := clearTimeout s in
  let s := run_callback f s in
  let s := postMessage GENERATION_COMPLETE s in
  match f with
  | FlushAndStore => set_isGenerating false s
  | FlushOnly => s
  end.

(** The save that runs 200 ms after completion. *)
Definition final_save (s : page) : page :=
  set_chatPageResults (Some (apply_updates (updateBuffer s) (results s))) s.

(** The [catch] and the [finally] block of [handleGenerate], and the render
    that follows. The [catch] applies no pending update and leaves
    [updateTimeoutRef] alone. [isGenerating] is [false] afterwards: the
    [finally] block sets it when the controller of the run is the current one,
    and [handleStopGenerate], which takes the controller away, has set it
    already. [setResults] sets a new array, so the component renders again,
    and the clean-up of that render clears a timeout that is pending. *)
Definition failed (s : page) : page :=
  let s := set_results (map loaded (results s)) s in
  let s := postMessage GENERATION_ERROR s in
  let s := set_isGenerating false s in
  cleanup s.

(** [handleStopGenerate] *)
Definition handleStopGenerate (s : page) : page :=
  let s := clearTimeout s in
  let newResults :=
    if (0 <? size (updateBuffer s))%nat then
      let updates := updateBuffer s in
      imap (fun i result =>
              match updates !! i with
              | Some c => updated result c
              | None => loaded result
              end) (results s)
    else map loaded (results s) in
  let s := set_results newResults s in
  let s := set_chatPageResults (Some newResults) s in
  set_isGenerating false s.

(** The effect on [results] that saves them again when they have changed. *)
Definition save_effect (s : page) : page :=
  if (0 <? length (results s))%nat
  then set_chatPageResults (Some (results s)) s
  else s.

(** *** The event loop

    A task runs at a time [t]. A timeout whose deadline has come runs first, at
    its deadline. A progress call that changes the state of the component is
    followed by a render, and so by the clean-up; [Render] is a render that
    has another cause. *)
Inductive action :=
  | Progress (p : progress)
  | Render
  | Wait.

(** Whether a progress call changes the state of the component. Both
    callbacks make the same updates: [setTokenRate] and [setTotalTokens]
    change the state unless the value is the one it has; [setCompletedIndexes],
    of a final call, sets a new [Set]; and [setResults], of the flush of a
    long or final call, sets a new array. *)
Definition changes_state (s : page) (p : progress) : bool :=
  negb (same_value (tokenRate p) (shownTokenRate s)) ||
  negb (totalTokens p =? shownTotalTokens s) ||
  AIService.isComplete p ||
  (100 <? length (p_content p))%nat.

Definition run_timers (t : Z) (s : page) : page :=
  match updateTimeoutRef s with
  | Some (deadline, f) =>
      if deadline <=? t
      then run_callback f (clearTimeout (set_now deadline s))
      else s
  | None => s
  end.

Definition step (cb : page -> progress -> page) (s : page) (e : Z * action)
  : page :=
  let '(t, a) := e in
  let s := set_now t (run_timers t s) in
  match a with
  | Progress p =>
      let s' := cb s p in
      if changes_state s p then cleanup s' else s'
  | Render => cleanup s
  | Wait => s
  end.

Definition run (cb : page -> progress -> page) (s : page)
    (trace : list (Z * action)) : page :=
  foldl (step cb) s trace.

(** The progress calls of a trace, in order. *)
Definition progress_of (trace : list (Z * action)) : list progress :=
  omap (fun e => match snd e with Progress p => Some p | _ => None end) trace.

End ChatPage.

(** ** Vocabulary of the properties *)

Module Spec.

Import AIService.

(** The complete lines the read loop hands to the line handler, turn after
    turn, and the partial line it is left with. *)
Fixpoint parse_chunks (partial : jsstring) (chunks : list jsstring)
  : list jsstring * jsstring :=
  match chunks with
  | [] => ([], partial)
  | chunk :: chunks =>
      let '(lines, partial) := next_lines partial chunk in
      let '(more, partial) := parse_chunks partial chunks in
      (lines ++ more, partial)
  end.

(** The complete lines of a text: all pieces of its split but the last. *)
Definition complete_lines (text : jsstring) : list jsstring :=
  removelast (split_nl text).

(** The deltas an event sequence carries for index [i], concatenated in the
    order of arrival. *)
Definition deltas_for (i : nat) (cs : list Choice) : jsstring :=
  concat (map delta_text (filter (fun c => index c = Z.of_nat i) cs)).

(** The number of characters of the deltas that were applied. *)
Definition applied_length (count : nat) (cs : list Choice) : Z :=
  foldr (fun c n => if accepted count c
                    then Z.of_nat (length (delta_text c)) + n else n) 0 cs.

(** The number of deltas that were applied. *)
Definition applied_count (count : nat) (cs : list Choice) : nat :=
  length (filter (fun c => accepted count c = true) cs).

(** The [(index, delta)] pairs of a decoded event. *)
Definition event_choices (json : StreamChunk) : list Choice :=
  match choices json with
  | Some cs => cs
  | None => []
  end.

(** The pairs a complete line carries: none when it is no [data: ] line, when
    its payload is [[DONE]], or when its payload does not decode. *)
Definition line_choices (JSON_parse : jsstring -> option StreamChunk)
    (line : jsstring) : list Choice :=
  if startsWith (lit "data: ") line then
    let data := trim (slice 6 line) in
    if string_eqb data (lit "[DONE]") then []
    else match JSON_parse data with
         | Some json => event_choices json
         | None => []
         end
  else [].

(** The pairs a chunk sequence carries: those of the complete lines of its
    text. *)
Definition decoded (JSON_parse : jsstring -> option StreamChunk)
    (chunks : list jsstring) : list Choice :=
  concat (map (line_choices JSON_parse) (complete_lines (concat chunks))).

Section Reports.

Variable Date_now : nat -> Z.
Variable count : nat.

(** The progress call expected for the applied pair [c] that arrives after
    the pairs [before]: the content is what index [c] has received so far, the
    total counts the characters applied so far, and the rate is taken at the
    clock reading of that moment ([Date.now] was read once at the start and
    once for every pair applied before). *)
Definition report_after (before : list Choice) (c : Choice) : progress :=
  let seen := before ++ [c] in
  let i := Z.to_nat (index c) in
  {| p_index := i;
     p_content := deltas_for i seen;
     isComplete := false;
     tokenRate := rate (applied_length count seen)
                       (Date_now (1 + applied_count count before))
                       (Date_now 0);
     totalTokens := applied_length count seen |}.

Fixpoint reports_from (before rest : list Choice) : list progress :=
  match rest with
  | [] => []
  | c :: rest =>
      (if accepted count c then [report_after before c] else []) ++
      reports_from (before ++ [c]) rest
  end.

(** The progress calls expected while a sequence of pairs is read. *)
Definition stream_reports (cs : list Choice) : list progress :=
  reports_from [] cs.

(** The final call expected for an index whose buffer is not empty. *)
Definition final_call (cs : list Choice) (i : nat) : progress :=
  {| p_index := i;
     p_content := deltas_for i cs;
     isComplete := true;
     tokenRate := rate (applied_length count cs)
                       (Date_now (1 + applied_count count cs))
                       (Date_now 0);
     totalTokens := applied_length count cs |}.

(** The final call expected for index [i], if any, after the pairs [cs]. *)
Definition final_report (cs : list Choice) (i : nat) : list progress :=
  if (0 <? length (deltas_for i cs))%nat then [final_call cs i] else [].

Definition final_reports (cs : list Choice) : list progress :=
  concat (map (final_report cs) (seq 0 count)).

End Reports.

(** The pending map after the progress calls [ps], each call recording a
    text for its index. *)
Definition record_all (recorded : progress -> jsstring)
    (m : gmap nat jsstring) (ps : list progress) : gmap nat jsstring :=
  foldl (fun m p => <[p_index p := recorded p]> m) m ps.

(** What [handleStopGenerate] leaves of a result: its pending content when it
    has one, its own otherwise; loading no more. *)
Definition stopped_result (updates : gmap nat jsstring) (i : nat)
    (r : ChatPage.GeneratedResult) : ChatPage.GeneratedResult :=
  match updates !! i with
  | Some c => ChatPage.updated r c
  | None => ChatPage.loaded r
  end.

(** A number that is zero, positive and finite, or plus infinity. *)
Definition nonneg (x : number) : Prop :=
  match x with
  | S754_zero s | S754_infinity s | S754_finite s _ _ => s = false
  | S754_nan => False
  end.

End Spec.

Import Spec.

(** ** An environment for the examples *)

Module Scenario.

Import AIService.

(** A stand-in for [JSON.parse]: the payload [i:text], where [i] is a digit,
    decodes to the one pair [(i, text)], and no other payload decodes. *)
Definition JSON_parse (data : jsstring) : option StreamChunk :=
  match data with
  | d :: 58%N :: text =>
      if ((48 <=? d) && (d <=? 57))%N
      then Some {| object := lit "chat.completion.chunk";
                   choices := Some [ {| index := Z.of_N d - 48;
                                        delta := Some {| content := Some text |} |} ] |}
      else None
  | _ => None
  end.

(** A clock that advances by 400 ms from one reading to the next. *)
Definition Date_now (k : nat) : Z := 1700000000000 + 400 * Z.of_nat k.

Definition authConfig : AuthConfig :=
  {| apiUrl := lit "https://example.org/v1/completions"; password := lit "secret" |}.

(** A server that streams the given chunks, whatever the request. *)
Definition serve (stream : body_stream) (_ : request_body) : error + response :=
  inr {| ok := true; status := 200; statusText := lit "OK"; text := [];
         body := Some stream |}.

Definition line (s : string) : jsstring := lit s ++ [newline].

(** Scenario A: three deltas for three streams, cut in the middle of a line. *)
Definition chunks_A : list jsstring :=
  [ line "data: 0:ab" ++ lit "data:";
    lit " 1:cd" ++ [newline] ++ line "data: 0:c" ++ line "data: [DONE]" ].

(** Scenario B: a line that does not decode, then one that does. *)
Definition chunks_B : list jsstring :=
  [ line "data: {oops" ++ line "data: 0:ok" ].

Definition run (stream : body_stream) (count : nat) : execution :=
  _executeGeneration Date_now JSON_parse (serve stream) authConfig
    (replicate count (lit "prompt")) count true 800.

(** The page before any generation. *)
Definition idle : ChatPage.page :=
  {| ChatPage.results := [];
     ChatPage.chatPageResults := None;
     ChatPage.updateBuffer := ∅;
     ChatPage.updateTimeoutRef := None;
     ChatPage.shownTokenRate := zero;
     ChatPage.shownTotalTokens := 0;
     ChatPage.completedIndexes := ∅;
     ChatPage.isGenerating := false;
     ChatPage.now := 0;
     ChatPage.flushes := [];
     ChatPage.posted := [] |}.

(** A progress call that is not the final one. *)
Definition partial_update (i : nat) (c : jsstring) (total : Z) : progress :=
  {| p_index := i; p_content := c; isComplete := false;
     tokenRate := zero; totalTokens := total |}.


(** Scenario D: two short updates for index 0, 50 ms apart, and then nothing
    until the time [T]. *)
Definition trace_D (T : Z) : list (Z * ChatPage.action) :=
  [ (0, ChatPage.Progress (partial_update 0 (lit "ab") 2));
    (50, ChatPage.Progress (partial_update 0 (lit "abcd") 4));
    (T, ChatPage.Wait) ].

(** A run in which index 0 and index 1 have each received a short update, and
    the component has rendered since. *)
Definition trace_short : list (Z * ChatPage.action) :=
  [ (0, ChatPage.Progress (partial_update 0 (lit "ab") 2));
    (100, ChatPage.Progress (partial_update 1 (lit "cd") 4));
    (150, ChatPage.Render) ].

(** A run in which index 0 has received 101 characters, which are flushed at
    once, and then index 1 a short update, which stays pending. *)
Definition trace_long : list (Z * ChatPage.action) :=
  [ (0, ChatPage.Progress (partial_update 0 (replicate 101 97%N) 101));
    (100, ChatPage.Progress (partial_update 1 (lit "cd") 103)) ].

(** Scenario C: a page that shows ["foo"] and ["bar"], from the run before,
    and the continuation of both. *)
Definition shown (i : nat) (c : jsstring) : ChatPage.GeneratedResult :=
  {| ChatPage.id := lit "result-" ++ lit (pretty i);
     ChatPage.content := c;
     ChatPage.isLoading := false |}.

Definition page_C : ChatPage.page :=
  {| ChatPage.results := [shown 0 (lit "foo"); shown 1 (lit "bar")];
     ChatPage.chatPageResults := Some [shown 0 (lit "foo"); shown 1 (lit "bar")];
     ChatPage.updateBuffer := <[0%nat := lit "foo"]> (<[1%nat := lit "bar"]> ∅);
     ChatPage.updateTimeoutRef := None;
     ChatPage.shownTokenRate := zero;
     ChatPage.shownTotalTokens := 0;
     ChatPage.completedIndexes := {[0%nat; 1%nat]};
     ChatPage.isGenerating := false;
     ChatPage.now := 0;
     ChatPage.flushes := [];
     ChatPage.posted := [] |}.

Definition stream_A : body_stream :=
  {| chunks := chunks_A; ending := Done |}.

Definition continuation_C : execution :=
  generateMultipleResponses Date_now JSON_parse (serve stream_A) authConfig
    (lit "Continue.") (Multiple (ChatPage.contexts_of (ChatPage.results page_C)))
    ChatPage.totalCount true None.

(** The progress calls as tasks, 100 ms apart. *)
Definition tasks (ps : list progress) : list (Z * ChatPage.action) :=
  imap (fun k p => (100 * Z.of_nat k, ChatPage.Progress p)) ps.

End Scenario.

(** ** More vocabulary *)

Module Observed.

Import AIService.

(** A later progress call has seen more than an earlier one: the total has
    grown (strictly, unless the later call is a final one), and when both
    name the same index the later content starts with the earlier one. *)
Definition extends (p q : progress) : Prop :=
  totalTokens p <= totalTokens q /\
  (isComplete q = false -> totalTokens p < totalTokens q) /\
  (p_index p = p_index q -> p_content p `prefix_of` p_content q).

(** The indices that the final calls of a list of progress calls name. *)
Definition completions (ps : list progress) : gset nat :=
  list_to_set (map p_index (filter (fun p => isComplete p = true) ps)).

End Observed.

(** ** More of JavaScript *)

Module Value.

(** [if (s)] for a string: the empty string is falsy. *)
Definition truthy (s : jsstring) : bool :=
  match s with
  | [] => false
  | _ :: _ => true
  end.

(** [x || d] for a string or [undefined] [x]. *)
Definition or_else (x : option jsstring) (d : jsstring) : jsstring :=
  match x with
  | Some s => if truthy s then s else d
  | None => d
  end.

(** [s.slice(start)] for an integer [start]: a negative [start] counts from
    the end of the string. *)
Definition slice_from (start : Z) (s : jsstring) : jsstring :=
  let len := Z.of_nat (length s) in
  let from := if start <? 0 then Z.max (len + start) 0 else Z.min start len in
  drop (Z.to_nat from) s.

(** A number that is an index or the result of [parseInt]: an integer, or
    [NaN]. *)
Inductive integer := NaN | Int (z : Z).

(** [a === b] for [a] a number or [undefined] and [b] a number. *)
Definition strict_eq (a : option integer) (b : integer) : bool :=
  match a, b with
  | Some (Int x), Int y => x =? y
  | _, _ => false
  end.

(** [a[i]] and [m.get(i)] for an array or a [Map] whose keys are the indices
    [0, 1, ...]: [undefined] at [NaN] and at a negative number. *)
Definition at_index {A} (i : integer) (get : nat -> option A) : option A :=
  match i with
  | Int z => if 0 <=? z then get (Z.to_nat z) else None
  | NaN => None
  end.

End Value.

(** ** [window.localStorage] *)

Module LocalStorage.

Abbreviation storage := (gmap string jsstring).

Definition getItem (key : string) (ls : storage) : option jsstring := ls !! key.

Definition setItem (key : string) (value : jsstring) (ls : storage) : storage :=
  <[key := value]> ls.

Definition removeItem (key : string) (ls : storage) : storage := delete key ls.

Definition clear (ls : storage) : storage := ∅.

End LocalStorage.

(** ** AuthContext *)

Module AuthContext.

Import AIService Value LocalStorage.

Definition STORAGE_KEY : string := "rwkv_auth_config".

(** The state of [AuthProvider], and the storage it writes. *)
Record provider := {
  authConfig : option AuthConfig;
  localStorage : storage
}.

Section Provider.

(** [JSON.parse] of a stored text, [None] where it throws, and
    [JSON.stringify] of a configuration. The stored text is one that [login]
    wrote, so what it decodes to is a configuration. *)
Variable JSON_parse : jsstring -> option AuthConfig.
Variable JSON_stringify : AuthConfig -> jsstring.

(** The initial state: the saved configuration, [null] when there is none or
    it does not parse. *)
Definition saved_config (ls : storage) : option AuthConfig :=
  match getItem STORAGE_KEY ls with
  | Some saved => if truthy saved then JSON_parse saved else None
  | None => None
  end.

Definition AuthProvider (ls : storage) : provider :=
  {| authConfig := saved_config ls; localStorage := ls |}.

Definition login (apiUrl password : jsstring) (s : provider) : provider :=
  let config := {| apiUrl := apiUrl; password := password |} in
  {| authConfig := Some config;
     localStorage := setItem STORAGE_KEY (JSON_stringify config) (localStorage s) |}.

Definition logout (s : provider) : provider :=
  {| authConfig := None;
     localStorage := removeItem STORAGE_KEY (localStorage s) |}.

End Provider.

(** The value of the context: [!!authConfig], [authConfig?.apiUrl || ''] and
    [authConfig?.password || '']. *)
Definition isAuthenticated (s : provider) : bool :=
  match authConfig s with
  | Some _ => true
  | None => false
  end.

Definition context_apiUrl (s : provider) : jsstring :=
  match authConfig s with
  | Some c => or_else (Some (apiUrl c)) []
  | None => []
  end.

Definition context_password (s : provider) : jsstring :=
  match authConfig s with
  | Some c => or_else (Some (password c)) []
  | None => []
  end.

End AuthContext.

(** ** AuthDialog *)

Module AuthDialog.

Import Value.

(** The two messages of the form: "please enter the API address" and "please
    enter the password". *)
Definition enter_apiUrl : jsstring :=
  [35831; 36755; 20837; 32; 65; 80; 73; 32; 22320; 22336]%N.

Definition enter_password : jsstring :=
  [35831; 36755; 20837; 23494; 30721]%N.

Record form := {
  apiUrl : jsstring;
  password : jsstring;
  showPassword : bool;
  error : jsstring
}.

Definition setError (e : jsstring) (f : form) : form :=
  {| apiUrl := apiUrl f; password := password f;
     showPassword := showPassword f; error := e |}.

(** The address that is submitted: [http://] is put before an address that
    names no protocol. *)
Definition finalUrl (apiUrl : jsstring) : jsstring :=
  let finalUrl := trim apiUrl in
  if negb (startsWith (lit "http://") finalUrl) &&
     negb (startsWith (lit "https://") finalUrl)
  then lit "http://" ++ finalUrl
  else finalUrl.

(** [handleSubmit]: the form after it, and the arguments of the call of
    [onSubmit] when it makes one. *)
Definition handleSubmit (f : form) : form * option (jsstring * jsstring) :=
  let f := setError [] f in
  if negb (truthy (trim (apiUrl f))) then (setError enter_apiUrl f, None)
  else if negb (truthy (trim (password f))) then (setError enter_password f, None)
  else (f, Some (finalUrl (apiUrl f), trim (password f))).

End AuthDialog.

(** ** App *)

Module App.

Import Value LocalStorage AuthContext.

Inductive screen := Dialog | Routes.

(** [AppContent]: the dialog until a configuration is there. *)
Definition AppContent (s : provider) : screen :=
  if isAuthenticated s then Routes else Dialog.

(** Submitting the dialog that [AppContent] shows: [onSubmit] is [login]. *)
Definition submit (JSON_stringify : AIService.AuthConfig -> jsstring)
    (f : AuthDialog.form) (s : provider) : AuthDialog.form * provider :=
  match AuthDialog.handleSubmit f with
  | (f', Some (apiUrl, password)) => (f', login JSON_stringify apiUrl password s)
  | (f', None) => (f', s)
  end.

End App.

(** ** The rest of the service *)

Module Service.

Import AIService Value LocalStorage.

(** [getAuthConfig]: the saved configuration, or the one of the environment
    when there is none or it does not parse. [PUBLIC_RWKV_API_URL] is the
    variable of the build, [None] when it is not set. *)
Definition getAuthConfig (JSON_parse : jsstring -> option AuthConfig)
    (PUBLIC_RWKV_API_URL : option jsstring) (ls : storage) : AuthConfig :=
  let fallback :=
    {| apiUrl := or_else PUBLIC_RWKV_API_URL []; password := [] |} in
  match getItem AuthContext.STORAGE_KEY ls with
  | Some saved =>
      if truthy saved then
        match JSON_parse saved with
        | Some config => config
        | None => fallback
        end
      else fallback
  | None => fallback
  end.

(** "This is the story so far, please go on with what follows": the request
    that [continueGeneration] puts after the context. *)
Definition continue_request : jsstring :=
  [36825; 26159; 29616; 22312; 30340; 25925; 20107; 65292; 35831; 32487;
   32493; 29983; 25104; 21518; 38754; 30340; 20869; 23481]%N.

(** The context of a continuation: the last [contextLength] characters of
    the content, when it is longer than that. *)
Definition context (existingContent : jsstring) (contextLength : Z) : jsstring :=
  if Z.of_nat (length existingContent) >? contextLength
  then slice_from (- contextLength) existingContent
  else existingContent.

Section Continue.

Variable Date_now : nat -> Z.
Variable JSON_parse : jsstring -> option StreamChunk.
Variable fetch : request_body -> error + response.
Variable authConfig : AuthConfig.
Variable promptPrefix : jsstring.

Definition continuePrompt (existingContent : jsstring) (contextLength : Z)
  : jsstring :=
  promptPrefix ++ [newline] ++ context existingContent contextLength ++
  [newline] ++ continue_request.

(** [continueGeneration]; [contextLength] and [maxTokens] are [None] when they
    are left out, and then 500 and 4000. *)
Definition continueGeneration (existingContent : jsstring) (count : nat)
    (contextLength : option Z) (onProgress : bool) (maxTokens : option Z)
  : execution :=
  let contextLength := default 500 contextLength in
  let maxTokens := default 4000 maxTokens in
  let contents :=
    replicate count
      (lit "User: " ++ continuePrompt existingContent contextLength ++
       [newline; newline] ++ lit "Assistant: <think>" ++ [newline] ++
       lit "</think>") in
  _executeGeneration Date_now JSON_parse fetch authConfig
    contents count onProgress maxTokens.

End Continue.

End Service.

(** ** HomePage *)

Module HomePage.

Import Value LocalStorage AuthContext.

(** The page and what it shares with the rest of the application: the
    provider with [localStorage], [sessionStorage], and the message of the
    navigation to [/chat], when it has navigated. *)
Record home := {
  inputValue : jsstring;
  auth : provider;
  sessionStorage : storage;
  initialMessage : option jsstring
}.

Definition handleSuggestionClick (suggestion : jsstring) (h : home) : home :=
  {| inputValue := suggestion; auth := auth h;
     sessionStorage := sessionStorage h; initialMessage := initialMessage h |}.

(** The three items of [ChatPage] that both handlers remove. *)
Definition removeChatItems (ls : storage) : storage :=
  removeItem "hasProcessedInitialMessage"
    (removeItem "chatPagePrompt" (removeItem "chatPageResults" ls)).

Definition handleSubmit (content : jsstring) (h : home) : home :=
  if truthy (trim content) then
    {| inputValue := [];
       auth := {| authConfig := authConfig (auth h);
                  localStorage := removeChatItems (localStorage (auth h)) |};
       sessionStorage := sessionStorage h;
       initialMessage := Some content |}
  else h.

(** [handleClearCache]; [confirmed] is the answer to [confirm(...)]. *)
Definition handleClearCache (confirmed : bool) (h : home) : home :=
  if confirmed then
    let a := logout (auth h) in
    {| inputValue := inputValue h;
       auth := {| authConfig := authConfig a;
                  localStorage := removeChatItems (localStorage a) |};
       sessionStorage := clear (sessionStorage h);
       initialMessage := initialMessage h |}
  else h.

End HomePage.

(** ** ChatPage: the saved snapshot and the detail page *)

Module ChatPageStorage.

Import AIService ChatPage Value LocalStorage.

(** The item [chatPageResults] of [localStorage], decoded: [JSON_parse] is
    [JSON.parse] on the texts that [ChatPage] has saved. *)
Definition saved_results (JSON_parse : jsstring -> list GeneratedResult)
    (ls : storage) : option (list GeneratedResult) :=
  match getItem "chatPageResults" ls with
  | Some saved => if truthy saved then Some (JSON_parse saved) else None
  | None => None
  end.

(** [!result.isLoading && result.content] *)
Definition hasContent (result : GeneratedResult) : bool :=
  negb (isLoading result) && truthy (content result).

(** The initial [results]: the saved snapshot when it has eight results; a
    snapshot of another length is removed. The second component is the item
    of [localStorage] afterwards. *)
Definition initial_results (saved : option (list GeneratedResult))
  : list GeneratedResult * option (list GeneratedResult) :=
  match saved with
  | Some parsed =>
      if negb (length parsed =? 8)%nat then ([], None) else (parsed, Some parsed)
  | None => ([], None)
  end.

(** The initial [completedIndexes]: the indices of the saved results that
    have content and are not loading. *)
Definition initial_completedIndexes (saved : option (list GeneratedResult))
  : gset nat :=
  match saved with
  | Some savedResults =>
      foldl (fun completed '(index, result) =>
               if hasContent result then {[index]} ∪ completed else completed)
            ∅ (imap pair savedResults)
  | None => ∅
  end.

(** The component when it mounts at the time [t]: the two initial states are
    computed in this order; [pending] and [generating] are the map and the
    flag of [globalState]. *)
Definition mount (saved : option (list GeneratedResult))
    (pending : gmap nat jsstring) (generating : bool) (t : Z) : page :=
  let '(results, saved) := initial_results saved in
  {| results := results;
     chatPageResults := saved;
     updateBuffer := pending;
     updateTimeoutRef := None;
     shownTokenRate := zero;
     shownTotalTokens := 0;
     completedIndexes := initial_completedIndexes saved;
     isGenerating := generating;
     now := t;
     flushes := [];
     posted := [] |}.

(** The effect that handles the message of the home page: it starts a
    generation unless results are there whose first one is not loading. *)
Definition initial_generation (initialMessage : option jsstring) (s : page)
  : option jsstring :=
  let hasExistingResults :=
    (0 <? length (results s))%nat &&
    match results s !! 0%nat with
    | Some r => negb (isLoading r)
    | None => true
    end in
  match initialMessage with
  | Some m => if truthy m && negb hasExistingResults then Some m else None
  | None => None
  end.

(** [handleOpenDetail]: when the result is there and not loading, the
    snapshot is saved with the pending contents that are not empty, and the
    detail page is opened; the second component is its address. *)
Definition handleOpenDetail (index : nat) (s : page) : page * option jsstring :=
  match results s !! index with
  | Some r =>
      if negb (isLoading r) then
        let finalResults :=
          imap (fun i result =>
                  match updateBuffer s !! i with
                  | Some c => if truthy c then updated result c else result
                  | None => result
                  end) (results s) in
        (set_chatPageResults (Some finalResults) s,
         Some (lit "/detail?index=" ++ lit (pretty index)))
      else (s, None)
  | None => (s, None)
  end.

(** [handleContinueGenerate] starts a run when some result has content and
    is not loading, and no run is going on. *)
Definition can_continue (isContinuing : bool) (s : page) : bool :=
  let hasValidContent :=
    existsb (fun r => truthy (content r) && negb (isLoading r)) (results s) in
  negb (negb hasValidContent || isContinuing || isGenerating s).

(** The button that continues is shown when there are results, no run is
    going on and all the tasks have completed. *)
Definition continue_button (isContinuing : bool) (s : page) : bool :=
  (0 <? length (results s))%nat &&
  negb (isGenerating s) && negb isContinuing &&
  (size (completedIndexes s) =? totalCount)%nat.

End ChatPageStorage.

(** ** DetailPage *)

Module DetailPage.

Import ChatPage Value.

(** "No content yet". *)
Definition DEFAULT_TEXT : jsstring := [26242; 26080; 20869; 23481]%N.

(** [window.__chatPageGlobalState], as [ChatPage] sets it. *)
Record globalState := {
  updateBuffer : gmap nat jsstring;
  isGenerating : bool
}.

(** [content && content !== DEFAULT_TEXT] *)
Definition valid (content : jsstring) : bool :=
  truthy content && negb (string_eqb content DEFAULT_TEXT).

(** The text the page starts with. [resultIndex] is [None] when the address
    has no [index], and else what [parseInt] makes of it; [state_content] is
    [location.state?.content]; [chatPageResults] is the saved snapshot;
    [global] is [None] in a window where [ChatPage] has not run. *)
Definition initialText (resultIndex : option integer)
    (state_content : option jsstring)
    (chatPageResults : option (list GeneratedResult))
    (global : option globalState) : jsstring :=
  match resultIndex with
  | None => or_else state_content DEFAULT_TEXT
  | Some resultIndex =>
      let saved :=
        match chatPageResults with
        | Some results =>
            match at_index resultIndex (fun i => results !! i) with
            | Some r => if valid (content r) then Some (content r) else None
            | None => None
            end
        | None => None
        end in
      match saved with
      | Some content => content
      | None =>
          let pending :=
            match global with
            | Some g =>
                match at_index resultIndex (fun i => updateBuffer g !! i) with
                | Some c => if valid c then Some c else None
                | None => None
                end
            | None => None
            end in
          match pending with
          | Some content => content
          | None => DEFAULT_TEXT
          end
      end
  end.

Record view := {
  textContent : jsstring;
  isLiveUpdating : bool
}.

(** What a message on the channel carries. *)
Record data := {
  type : jsstring;
  index : option integer;
  content : option jsstring
}.

(** The state once the effect has run: when a generation is going on in this
    window, the page is live and takes the pending content of its index. *)
Definition mounted (resultIndex : option integer)
    (state_content : option jsstring)
    (chatPageResults : option (list GeneratedResult))
    (global : option globalState) : view :=
  let text := initialText resultIndex state_content chatPageResults global in
  match resultIndex, global with
  | Some resultIndex, Some g =>
      if isGenerating g then
        {| textContent :=
             match at_index resultIndex (fun i => updateBuffer g !! i) with
             | Some c => if truthy c then c else text
             | None => text
             end;
           isLiveUpdating := true |}
      else {| textContent := text; isLiveUpdating := false |}
  | _, _ => {| textContent := text; isLiveUpdating := false |}
  end.

(** [channel.onmessage], of a page whose [resultIndex] is defined. *)
Definition onmessage (resultIndex : integer) (global : option globalState)
    (v : view) (d : data) : view :=
  if string_eqb (type d) (lit "INIT_DETAIL") && strict_eq (index d) resultIndex
  then
    match content d with
    | Some newContent =>
        if valid newContent
        then {| textContent := newContent;
                isLiveUpdating := match global with
                                  | Some g => isGenerating g
                                  | None => false
                                  end |}
        else v
    | None => v
    end
  else if negb (strict_eq (index d) resultIndex) then v
  else
    match content d with
    | Some newContent =>
        if string_eqb (type d) (lit "UPDATE_CONTENT") && truthy newContent
        then {| textContent := newContent; isLiveUpdating := true |}
        else if string_eqb (type d) (lit "GENERATION_COMPLETE") ||
                string_eqb (type d) (lit "GENERATION_ERROR")
        then {| textContent := textContent v; isLiveUpdating := false |}
        else v
    | None =>
        if string_eqb (type d) (lit "GENERATION_COMPLETE") ||
           string_eqb (type d) (lit "GENERATION_ERROR")
        then {| textContent := textContent v; isLiveUpdating := false |}
        else v
    end.

(** The messages that [ChatPage] posts, as the detail pages receive them.
    The messages of one flush are in the order [l]. *)
Definition update_messages (l : list (nat * jsstring)) : list data :=
  map (fun '(i, c) => {| type := lit "UPDATE_CONTENT";
                         index := Some (Int (Z.of_nat i));
                         content := Some c |}) l.

Definition received (m : ChannelMessage) : list data :=
  match m with
  | UPDATE_CONTENT updates => update_messages (map_to_list updates)
  | GENERATION_COMPLETE =>
      [{| type := lit "GENERATION_COMPLETE"; index := None; content := None |}]
  | GENERATION_ERROR =>
      [{| type := lit "GENERATION_ERROR"; index := None; content := None |}]
  end.

End DetailPage.

(** ** PromptOptimizeDialog *)

Module PromptOptimizeDialog.

Import Value.

Record OptimizedResult := {
  id : jsstring;
  content : jsstring;
  isLoading : bool
}.

Definition totalCount : nat := 5.

(** The state of the dialog. [controller] tells whether
    [optimizeAbortControllerRef] holds a controller, and [aborted] counts the
    calls of [abort]. *)
Record dialog := {
  optimizeInput : jsstring;
  optimizedResults : list OptimizedResult;
  isOptimizing : bool;
  copiedIndex : option nat;
  controller : bool;
  aborted : nat
}.

Definition placeholders : list OptimizedResult :=
  map (fun i => {| id := lit "optimize-" ++ lit (pretty i);
                   content := [];
                   isLoading := true |})
      (seq 0 totalCount).

Definition loaded (result : OptimizedResult) : OptimizedResult :=
  {| id := id result; content := content result; isLoading := false |}.

(** The effect on [isOpen] and [initialPrompt], when the dialog is open. *)
Definition opened (initialPrompt : jsstring) (d : dialog) : dialog :=
  {| optimizeInput := initialPrompt; optimizedResults := [];
     isOptimizing := false; copiedIndex := None;
     controller := controller d; aborted := aborted d |}.

(** [handleStartOptimize], up to the call of the service. *)
Definition handleStartOptimize (d : dialog) : dialog :=
  if negb (truthy (trim (optimizeInput d))) then d
  else {| optimizeInput := optimizeInput d; optimizedResults := placeholders;
          isOptimizing := true; copiedIndex := copiedIndex d;
          controller := true; aborted := aborted d |}.

(** The callback that is passed to the service. *)
Definition onResult (index : Z) (c : jsstring) (d : dialog) : dialog :=
  {| optimizeInput := optimizeInput d;
     optimizedResults :=
       imap (fun i result =>
               if Z.of_nat i =? index
               then {| id := id result; content := c; isLoading := false |}
               else result) (optimizedResults d);
     isOptimizing := isOptimizing d; copiedIndex := copiedIndex d;
     controller := controller d; aborted := aborted d |}.

(** [.then] and [.catch] of the call of the service. *)
Definition resolved (d : dialog) : dialog :=
  {| optimizeInput := optimizeInput d; optimizedResults := optimizedResults d;
     isOptimizing := false; copiedIndex := copiedIndex d;
     controller := controller d; aborted := aborted d |}.

Definition rejected (d : dialog) : dialog :=
  {| optimizeInput := optimizeInput d;
     optimizedResults := map loaded (optimizedResults d);
     isOptimizing := false; copiedIndex := copiedIndex d;
     controller := controller d; aborted := aborted d |}.

Definition handleStopOptimize (d : dialog) : dialog :=
  {| optimizeInput := optimizeInput d;
     optimizedResults := map loaded (optimizedResults d);
     isOptimizing := false; copiedIndex := copiedIndex d;
     controller := false;
     aborted := if controller d then S (aborted d) else aborted d |}.

Definition handleClose (d : dialog) : dialog :=
  {| optimizeInput := optimizeInput d; optimizedResults := [];
     isOptimizing := false; copiedIndex := None;
     controller := controller d;
     aborted := if controller d then S (aborted d) else aborted d |}.

Definition runningTaskCount (d : dialog) : nat :=
  length (filter (fun r => isLoading r = true) (optimizedResults d)).

Definition completedTaskCount (d : dialog) : nat :=
  length (filter (fun r => negb (isLoading r) && truthy (content r) = true)
                 (optimizedResults d)).

(** What happens to the dialog. *)
Inductive event :=
  | Open (initialPrompt : jsstring)
  | Input (value : jsstring)
  | Start
  | Result (index : Z) (content : jsstring)
  | Resolved
  | Rejected
  | Stop
  | Close.

Definition setOptimizeInput (value : jsstring) (d : dialog) : dialog :=
  {| optimizeInput := value; optimizedResults := optimizedResults d;
     isOptimizing := isOptimizing d; copiedIndex := copiedIndex d;
     controller := controller d; aborted := aborted d |}.

Definition handle (d : dialog) (e : event) : dialog :=
  match e with
  | Open p => opened p d
  | Input v => setOptimizeInput v d
  | Start => handleStartOptimize d
  | Result i c => onResult i c d
  | Resolved => resolved d
  | Rejected => rejected d
  | Stop => handleStopOptimize d
  | Close => handleClose d
  end.

End PromptOptimizeDialog.

(** ** More of the environment for the examples *)

Module Fixture.

Import AIService Value LocalStorage.

(** A stand-in for [JSON.stringify] and [JSON.parse] on configurations whose
    fields have no character that JSON escapes: the text
    [{"apiUrl":"...","password":"..."}]. *)
Definition quoted (name : string) : jsstring := [34%N] ++ lit name ++ [34%N].

Definition JSON_stringify (c : AuthConfig) : jsstring :=
  [123%N] ++ quoted "apiUrl" ++ [58%N; 34%N] ++ apiUrl c ++ [34%N; 44%N] ++
  quoted "password" ++ [58%N; 34%N] ++ password c ++ [34%N; 125%N].

(** The text up to the next quote, and the text after that quote. *)
Fixpoint until_quote (s : jsstring) : option (jsstring * jsstring) :=
  match s with
  | [] => None
  | c :: s' =>
      if (c =? 34)%N then Some ([], s')
      else match until_quote s' with
           | Some (a, r) => Some (c :: a, r)
           | None => None
           end
  end.

Definition after (p s : jsstring) : option jsstring :=
  if startsWith p s then Some (drop (length p) s) else None.

Definition JSON_parse (s : jsstring) : option AuthConfig :=
  match after ([123%N] ++ quoted "apiUrl" ++ [58%N; 34%N]) s with
  | Some s1 =>
      match until_quote s1 with
      | Some (url, s2) =>
          match after ([44%N] ++ quoted "password" ++ [58%N; 34%N]) s2 with
          | Some s3 =>
              match until_quote s3 with
              | Some (pw, s4) =>
                  if string_eqb s4 [125%N]
                  then Some {| apiUrl := url; password := pw |}
                  else None
              | None => None
              end
          | None => None
          end
      | None => None
      end
  | None => None
  end.

(** A provider with nothing saved. *)
Definition signed_out : AuthContext.provider :=
  {| AuthContext.authConfig := None; AuthContext.localStorage := ∅ |}.

(** The dialog that optimises a prompt, before it is used. *)
Definition closed : PromptOptimizeDialog.dialog :=
  {| PromptOptimizeDialog.optimizeInput := lit "a castle";
     PromptOptimizeDialog.optimizedResults := [];
     PromptOptimizeDialog.isOptimizing := false;
     PromptOptimizeDialog.copiedIndex := None;
     PromptOptimizeDialog.controller := false;
     PromptOptimizeDialog.aborted := 0 |}.

(** The dialog as it is filled in: an address with no protocol, and white
    space around both fields. *)
Definition filled : AuthDialog.form :=
  {| AuthDialog.apiUrl := lit "  192.168.0.82:8001/v1/chat/completions ";
     AuthDialog.password := lit " secret";
     AuthDialog.showPassword := false;
     AuthDialog.error := lit "old" |}.

End Fixture.

Import AIService.

(** * Properties *)

(** ** Facts about [split] *)

Section Split.

Lemma split_nl_nonempty s : split_nl s <> [].
Proof.
  destruct s as [|c s]; simpl; [discriminate|].
  destruct (N.eqb c newline); [discriminate|].
  destruct (split_nl s); discriminate.
Qed.

Lemma removelast_cons2 {A} (x y : A) l :
  removelast (x :: y :: l) = x :: removelast (y :: l).
Proof. reflexivity. Qed.

Lemma last_cons2 {A} (x y : A) l : last (x :: y :: l) = last (y :: l).
Proof. reflexivity. Qed.

(** Splitting a concatenation: the complete lines of the first part stay, and
    its unfinished last piece is glued to the front of the second part. *)
Lemma split_nl_app a b :
  split_nl (a ++ b) =
  removelast (split_nl a) ++ split_nl (or_empty (last (split_nl a)) ++ b).
Proof.
  induction a as [|c a IH]; simpl; [reflexivity|].
  destruct (N.eqb c newline) eqn:Hc.
  - pose proof (split_nl_nonempty a) as Hne.
    destruct (split_nl a) as [|l ls] eqn:Ha; [contradiction|].
    rewrite IH. reflexivity.
  - pose proof (split_nl_nonempty a) as Hne.
    destruct (split_nl a) as [|l ls] eqn:Ha; [contradiction|].
    rewrite IH. destruct ls as [|l2 ls].
    + simpl. rewrite Hc. reflexivity.
    + rewrite !removelast_cons2, !last_cons2. reflexivity.
Qed.

(** No piece of a split contains a newline. *)
Lemma split_nl_no_newline s :
  Forall (fun l => newline ∉ l) (split_nl s).
Proof.
  induction s as [|c s IH]; simpl.
  - constructor; [apply not_elem_of_nil | constructor].
  - destruct (N.eqb c newline) eqn:Hc.
    + constructor; [apply not_elem_of_nil | exact IH].
    + destruct (split_nl s) as [|l ls]; [constructor; [|constructor]|].
      * intros H. apply list_elem_of_singleton in H. subst c.
        rewrite N.eqb_refl in Hc. discriminate.
      * inversion IH as [|? ? Hl Hls]; subst. constructor; [|exact Hls].
        intros H. apply elem_of_cons in H as [Heq|H]; [|contradiction].
        rewrite <- Heq, N.eqb_refl in Hc. discriminate.
Qed.

Lemma split_nl_single s : newline ∉ s -> split_nl s = [s].
Proof.
  induction s as [|c s IH]; intros H; [reflexivity|]. simpl.
  destruct (N.eqb c newline) eqn:Hc.
  - apply N.eqb_eq in Hc. subst c. exfalso. apply H. apply list_elem_of_here.
  - rewrite IH; [reflexivity|]. intros Hs. apply H.
    apply list_elem_of_further. exact Hs.
Qed.

Lemma last_split_nl_no_newline s :
  newline ∉ or_empty (last (split_nl s)).
Proof.
  pose proof (split_nl_no_newline s) as HF.
  destruct (last (split_nl s)) as [l|] eqn:Hl; simpl; [|apply not_elem_of_nil].
  rewrite Forall_forall in HF. apply HF.
  apply last_Some_elem_of. exact Hl.
Qed.

End Split.

(** ** The line parser *)

Section Parser.

Lemma next_lines_spec partial chunk :
  next_lines partial chunk =
  (complete_lines (partial ++ chunk),
   or_empty (last (split_nl (partial ++ chunk)))).
Proof. reflexivity. Qed.

Lemma removelast_app_nonempty {A} (l1 l2 : list A) :
  l2 <> [] -> removelast (l1 ++ l2) = l1 ++ removelast l2.
Proof. intros H. apply removelast_app. exact H. Qed.

Lemma last_app_nonempty {A} (l1 l2 : list A) :
  l2 <> [] -> last (l1 ++ l2) = last l2.
Proof.
  intros H. destruct (last l2) as [x|] eqn:Hx.
  - apply last_app_Some. left. exact Hx.
  - apply last_None in Hx. contradiction.
Qed.

(** The loop started with a partial line that has no newline yields the
    complete lines of the whole remaining text. *)
Lemma parse_chunks_spec chunks : forall partial,
  newline ∉ partial ->
  parse_chunks partial chunks =
  (complete_lines (partial ++ concat chunks),
   or_empty (last (split_nl (partial ++ concat chunks)))).
Proof.
  induction chunks as [|c cs IH]; intros partial Hp.
  - simpl. rewrite app_nil_r. unfold complete_lines.
    rewrite (split_nl_single _ Hp). reflexivity.
  - cbn [parse_chunks concat]. rewrite next_lines_spec.
    rewrite (IH _ (last_split_nl_no_newline (partial ++ c))).
    rewrite (app_assoc partial c (concat cs)).
    rewrite (split_nl_app (partial ++ c) (concat cs)).
    unfold complete_lines.
    rewrite ?(split_nl_app (partial ++ c) (concat cs)).
    rewrite removelast_app_nonempty by apply split_nl_nonempty.
    rewrite last_app_nonempty by apply split_nl_nonempty.
    reflexivity.
Qed.

Lemma chunking_preserves_lines_aux chunks :
  parse_chunks [] chunks = parse_chunks [] [concat chunks] /\
  fst (parse_chunks [] chunks) = complete_lines (concat chunks).
Proof.
  rewrite !parse_chunks_spec by apply not_elem_of_nil.
  simpl. rewrite app_nil_r. split; reflexivity.
Qed.

End Parser.

(** ** The demultiplexer *)

Section Demultiplexer.

Variable Date_now : nat -> Z.
Variable count : nat.
Variable onProgress : bool.
Variable startTime : Z.

Local Abbreviation apply_choice :=
  (apply_choice Date_now count onProgress startTime).
Local Abbreviation apply_event :=
  (apply_event Date_now count onProgress startTime).

Lemma accepted_range c :
  accepted count c = true ->
  delta_text c <> [] /\ 0 <= index c < Z.of_nat count.
Proof.
  unfold accepted. rewrite !andb_true_iff, negb_true_iff.
  intros [[H1 H2] H3]. apply bool_decide_eq_false in H1.
  apply Z.leb_le in H2. apply Z.ltb_lt in H3. auto.
Qed.

Lemma rejected_cases c :
  accepted count c = false ->
  delta_text c = [] \/ ~ 0 <= index c < Z.of_nat count.
Proof.
  unfold accepted. intros H.
  destruct (bool_decide (delta_text c = [])) eqn:Hd.
  - left. apply bool_decide_eq_true in Hd. exact Hd.
  - right. simpl in H. apply andb_false_iff in H.
    destruct H as [H|H]; [apply Z.leb_gt in H | apply Z.ltb_ge in H]; lia.
Qed.

Lemma apply_choice_rejected st c :
  accepted count c = false -> apply_choice st c = st.
Proof. intros H. unfold AIService.apply_choice. rewrite H. reflexivity. Qed.

Lemma apply_choice_buffers st c :
  accepted count c = true ->
  contentBuffers (apply_choice st c) =
  alter (fun s => s ++ delta_text c) (Z.to_nat (index c)) (contentBuffers st).
Proof. intros H. unfold AIService.apply_choice. rewrite H. reflexivity. Qed.

Lemma fmap_app_nil (o : option jsstring) :
  (fun s => s ++ []) <$> o = o.
Proof. destruct o; simpl; [rewrite app_nil_r|]; reflexivity. Qed.

Lemma fmap_app_app (o : option jsstring) a b :
  (fun s => s ++ b) <$> ((fun s => s ++ a) <$> o) = (fun s => s ++ a ++ b) <$> o.
Proof. destruct o; simpl; [rewrite app_assoc|]; reflexivity. Qed.

Lemma deltas_for_cons i c cs :
  deltas_for i (c :: cs) =
  if decide (index c = Z.of_nat i)
  then delta_text c ++ deltas_for i cs
  else deltas_for i cs.
Proof.
  unfold deltas_for. rewrite filter_cons.
  destruct (decide (index c = Z.of_nat i)); reflexivity.
Qed.

Lemma deltas_for_app i cs1 cs2 :
  deltas_for i (cs1 ++ cs2) = deltas_for i cs1 ++ deltas_for i cs2.
Proof.
  unfold deltas_for. rewrite filter_app, map_app, concat_app. reflexivity.
Qed.

(** One event moves the buffer of its index, and no other. *)
Lemma apply_choice_lookup st c i :
  (i < count)%nat ->
  contentBuffers (apply_choice st c) !! i =
  (fun s => s ++ deltas_for i [c]) <$> contentBuffers st !! i.
Proof.
  intros Hi. rewrite deltas_for_cons. unfold deltas_for at 1 2. simpl.
  destruct (accepted count c) eqn:Hacc.
  - rewrite (apply_choice_buffers _ _ Hacc).
    destruct (accepted_range _ Hacc) as [_ Hr].
    destruct (decide (index c = Z.of_nat i)) as [He|Hne].
    + rewrite He, Nat2Z.id, list_lookup_alter_eq, app_nil_r. reflexivity.
    + rewrite list_lookup_alter_ne by lia. symmetry. apply fmap_app_nil.
  - rewrite (apply_choice_rejected _ _ Hacc).
    destruct (decide (index c = Z.of_nat i)) as [He|Hne].
    + destruct (rejected_cases _ Hacc) as [Hd|Hr]; [|lia].
      rewrite Hd. symmetry. apply fmap_app_nil.
    + symmetry. apply fmap_app_nil.
Qed.

Lemma apply_choices_lookup cs : forall st i,
  (i < count)%nat ->
  contentBuffers (foldl apply_choice st cs) !! i =
  (fun s => s ++ deltas_for i cs) <$> contentBuffers st !! i.
Proof.
  induction cs as [|c cs IH]; intros st i Hi.
  - simpl. symmetry. apply fmap_app_nil.
  - cbn [foldl]. rewrite (IH _ _ Hi), (apply_choice_lookup _ _ _ Hi).
    change (c :: cs) with ([c] ++ cs). rewrite deltas_for_app.
    apply fmap_app_app.
Qed.

Lemma apply_choice_length st c :
  length (contentBuffers (apply_choice st c)) = length (contentBuffers st).
Proof.
  unfold AIService.apply_choice. destruct (accepted count c); [|reflexivity].
  simpl. apply length_alter.
Qed.

Lemma apply_choices_length cs : forall st,
  length (contentBuffers (foldl apply_choice st cs)) =
  length (contentBuffers st).
Proof.
  induction cs as [|c cs IH]; intros st; [reflexivity|].
  cbn [foldl]. rewrite IH. apply apply_choice_length.
Qed.

(** From the empty buffers, every buffer holds the deltas of its index. *)
Lemma apply_choices_buffers cs :
  contentBuffers (foldl apply_choice (initial_state count) cs) =
  map (fun i => deltas_for i cs) (seq 0 count).
Proof.
  apply list_eq. intros i.
  destruct (decide (i < count)%nat) as [Hi|Hi].
  - rewrite (apply_choices_lookup _ _ _ Hi). simpl.
    rewrite lookup_replicate_2 by exact Hi. simpl.
    rewrite list_lookup_fmap, lookup_seq_lt by exact Hi. reflexivity.
  - rewrite !lookup_ge_None_2; [reflexivity| |].
    + rewrite length_map, length_seq. lia.
    + rewrite apply_choices_length. simpl. rewrite length_replicate. lia.
Qed.

(** Events that are not applied can be left out. *)
Lemma apply_choices_filter (P : Choice -> Prop) `{!forall c, Decision (P c)} cs :
  (forall c, accepted count c = true -> P c) ->
  forall st, foldl apply_choice st (filter P cs) = foldl apply_choice st cs.
Proof.
  intros HP. induction cs as [|c cs IH]; intros st; [reflexivity|].
  rewrite filter_cons. destruct (decide (P c)) as [Hc|Hc]; cbn [foldl].
  - apply IH.
  - rewrite IH. f_equal. symmetry. apply apply_choice_rejected.
    destruct (accepted count c) eqn:Ha; [|reflexivity].
    exfalso. apply Hc, HP, Ha.
Qed.

Lemma apply_event_choices st json :
  apply_event st json = foldl apply_choice st (event_choices json).
Proof.
  unfold AIService.apply_event, event_choices.
  destruct (choices json) as [cs|]; [|reflexivity].
  destruct cs; reflexivity.
Qed.

Lemma apply_events_choices events : forall st,
  foldl apply_event st events =
  foldl apply_choice st (concat (map event_choices events)).
Proof.
  induction events as [|e es IH]; intros st; [reflexivity|].
  cbn [foldl map concat]. rewrite foldl_app, IH, apply_event_choices.
  reflexivity.
Qed.

End Demultiplexer.

(** C1. After the demultiplexer has processed a sequence of decoded events,
    the buffer of every index below the stream count is the concatenation, in
    the order of arrival, of the deltas the events carry for that index. A
    pair whose index is out of range leaves the state, and so every buffer, as
    it is; without such pairs the demultiplexer ends in the same state. *)
Theorem buffers_concatenate_deltas (Date_now : nat -> Z) (count : nat)
    (onProgress : bool) (startTime : Z) (events : list StreamChunk) :
  let pairs := concat (map event_choices events) in
  let apply := apply_choice Date_now count onProgress startTime in
  let demux :=
    foldl (apply_event Date_now count onProgress startTime)
          (initial_state count) in
  contentBuffers (demux events) = map (fun i => deltas_for i pairs) (seq 0 count)
  /\ (forall st c,
        apply st c =
        if decide (0 <= index c < Z.of_nat count) then apply st c else st)
  /\ foldl apply (initial_state count)
           (filter (fun c => 0 <= index c < Z.of_nat count) pairs)
     = demux events.
Proof.
  intros pairs apply demux. unfold demux. rewrite apply_events_choices.
  split; [|split].
  - apply apply_choices_buffers.
  - intros st c. destruct (decide (0 <= index c < Z.of_nat count)) as [|Hout];
      [reflexivity|].
    apply apply_choice_rejected. destruct (accepted count c) eqn:Hacc;
      [|reflexivity].
    apply accepted_range in Hacc. tauto.
  - apply apply_choices_filter. intros c Hc.
    apply accepted_range in Hc. tauto.
Qed.

(** Three streams: the deltas of index 0 are joined in order, and the pairs
    with the indices 3 and -1 change nothing. *)
Example demultiplexed :
  let pair i s := {| index := i; delta := Some {| content := Some (lit s) |} |} in
  contentBuffers
    (foldl (apply_choice Scenario.Date_now 3 true 0) (initial_state 3)
           [pair 0 "ab"; pair 3 "xx"; pair 1 "cd"; pair (-1) "yy"; pair 0 "c"])
  = [lit "abc"; lit "cd"; []].
Proof. reflexivity. Qed.

(** ** Binary64 facts for the token rate *)

Section Binary64.

Lemma iter_pos_invariant {A} (P : A -> Prop) (f : A -> A) :
  (forall x, P x -> P (f x)) -> forall n x, P x -> P (SpecFloat.iter_pos f n x).
Proof.
  intros Hf. induction n as [n IH|n IH|]; intros x Hx; simpl; auto.
Qed.

Lemma shr_1_nonneg mrs : 0 <= shr_m mrs -> 0 <= shr_m (shr_1 mrs).
Proof.
  destruct mrs as [m r s]. simpl.
  destruct m as [|[p|p|]|[p|p|]]; simpl; lia.
Qed.

Lemma shr_nonneg mrs e n : 0 <= shr_m mrs -> 0 <= shr_m (fst (shr mrs e n)).
Proof.
  intros H. unfold shr. destruct n; simpl; auto.
  apply iter_pos_invariant; auto using shr_1_nonneg.
Qed.

Lemma shr_fexp_nonneg m e l :
  0 <= m -> 0 <= shr_m (fst (shr_fexp prec emax m e l)).
Proof.
  intros H. unfold shr_fexp. apply shr_nonneg.
  destruct l as [|[]]; simpl; exact H.
Qed.

Lemma round_nearest_even_nonneg m l : 0 <= m -> 0 <= round_nearest_even m l.
Proof.
  intros H. unfold round_nearest_even.
  destruct l as [|[]]; try destruct (Z.even m); lia.
Qed.

Lemma binary_round_aux_sign s m e l :
  0 <= m ->
  match binary_round_aux prec emax s m e l with
  | S754_zero s' | S754_infinity s' | S754_finite s' _ _ => s' = s
  | S754_nan => False
  end.
Proof.
  intros H. unfold binary_round_aux.
  pose proof (shr_fexp_nonneg m e l H) as H1.
  destruct (shr_fexp prec emax m e l) as [mrs' e']. simpl in H1.
  pose proof (shr_fexp_nonneg _ e' loc_Exact
                (round_nearest_even_nonneg _ (loc_of_shr_record mrs') H1)) as H2.
  destruct (shr_fexp prec emax _ e' loc_Exact) as [mrs'' e'']. simpl in H2.
  destruct (shr_m mrs''); [reflexivity| |lia].
  destruct (e'' <=? emax - prec); reflexivity.
Qed.

Lemma digits2_pos_lower m : 2 ^ (Zpos (digits2_pos m) - 1) <= Zpos m.
Proof.
  induction m as [m IH|m IH|]; simpl digits2_pos; [| |simpl; lia].
  - rewrite Pos2Z.inj_succ. replace (Z.succ (Zpos (digits2_pos m)) - 1)
      with (Z.succ (Zpos (digits2_pos m) - 1)) by lia.
    rewrite Z.pow_succ_r by lia. lia.
  - rewrite Pos2Z.inj_succ. replace (Z.succ (Zpos (digits2_pos m)) - 1)
      with (Z.succ (Zpos (digits2_pos m) - 1)) by lia.
    rewrite Z.pow_succ_r by lia. lia.
Qed.

Lemma digits2_pos_bound m : Zpos m < 2 ^ 53 -> Zpos (digits2_pos m) <= 53.
Proof.
  intros H. destruct (Z_le_gt_dec (Zpos (digits2_pos m)) 53) as [|Hgt]; [assumption|].
  pose proof (digits2_pos_lower m) as Hl.
  assert (2 ^ 53 <= 2 ^ (Zpos (digits2_pos m) - 1)) by (apply Z.pow_le_mono_r; lia).
  lia.
Qed.

Lemma digits2_pos_shift m p :
  digits2_pos (Pos.iter xO m p) = (digits2_pos m + p)%positive.
Proof.
  induction p as [|p IH] using Pos.peano_ind.
  - simpl. lia.
  - rewrite Pos.iter_succ. simpl. rewrite IH. lia.
Qed.

Lemma binary_round_aux_exact s m e :
  Zpos (digits2_pos m) = 53 -> -1074 <= e <= 971 ->
  binary_round_aux prec emax s (Zpos m) e loc_Exact = S754_finite s m e.
Proof.
  intros Hd He.
  assert (Hs : shr_fexp prec emax (Zpos m) e loc_Exact =
               ({| shr_m := Zpos m; shr_r := false; shr_s := false |}, e)).
  { unfold shr_fexp, fexp, emin, prec, emax in *. unfold Zdigits2. rewrite Hd.
    replace (Z.max (53 + e - 53) (3 - 1024 - 53) - e) with 0 by lia.
    reflexivity. }
  unfold binary_round_aux. rewrite Hs. simpl. rewrite Hs. simpl.
  change (emax - prec) with 971.
  destruct (Z.leb_spec e 971); [reflexivity | lia].
Qed.

Lemma of_Z_finite n :
  0 < n < 2 ^ 53 ->
  exists m e, of_Z n = S754_finite false m e /\
              Zpos (digits2_pos m) = 53 /\ -52 <= e <= 0.
Proof.
  intros [Hpos Hlt]. destruct n as [|p|p]; try lia.
  pose proof (digits2_pos_bound p Hlt) as Hd.
  assert (1 <= Zpos (digits2_pos p)) by lia.
  unfold of_Z, binary_normalize, binary_round, shl_align.
  unfold fexp, emin, prec, emax.
  destruct (Z.max (Zpos (digits2_pos p) + 0 - 53) (3 - 1024 - 53) - 0) as [|q|q] eqn:Hq;
    try lia.
  - exists p, 0. split; [apply (binary_round_aux_exact false p 0); lia | lia].
  - eexists _, _. split; [apply binary_round_aux_exact|split];
      rewrite ?digits2_pos_shift; lia.
Qed.

Lemma of_Z_nonneg n : 0 <= n -> nonneg (of_Z n).
Proof.
  intros H. destruct n as [|p|p]; [exact eq_refl| |lia].
  unfold of_Z, binary_normalize, binary_round.
  destruct (shl_align _ _ _) as [mz ez].
  pose proof (binary_round_aux_sign false (Zpos mz) ez loc_Exact) as Hs.
  unfold nonneg. destruct (binary_round_aux _ _ _ _ _ _); apply Hs; lia.
Qed.

Lemma gt_zero_cases x :
  gt x zero = true ->
  (exists m e, x = S754_finite false m e) \/ x = S754_infinity false.
Proof.
  unfold gt, SFltb, zero. destruct x as [s|[]| |[] m e]; simpl; try discriminate.
  - intros _. right. reflexivity.
  - intros _. left. eauto.
Qed.

Lemma nonneg_ge x : nonneg x -> ge x zero = true.
Proof.
  unfold ge, SFleb, zero. destruct x as [s|s| |s m e]; simpl; try tauto;
    intros ->; reflexivity.
Qed.

Lemma SFdiv_core_binary_nonneg m1 e1 m2 e2 :
  0 <= fst (fst (SFdiv_core_binary prec emax (Zpos m1) e1 (Zpos m2) e2)).
Proof.
  unfold SFdiv_core_binary.
  set (s := _ - _ - _).
  set (m' := match s with Zpos _ => _ | Z0 => _ | Zneg _ => _ end).
  assert (Hm : 0 <= m').
  { unfold m'. destruct s; try lia. apply Z.shiftl_nonneg. lia. }
  pose proof (Z_div_mod m' (Zpos m2) ltac:(lia)) as Hdiv.
  destruct (Z.div_eucl m' (Zpos m2)) as [q r]. simpl.
  destruct Hdiv as [Hq Hr]. nia.
Qed.

Lemma div_nonneg x y :
  (x = zero \/ exists m e, x = S754_finite false m e) ->
  gt y zero = true -> nonneg (div x y).
Proof.
  intros Hx Hy. apply gt_zero_cases in Hy.
  destruct Hx as [->|(mx & ex & ->)], Hy as [(my & ey & ->)| ->];
    try exact eq_refl.
  unfold div, SFdiv.
  pose proof (SFdiv_core_binary_nonneg mx ex my ey) as Hq.
  destruct (SFdiv_core_binary _ _ _ _ _ _) as [[mz ez] lz]. simpl in Hq.
  pose proof (binary_round_aux_sign (xorb false false) mz ez lz Hq) as Hs.
  unfold nonneg. destruct (binary_round_aux _ _ _ _ _ _); exact Hs.
Qed.

Lemma round_int_nonneg m k : 0 <= round_int false m (Zneg k).
Proof.
  unfold round_int. simpl cond_Zopp. apply Z.div_pos; [|lia].
  pose proof (Z.pow_pos_nonneg 2 (Zpos k)). lia.
Qed.

Lemma Math_round_nonneg x : nonneg x -> nonneg (Math_round x).
Proof.
  destruct x as [s|s| |s m e]; try (intros H; exact H).
  intros H. change (s = false) in H. subst s.
  destruct e as [|p|k]; try exact eq_refl.
  unfold Math_round.
  destruct (Z.eqb_spec (round_int false m (Zneg k)) 0); [exact eq_refl|].
  apply of_Z_nonneg, round_int_nonneg.
Qed.

Lemma rate_nonneg total now startTime :
  0 <= total < 2 ^ 53 -> ge (rate total now startTime) zero = true.
Proof.
  intros Ht. apply nonneg_ge. unfold rate.
  destruct (gt _ zero) eqn:Hgt; [|exact eq_refl].
  apply Math_round_nonneg, div_nonneg; [|exact Hgt].
  destruct (Z.eq_dec total 0) as [->|Hne]; [left; reflexivity|].
  right. destruct (of_Z_finite total) as (m & e & H & _); [lia|eauto].
Qed.

Lemma rate_zero_elapsed total t : rate total t t = zero.
Proof. unfold rate. rewrite Z.sub_diag. reflexivity. Qed.

Lemma round_int_nearest s m k :
  let x2 := 2 * cond_Zopp s (Zpos m) in
  let n := round_int s m (Zneg k) in
  (2 * n - 1) * 2 ^ Zpos k <= x2 < (2 * n + 1) * 2 ^ Zpos k.
Proof.
  intros x2 n. unfold n, round_int. fold x2.
  assert (Hp : 0 < 2 ^ Zpos k) by (apply Z.pow_pos_nonneg; lia).
  rewrite Z.pow_add_r by lia. change (2 ^ 1) with 2.
  set (b := 2 ^ Zpos k) in *.
  pose proof (Z.mul_div_le (x2 + b) (b * 2) ltac:(lia)).
  pose proof (Z.mul_succ_div_gt (x2 + b) (b * 2) ltac:(lia)).
  nia.
Qed.

Lemma shr_1_div2 mrs : 0 <= shr_m mrs -> shr_m (shr_1 mrs) = shr_m mrs / 2.
Proof.
  destruct mrs as [m r s]. cbn [shr_m]. intros H.
  destruct m as [|[p|p|]|p]; try lia; cbn [shr_1 shr_m].
  - reflexivity.
  - apply (Z.div_unique _ 2 _ 1); lia.
  - apply (Z.div_unique _ 2 _ 0); lia.
  - reflexivity.
Qed.

Lemma pow2_xI n : 2 ^ Zpos n~1 = 2 * 2 ^ Zpos n * 2 ^ Zpos n.
Proof.
  replace (Zpos n~1) with (Zpos n + Zpos n + 1) by lia.
  rewrite !Z.pow_add_r by lia. change (2 ^ 1) with 2. ring.
Qed.

Lemma pow2_xO n : 2 ^ Zpos n~0 = 2 ^ Zpos n * 2 ^ Zpos n.
Proof.
  replace (Zpos n~0) with (Zpos n + Zpos n) by lia.
  rewrite Z.pow_add_r by lia. reflexivity.
Qed.

Lemma iter_shr_1_div n : forall mrs,
  0 <= shr_m mrs ->
  shr_m (SpecFloat.iter_pos shr_1 n mrs) = shr_m mrs / 2 ^ Zpos n.
Proof.
  induction n as [n IH|n IH|]; intros mrs H; simpl SpecFloat.iter_pos.
  - pose proof (shr_1_nonneg mrs H) as H1.
    pose proof (iter_pos_invariant (fun x => 0 <= shr_m x) shr_1 shr_1_nonneg
                  n _ H1) as H2.
    rewrite (IH _ H2), (IH _ H1), (shr_1_div2 _ H).
    rewrite !Z.div_div by (try apply Z.pow_pos_nonneg; lia).
    f_equal. rewrite pow2_xI. ring.
  - pose proof (iter_pos_invariant (fun x => 0 <= shr_m x) shr_1 shr_1_nonneg
                  n _ H) as H2.
    rewrite (IH _ H2), (IH _ H).
    rewrite !Z.div_div by (try apply Z.pow_pos_nonneg; lia).
    f_equal. rewrite pow2_xO. ring.
  - rewrite (shr_1_div2 _ H). reflexivity.
Qed.

Lemma digits2_pos_upper m : Zpos m < 2 ^ Zpos (digits2_pos m).
Proof.
  induction m as [m IH|m IH|]; simpl digits2_pos; [| |simpl; lia];
    rewrite Pos2Z.inj_succ, Z.pow_succ_r by lia; lia.
Qed.

Lemma digits2_pos_gt k m : 0 <= k -> 2 ^ k <= Zpos m -> k < Zpos (digits2_pos m).
Proof.
  intros Hk H. destruct (Z_lt_le_dec k (Zpos (digits2_pos m))) as [|Hle]; [assumption|].
  pose proof (digits2_pos_upper m).
  assert (2 ^ Zpos (digits2_pos m) <= 2 ^ k) by (apply Z.pow_le_mono_r; lia).
  lia.
Qed.

(** In the normal range the shift that brings a positive mantissa to the
    precision leaves it positive, and in the normal range. *)
Lemma shr_fexp_normal m e l :
  emin prec emax <= Zpos (digits2_pos m) + e - prec ->
  exists m1, shr_m (fst (shr_fexp prec emax (Zpos m) e l)) = Zpos m1 /\
    emin prec emax <=
      Zpos (digits2_pos m1) + snd (shr_fexp prec emax (Zpos m) e l) - prec.
Proof.
  intros Hn. unfold shr_fexp, shr. unfold Zdigits2.
  pose proof (digits2_pos_lower m) as Hl.
  assert (Hm : shr_m (shr_record_of_loc (Zpos m) l) = Zpos m)
    by (destruct l as [|[]]; reflexivity).
  unfold fexp. unfold emin, prec, emax in *.
  destruct (Z.max (Zpos (digits2_pos m) + e - 53) (3 - 1024 - 53) - e)
    as [|n|n] eqn:Hs; simpl fst; simpl snd.
  - exists m. split; [exact Hm | lia].
  - rewrite iter_shr_1_div by lia. rewrite Hm.
    assert (Hn' : Zpos n = Zpos (digits2_pos m) - 53) by lia.
    assert (Hq : 2 ^ 52 <= Zpos m / 2 ^ Zpos n).
    { replace 52 with (Zpos (digits2_pos m) - 1 - Zpos n) by lia.
      rewrite Z.pow_sub_r by lia.
      apply Z.div_le_mono; [apply Z.pow_pos_nonneg; lia | exact Hl]. }
    destruct (Zpos m / 2 ^ Zpos n) as [|m1|m1] eqn:Hm1; try lia.
    exists m1. split; [reflexivity|].
    pose proof (digits2_pos_gt 52 m1 ltac:(lia) Hq). lia.
  - exists m. split; [exact Hm | lia].
Qed.

Lemma round_nearest_even_ge m l : m <= round_nearest_even m l.
Proof.
  unfold round_nearest_even. destruct l as [|[]]; try destruct (Z.even m); lia.
Qed.

Lemma digits2_pos_mono m1 m2 :
  (m1 <= m2)%positive -> Zpos (digits2_pos m1) <= Zpos (digits2_pos m2).
Proof.
  intros H. pose proof (digits2_pos_lower m1).
  pose proof (digits2_pos_gt (Zpos (digits2_pos m1) - 1) m2 ltac:(lia) ltac:(lia)).
  lia.
Qed.

Lemma binary_round_aux_pos m e l :
  emin prec emax <= Zpos (digits2_pos m) + e - prec ->
  (exists m' e', binary_round_aux prec emax false (Zpos m) e l
                 = S754_finite false m' e') \/
  binary_round_aux prec emax false (Zpos m) e l = S754_infinity false.
Proof.
  intros Hn. unfold binary_round_aux.
  destruct (shr_fexp_normal m e l Hn) as (m1 & H1 & He1).
  destruct (shr_fexp prec emax (Zpos m) e l) as [mrs' e'].
  cbn [fst snd] in H1, He1.
  pose proof (round_nearest_even_ge (shr_m mrs') (loc_of_shr_record mrs')) as Hr.
  rewrite H1 in *.
  destruct (round_nearest_even (Zpos m1) (loc_of_shr_record mrs'))
    as [|m2|m2] eqn:Hm2; try lia.
  assert (Hn2 : emin prec emax <= Zpos (digits2_pos m2) + e' - prec).
  { pose proof (digits2_pos_mono m1 m2 ltac:(lia)).
    unfold emin, prec, emax in *. lia. }
  destruct (shr_fexp_normal m2 e' loc_Exact Hn2) as (m3 & H3 & _).
  destruct (shr_fexp prec emax (Zpos m2) e' loc_Exact) as [mrs'' e''].
  cbn [fst snd] in H3. rewrite H3.
  destruct (e'' <=? emax - prec); eauto.
Qed.

Lemma of_Z_1000 : of_Z 1000 = S754_finite false 8796093022208000 (-43).
Proof. reflexivity. Qed.

Lemma elapsed_positive ms :
  0 < ms < 2 ^ 53 -> gt (div (of_Z ms) (of_Z 1000)) zero = true.
Proof.
  intros Hms. destruct (of_Z_finite ms Hms) as (m & e & -> & Hd & He).
  rewrite of_Z_1000. unfold div, SFdiv, SFdiv_core_binary.
  unfold Zdigits2. rewrite Hd.
  change (Zpos (digits2_pos 8796093022208000)) with 53.
  unfold fexp, emin, prec, emax.
  replace (Z.min (Z.max (53 + e - (53 + -43) - 53) (3 - 1024 - 53)) (e - -43))
    with (e - 10) by lia.
  replace (e - -43 - (e - 10)) with 53 by lia.
  pose proof (Z_div_mod (Z.shiftl (Zpos m) 53) 8796093022208000 ltac:(lia)) as Hdiv.
  destruct (Z.div_eucl (Z.shiftl (Zpos m) 53) 8796093022208000) as [q r].
  destruct Hdiv as [Hq Hr].
  rewrite Z.shiftl_mul_pow2 in Hq by lia.
  assert (Hq1 : 0 < q) by nia.
  destruct q as [|q|q]; try lia.
  pose proof (digits2_pos_lower q).
  assert (1 <= Zpos (digits2_pos q)) by lia.
  destruct (binary_round_aux_pos q (e - 10) (new_location 8796093022208000 r))
    as [(m' & e' & H')|H'];
    [unfold emin, prec, emax; lia | |];
    change (xorb false false) with false;
    unfold prec, emax in H'; rewrite H'; reflexivity.
Qed.

Lemma elapsed_nonpositive ms :
  ms <= 0 -> gt (div (of_Z ms) (of_Z 1000)) zero = false.
Proof.
  intros Hms. destruct ms as [|p|p]; [reflexivity|lia|].
  rewrite of_Z_1000. unfold of_Z, binary_normalize, binary_round.
  destruct (shl_align _ _ _) as [mz ez].
  pose proof (binary_round_aux_sign true (Zpos mz) ez loc_Exact ltac:(lia)) as Hs.
  destruct (binary_round_aux prec emax true (Zpos mz) ez loc_Exact)
    as [s|s| |s m e]; try contradiction; subst s; try reflexivity.
  unfold div, SFdiv.
  pose proof (SFdiv_core_binary_nonneg m e 8796093022208000 (-43)) as Hq.
  destruct (SFdiv_core_binary _ _ _ _ _ _) as [[q e'] l]. cbn [fst] in Hq.
  pose proof (binary_round_aux_sign (xorb true false) q e' l Hq) as Hs.
  destruct (binary_round_aux prec emax (xorb true false) q e' l)
    as [s|s| |s m2 e2]; try contradiction; subst s; reflexivity.
Qed.

(** The rate as the source branches on it, by the sign of the elapsed
    milliseconds. *)
Lemma rate_cases total now startTime :
  (now - startTime <= 0 -> rate total now startTime = zero) /\
  (0 < now - startTime < 2 ^ 53 ->
   rate total now startTime =
   Math_round (div (of_Z total) (div (of_Z (now - startTime)) (of_Z 1000)))).
Proof.
  unfold rate. split; intros H.
  - rewrite (elapsed_nonpositive _ H). reflexivity.
  - rewrite (elapsed_positive _ H). reflexivity.
Qed.

End Binary64.

(** ** The progress calls of the read loop *)

Section Calls.

Variable Date_now : nat -> Z.
Variable count : nat.
Variable onProgress : bool.
Variable startTime : Z.

Local Abbreviation apply_choice :=
  (apply_choice Date_now count onProgress startTime).

Lemma applied_length_app cs1 cs2 :
  applied_length count (cs1 ++ cs2) =
  applied_length count cs1 + applied_length count cs2.
Proof.
  unfold applied_length. induction cs1 as [|c cs1 IH]; simpl; [reflexivity|].
  destruct (accepted count c); lia.
Qed.

Lemma applied_length_nonneg cs : 0 <= applied_length count cs.
Proof.
  unfold applied_length. induction cs as [|c cs IH]; simpl; [lia|].
  destruct (accepted count c); lia.
Qed.

Lemma applied_count_app cs1 cs2 :
  applied_count count (cs1 ++ cs2) =
  (applied_count count cs1 + applied_count count cs2)%nat.
Proof. unfold applied_count. rewrite filter_app, length_app. reflexivity. Qed.

Lemma applied_length_single c :
  applied_length count [c] =
  if accepted count c then Z.of_nat (length (delta_text c)) else 0.
Proof.
  unfold applied_length. cbn [foldr]. destruct (accepted count c); lia.
Qed.

Lemma applied_count_single c :
  applied_count count [c] = if accepted count c then 1%nat else 0%nat.
Proof.
  unfold applied_count. rewrite filter_cons, filter_nil.
  destruct (accepted count c); reflexivity.
Qed.

Lemma apply_choices_total cs : forall st,
  totalTokenCount (foldl apply_choice st cs) =
  totalTokenCount st + applied_length count cs.
Proof.
  induction cs as [|c cs IH]; intros st; cbn [foldl]; [simpl; lia|].
  rewrite IH. unfold AIService.apply_choice, applied_length. simpl.
  destruct (accepted count c); simpl; lia.
Qed.

Lemma apply_choices_ticks cs : forall st,
  ticks (foldl apply_choice st cs) = (ticks st + applied_count count cs)%nat.
Proof.
  induction cs as [|c cs IH]; intros st; cbn [foldl].
  { unfold applied_count. rewrite filter_nil. simpl. lia. }
  rewrite IH. change (c :: cs) with ([c] ++ cs).
  rewrite applied_count_app, applied_count_single.
  unfold AIService.apply_choice.
  destruct (accepted count c); simpl; lia.
Qed.

End Calls.

Section CallsReported.

Variable Date_now : nat -> Z.
Variable count : nat.

Local Abbreviation apply_choice :=
  (apply_choice Date_now count true (Date_now 0)).
Local Abbreviation after := (foldl apply_choice (initial_state count)).

(** One more pair: a call is made exactly when the pair is applied, and it
    is the expected one. *)
Lemma calls_snoc before c :
  calls (after (before ++ [c])) =
  calls (after before) ++
  (if accepted count c then [report_after Date_now count before c] else []).
Proof.
  rewrite foldl_app. cbn [foldl]. unfold AIService.apply_choice at 1.
  destruct (accepted count c) eqn:Hacc; [|rewrite app_nil_r; reflexivity].
  cbn [calls report]. f_equal. f_equal. unfold report_after.
  destruct (accepted_range _ _ Hacc) as [_ Hr].
  assert (Hi : (Z.to_nat (index c) < count)%nat) by lia.
  pose proof (apply_choices_buffers Date_now count true (Date_now 0)
                (before ++ [c])) as Hb.
  rewrite foldl_app in Hb. cbn [foldl] in Hb.
  rewrite (apply_choice_buffers _ _ _ _ _ _ Hacc) in Hb.
  rewrite Hb, list_lookup_fmap, lookup_seq_lt by exact Hi. cbn [fmap option_fmap option_map or_empty].
  rewrite apply_choices_total, apply_choices_ticks, applied_length_app.
  rewrite applied_length_single, Hacc.
  cbn [initial_state totalTokenCount ticks].
  rewrite !Z.add_0_l. reflexivity.
Qed.

Lemma calls_from rest : forall before,
  calls (after (before ++ rest)) =
  calls (after before) ++ reports_from Date_now count before rest.
Proof.
  induction rest as [|c rest IH]; intros before.
  - rewrite !app_nil_r. reflexivity.
  - change (c :: rest) with ([c] ++ rest). rewrite app_assoc, IH, calls_snoc.
    cbn [reports_from app]. rewrite <- app_assoc. reflexivity.
Qed.

(** The calls made while a sequence of pairs is read are the expected ones. *)
Lemma calls_stream cs : calls (after cs) = stream_reports Date_now count cs.
Proof. apply (calls_from cs []). Qed.

End CallsReported.

(** ** From the chunks to the result *)

Section Pipeline.

Variable Date_now : nat -> Z.
Variable JSON_parse : jsstring -> option StreamChunk.
Variable count : nat.
Variable onProgress : bool.
Variable startTime : Z.

Local Abbreviation apply_choice :=
  (apply_choice Date_now count onProgress startTime).
Local Abbreviation process_line :=
  (process_line Date_now JSON_parse count onProgress startTime).
Local Abbreviation read_chunk :=
  (read_chunk Date_now JSON_parse count onProgress startTime).

Lemma process_line_choices st line :
  process_line st line = foldl apply_choice st (line_choices JSON_parse line).
Proof.
  unfold AIService.process_line, line_choices.
  destruct (startsWith (lit "data: ") line); [|reflexivity]. cbn [negb].
  destruct (string_eqb _ _); [reflexivity|].
  destruct (JSON_parse _); [|reflexivity].
  apply apply_event_choices.
Qed.

Lemma process_lines_choices lines : forall st,
  foldl process_line st lines =
  foldl apply_choice st (concat (map (line_choices JSON_parse) lines)).
Proof.
  induction lines as [|l ls IH]; intros st; [reflexivity|].
  cbn [foldl map concat]. rewrite foldl_app, IH, process_line_choices.
  reflexivity.
Qed.

Lemma read_chunks_parse chunks : forall st partial,
  foldl read_chunk (st, partial) chunks =
  (foldl process_line st (fst (parse_chunks partial chunks)),
   snd (parse_chunks partial chunks)).
Proof.
  induction chunks as [|c cs IH]; intros st partial; [reflexivity|].
  cbn [foldl parse_chunks]. unfold AIService.read_chunk at 2.
  destruct (next_lines partial c) as [lines partial'].
  rewrite IH. destruct (parse_chunks partial' cs) as [more pf].
  cbn [fst snd]. rewrite foldl_app. reflexivity.
Qed.

(** The read loop leaves the state that the decoded pairs lead to. *)
Lemma read_chunks_decoded chunks :
  fst (foldl read_chunk (initial_state count, []) chunks) =
  foldl apply_choice (initial_state count) (decoded JSON_parse chunks).
Proof.
  rewrite read_chunks_parse. cbn [fst].
  rewrite process_lines_choices. unfold decoded.
  destruct (chunking_preserves_lines_aux chunks) as [_ ->]. reflexivity.
Qed.

End Pipeline.

(** C2. However a text is cut into chunks, the carry-over of the read loop
    hands over the complete lines of the text read in one piece, each once
    and in order, and ends with the same partial line; so the read loop
    ends in the same state and with the same partial line. *)
Theorem chunking_preserves_lines
    (Date_now : nat -> Z) (JSON_parse : jsstring -> option StreamChunk)
    (count : nat) (onProgress : bool) (startTime : Z)
    (st : gen_state) (chunks : list jsstring) :
  let read := read_chunk Date_now JSON_parse count onProgress startTime in
  let handle := process_line Date_now JSON_parse count onProgress startTime in
  parse_chunks [] chunks = parse_chunks [] [concat chunks] /\
  fst (parse_chunks [] chunks) = complete_lines (concat chunks) /\
  foldl read (st, []) chunks = foldl read (st, []) [concat chunks] /\
  foldl read (st, []) chunks =
    (foldl handle st (complete_lines (concat chunks)),
     or_empty (last (split_nl (concat chunks)))).
Proof.
  intros read handle.
  destruct (chunking_preserves_lines_aux chunks) as [Heq Hlines].
  split; [exact Heq|]. split; [exact Hlines|].
  unfold read. rewrite !read_chunks_parse, <- Heq. split; [reflexivity|].
  rewrite Hlines, (parse_chunks_spec chunks []) by apply not_elem_of_nil.
  reflexivity.
Qed.

(** Two chunks that cut a line in two: the line is handed over once, whole;
    the text after the last newline is kept as the partial line. *)
Example carry_over :
  parse_chunks [] [lit "data: a" ++ [newline] ++ lit "da";
                   lit "ta: b" ++ [newline] ++ lit "rest"]
  = ([lit "data: a"; lit "data: b"], lit "rest").
Proof. reflexivity. Qed.

(** ** The end of a run *)

Section Finish.

Variable Date_now : nat -> Z.
Variable count : nat.

Lemma final_steps st r l : forall results called,
  foldl (final_step true st r) (results, called) l =
  (results ++ map (fun i => or_empty (contentBuffers st !! i)) l,
   called ++
   concat (map (fun i =>
                  let content := or_empty (contentBuffers st !! i) in
                  if (0 <? length content)%nat
                  then [ {| p_index := i; p_content := content;
                            isComplete := true; tokenRate := r;
                            totalTokens := totalTokenCount st |} ]
                  else []) l)).
Proof.
  induction l as [|i l IH]; intros results called.
  - simpl. rewrite !app_nil_r. reflexivity.
  - cbn [foldl]. unfold final_step at 2. rewrite IH.
    cbn [map concat]. unfold report. rewrite <- !app_assoc. reflexivity.
Qed.

Lemma buffers_lookup cs i :
  In i (seq 0 count) ->
  or_empty (map (fun i => deltas_for i cs) (seq 0 count) !! i) = deltas_for i cs.
Proof.
  intros Hi. apply in_seq in Hi.
  rewrite list_lookup_fmap, lookup_seq_lt by lia. reflexivity.
Qed.

(** After the pairs [cs], the final loop returns the buffers and makes the
    expected final calls. *)
Lemma finish_spec cs :
  let st := foldl (apply_choice Date_now count true (Date_now 0))
                  (initial_state count) cs in
  finish Date_now count true (Date_now 0) st =
  (map (fun i => deltas_for i cs) (seq 0 count),
   stream_reports Date_now count cs ++ final_reports Date_now count cs).
Proof.
  intros st. unfold finish. rewrite final_steps. cbn [app].
  assert (Hb : contentBuffers st = map (fun i => deltas_for i cs) (seq 0 count))
    by apply apply_choices_buffers.
  assert (Ht : totalTokenCount st = applied_length count cs).
  { unfold st. rewrite apply_choices_total. simpl. lia. }
  assert (Hk : ticks st = (1 + applied_count count cs)%nat).
  { unfold st. rewrite apply_choices_ticks. reflexivity. }
  rewrite Hb, Ht, Hk. f_equal.
  - apply map_ext_in. intros i Hi. apply buffers_lookup, Hi.
  - f_equal; [apply calls_stream|]. unfold final_reports. f_equal.
    apply map_ext_in. intros i Hi. cbn zeta.
    rewrite (buffers_lookup _ _ Hi). reflexivity.
Qed.

End Finish.

(** ** A whole run *)

Section Run.

Variable Date_now : nat -> Z.
Variable JSON_parse : jsstring -> option StreamChunk.
Variable fetch : request_body -> error + response.
Variable authConfig : AuthConfig.

(** What [_executeGeneration] does when the request succeeds and the body is
    streamed: it sends the request, makes the expected calls, and returns the
    buffers when the stream ends, or throws what the read threw. *)
Lemma run_streamed contents count maxTokens resp stream :
  fetch (request authConfig contents maxTokens) = inr resp ->
  ok resp = true ->
  body resp = Some stream ->
  let cs := decoded JSON_parse (chunks stream) in
  _executeGeneration Date_now JSON_parse fetch authConfig
    contents count true maxTokens =
  {| sent := request authConfig contents maxTokens;
     callbacks :=
       stream_reports Date_now count cs ++
       match ending stream with
       | Done => final_reports Date_now count cs
       | ReadRejected _ => []
       end;
     result :=
       match ending stream with
       | Done => Return (map (fun i => deltas_for i cs) (seq 0 count))
       | ReadRejected e => Throw e
       end |}.
Proof.
  intros Hf Hok Hb cs. unfold _executeGeneration. rewrite Hf, Hok, Hb.
  cbn [negb].
  pose proof (read_chunks_decoded Date_now JSON_parse count true (Date_now 0)
                (chunks stream)) as Hst.
  destruct (foldl (read_chunk Date_now JSON_parse count true (Date_now 0))
              (initial_state count, []) (chunks stream)) as [st partial].
  cbn [fst] in Hst. subst st. fold cs.
  destruct (ending stream) as [|e].
  - rewrite (finish_spec Date_now count cs). reflexivity.
  - rewrite calls_stream, app_nil_r. reflexivity.
Qed.

End Run.

(** ** Malformed lines *)

Section Skipped.

Variable JSON_parse : jsstring -> option StreamChunk.

Lemma line_choices_skipped line :
  startsWith (lit "data: ") line = true ->
  trim (slice 6 line) = lit "[DONE]" \/ JSON_parse (trim (slice 6 line)) = None ->
  line_choices JSON_parse line = [].
Proof.
  intros Hs Hbad. unfold line_choices. rewrite Hs.
  destruct Hbad as [Hd|Hn].
  - rewrite Hd. reflexivity.
  - rewrite Hn. destruct (string_eqb _ _); reflexivity.
Qed.

End Skipped.

(** C4. In a run whose stream ends normally, a complete [data: ] line whose
    payload is [[DONE]] or does not decode carries no delta and raises no
    error: the run returns, its result is made of the deltas of all the
    complete lines, and those are the deltas of the lines before the
    malformed one followed by the deltas of the lines after it. *)
Theorem malformed_lines_skipped
    (Date_now : nat -> Z) (JSON_parse : jsstring -> option StreamChunk)
    (fetch : request_body -> error + response) (authConfig : AuthConfig)
    (contents : list jsstring) (count : nat) (maxTokens : Z)
    (resp : response) (chunks : list jsstring) :
  fetch (request authConfig contents maxTokens) = inr resp ->
  ok resp = true ->
  body resp = Some {| chunks := chunks; ending := Done |} ->
  let run := _executeGeneration Date_now JSON_parse fetch authConfig
               contents count true maxTokens in
  let cs := decoded JSON_parse chunks in
  result run = Return (map (fun i => deltas_for i cs) (seq 0 count)) /\
  forall before line after,
    complete_lines (concat chunks) = before ++ line :: after ->
    startsWith (lit "data: ") line = true ->
    trim (slice 6 line) = lit "[DONE]" \/
      JSON_parse (trim (slice 6 line)) = None ->
    line_choices JSON_parse line = [] /\
    cs = concat (map (line_choices JSON_parse) before) ++
         concat (map (line_choices JSON_parse) after).
Proof.
  intros Hf Hok Hb run cs. split.
  - unfold run. rewrite (run_streamed _ _ _ _ _ _ _ _ _ Hf Hok Hb). reflexivity.
  - intros before line after Hl Hs Hbad.
    pose proof (line_choices_skipped JSON_parse line Hs Hbad) as Hnil.
    split; [exact Hnil|]. unfold cs, decoded. rewrite Hl.
    rewrite map_app, concat_app. cbn [map concat]. rewrite Hnil. reflexivity.
Qed.

Lemma malformed_lines_skipped_witness :
  let run := Scenario.run {| chunks := Scenario.chunks_B; ending := Done |} 2 in
  let cs := decoded Scenario.JSON_parse Scenario.chunks_B in
  result run = Return (map (fun i => deltas_for i cs) (seq 0 2)) /\
  forall before line after,
    complete_lines (concat Scenario.chunks_B) = before ++ line :: after ->
    startsWith (lit "data: ") line = true ->
    trim (slice 6 line) = lit "[DONE]" \/
      Scenario.JSON_parse (trim (slice 6 line)) = None ->
    line_choices Scenario.JSON_parse line = [] /\
    cs = concat (map (line_choices Scenario.JSON_parse) before) ++
         concat (map (line_choices Scenario.JSON_parse) after).
Proof.
  apply (malformed_lines_skipped Scenario.Date_now Scenario.JSON_parse
           (Scenario.serve {| chunks := Scenario.chunks_B; ending := Done |})
           Scenario.authConfig (replicate 2 (lit "prompt")) 2 800
           {| ok := true; status := 200; statusText := lit "OK"; text := [];
              body := Some {| chunks := Scenario.chunks_B; ending := Done |} |}
           Scenario.chunks_B); reflexivity.
Defined.

(** Scenario B: the malformed line is skipped, the delta of the next line is
    applied, and the run returns. *)
Example scenario_B :
  result (Scenario.run {| chunks := Scenario.chunks_B; ending := Done |} 2)
  = Return [lit "ok"; []].
Proof. vm_compute. reflexivity. Qed.

(** ** The final calls *)

Section Filter.

Context {A : Type} (P : A -> Prop) `{!forall x, Decision (P x)}.

Lemma filter_all (l : list A) : Forall P l -> filter P l = l.
Proof.
  induction 1 as [|x l Hx _ IH]; [reflexivity|].
  rewrite filter_cons_True by exact Hx. rewrite IH. reflexivity.
Qed.

Lemma filter_none (l : list A) : Forall (fun x => ~ P x) l -> filter P l = [].
Proof.
  induction 1 as [|x l Hx _ IH]; [reflexivity|].
  rewrite filter_cons_False by exact Hx. exact IH.
Qed.

End Filter.

Lemma elem_of_concat_map {A B} (f : A -> list B) (l : list A) (y : B) :
  y ∈ concat (map f l) -> exists x, x ∈ l /\ y ∈ f x.
Proof.
  induction l as [|x l IH]; cbn [map concat]; intros H.
  - apply elem_of_nil in H. contradiction.
  - apply elem_of_app in H as [H|H].
    + exists x. split; [apply list_elem_of_here | exact H].
    + destruct (IH H) as (x' & Hx' & Hy). exists x'.
      split; [apply list_elem_of_further, Hx' | exact Hy].
Qed.

Section FinalCalls.

Variable Date_now : nat -> Z.
Variable count : nat.

Lemma reports_from_streaming rest : forall before,
  Forall (fun p => isComplete p = false)
         (reports_from Date_now count before rest).
Proof.
  induction rest as [|c rest IH]; intros before; cbn [reports_from].
  - constructor.
  - apply Forall_app. split; [|apply IH].
    destruct (accepted count c); repeat constructor.
Qed.

(** Every call made while reading is the expected call of some applied pair
    and the pairs before it. *)
Lemma reports_from_elem rest : forall before p,
  p ∈ reports_from Date_now count before rest ->
  exists b c r, rest = b ++ c :: r /\ accepted count c = true /\
                p = report_after Date_now count (before ++ b) c.
Proof.
  induction rest as [|c rest IH]; intros before p Hp; cbn [reports_from] in Hp.
  - apply elem_of_nil in Hp. contradiction.
  - apply elem_of_app in Hp as [Hp|Hp].
    + destruct (accepted count c) eqn:Hacc; [|apply elem_of_nil in Hp; contradiction].
      apply list_elem_of_singleton in Hp. subst p.
      exists [], c, rest. rewrite app_nil_r. auto.
    + apply IH in Hp as (b & c' & r & -> & Hacc & ->).
      exists (c :: b), c', r. rewrite <- app_assoc. auto.
Qed.

Lemma final_report_elem cs i p :
  p ∈ final_report Date_now count cs i ->
  isComplete p = true /\ p_index p = i /\ deltas_for i cs <> [] /\
  final_report Date_now count cs i = [p].
Proof.
  unfold final_report.
  destruct (0 <? length (deltas_for i cs))%nat eqn:Hlen;
    [|intros H; apply elem_of_nil in H; contradiction].
  intros H. apply list_elem_of_singleton in H. subst p. cbn.
  apply Nat.ltb_lt in Hlen.
  repeat split; try reflexivity. intros E. rewrite E in Hlen. simpl in Hlen. lia.
Qed.

Lemma final_report_empty cs i :
  deltas_for i cs = [] -> final_report Date_now count cs i = [].
Proof. intros E. unfold final_report. rewrite E. reflexivity. Qed.

(** Among the final calls of the indices in [l], those for index [i]. *)
Lemma final_reports_filter cs i l :
  NoDup l ->
  filter (fun p => isComplete p = true /\ p_index p = i)
         (concat (map (final_report Date_now count cs) l)) =
  if decide (i ∈ l) then final_report Date_now count cs i else [].
Proof.
  induction l as [|j l IH]; intros Hnd.
  - simpl. destruct (decide (i ∈ [])) as [H|_]; [|reflexivity].
    apply elem_of_nil in H. contradiction.
  - apply NoDup_cons in Hnd as [Hj Hnd]. cbn [map concat].
    rewrite filter_app, (IH Hnd).
    destruct (decide (i = j)) as [->|Hne].
    + destruct (decide (j ∈ l)) as [|_]; [contradiction|].
      destruct (decide (j ∈ j :: l)) as [_|H]; [|exfalso; apply H; left].
      rewrite app_nil_r. apply filter_all.
      apply Forall_forall. intros p Hp.
      apply final_report_elem in Hp. tauto.
    + replace (filter _ (final_report Date_now count cs j)) with (@nil progress).
      * cbn [app]. destruct (decide (i ∈ l)) as [Hin|Hin];
          destruct (decide (i ∈ j :: l)) as [Hin'|Hin']; try reflexivity.
        -- exfalso. apply Hin'. right. exact Hin.
        -- apply elem_of_cons in Hin' as [?|?]; [congruence|contradiction].
      * symmetry. apply filter_none.
        apply Forall_forall. intros p Hp [_ Hi].
        apply final_report_elem in Hp. destruct Hp as (_ & Hp & _). congruence.
Qed.

End FinalCalls.

(** C5. When the stream ends normally, an index whose buffer is not empty
    gets exactly one call with [isComplete = true]; it carries the whole buffer
    and the final rate and total. An index whose buffer is empty gets none. *)
Theorem final_callbacks
    (Date_now : nat -> Z) (JSON_parse : jsstring -> option StreamChunk)
    (fetch : request_body -> error + response) (authConfig : AuthConfig)
    (contents : list jsstring) (count : nat) (maxTokens : Z)
    (resp : response) (chunks : list jsstring) :
  fetch (request authConfig contents maxTokens) = inr resp ->
  ok resp = true ->
  body resp = Some {| chunks := chunks; ending := Done |} ->
  let run := _executeGeneration Date_now JSON_parse fetch authConfig
               contents count true maxTokens in
  let cs := decoded JSON_parse chunks in
  let finals i :=
    filter (fun p => isComplete p = true /\ p_index p = i) (callbacks run) in
  result run = Return (map (fun i => deltas_for i cs) (seq 0 count)) /\
  forall i, (i < count)%nat ->
    (deltas_for i cs <> [] ->
     finals i =
     [ {| p_index := i;
          p_content := deltas_for i cs;
          isComplete := true;
          tokenRate := rate (applied_length count cs)
                            (Date_now (1 + applied_count count cs)%nat)
                            (Date_now 0%nat);
          totalTokens := applied_length count cs |} ]) /\
    (deltas_for i cs = [] -> finals i = []).
Proof.
  intros Hf Hok Hb run cs finals. unfold finals, run.
  rewrite (run_streamed _ _ _ _ _ _ _ _ _ Hf Hok Hb).
  cbn [result callbacks AIService.chunks ending]. fold cs.
  split; [reflexivity|]. intros i Hi.
  assert (Hfilter :
    filter (fun p => isComplete p = true /\ p_index p = i)
           (stream_reports Date_now count cs ++ final_reports Date_now count cs)
    = final_report Date_now count cs i).
  { rewrite filter_app. unfold final_reports.
    rewrite (final_reports_filter _ _ _ _ _ (NoDup_seq 0 count)).
    destruct (decide (i ∈ seq 0 count)) as [_|Hn].
    - rewrite filter_none; [reflexivity|].
      eapply Forall_impl; [apply reports_from_streaming|].
      intros p Hp [Hc _]. simpl in Hp. congruence.
    - exfalso. apply Hn. apply elem_of_seq. lia. }
  rewrite Hfilter. split; intros Hd.
  - unfold final_report.
    destruct (0 <? length (deltas_for i cs))%nat eqn:Hlen; [reflexivity|].
    apply Nat.ltb_ge in Hlen. destruct (deltas_for i cs); [congruence|].
    simpl in Hlen. lia.
  - apply final_report_empty, Hd.
Qed.

Lemma final_callbacks_witness :
  let run := Scenario.run {| chunks := Scenario.chunks_A; ending := Done |} 3 in
  let cs := decoded Scenario.JSON_parse Scenario.chunks_A in
  let finals i :=
    filter (fun p => isComplete p = true /\ p_index p = i) (callbacks run) in
  result run = Return (map (fun i => deltas_for i cs) (seq 0 3)) /\
  forall i, (i < 3)%nat ->
    (deltas_for i cs <> [] ->
     finals i =
     [ {| p_index := i;
          p_content := deltas_for i cs;
          isComplete := true;
          tokenRate := rate (applied_length 3 cs)
                            (Scenario.Date_now (1 + applied_count 3 cs)%nat)
                            (Scenario.Date_now 0%nat);
          totalTokens := applied_length 3 cs |} ]) /\
    (deltas_for i cs = [] -> finals i = []).
Proof.
  apply (final_callbacks Scenario.Date_now Scenario.JSON_parse
           (Scenario.serve {| chunks := Scenario.chunks_A; ending := Done |})
           Scenario.authConfig (replicate 3 (lit "prompt")) 3 800
           {| ok := true; status := 200; statusText := lit "OK"; text := [];
              body := Some {| chunks := Scenario.chunks_A; ending := Done |} |}
           Scenario.chunks_A); reflexivity.
Defined.

(** Scenario A: the deltas [(0,"ab")], [(1,"cd")], [(0,"c")] for three streams
    give the buffers ["abc"], ["cd"] and [""], a final call for index 0 and
    for index 1, and none for index 2. Five characters in 1.6 s: 3 per
    second. *)
Example scenario_A :
  let run := Scenario.run {| chunks := Scenario.chunks_A; ending := Done |} 3 in
  result run = Return [lit "abc"; lit "cd"; []] /\
  filter (fun p => isComplete p = true) (callbacks run) =
  [ {| p_index := 0; p_content := lit "abc"; isComplete := true;
       tokenRate := of_Z 3; totalTokens := 5 |};
    {| p_index := 1; p_content := lit "cd"; isComplete := true;
       tokenRate := of_Z 3; totalTokens := 5 |} ].
Proof. vm_compute. split; reflexivity. Qed.

(** ** The token metrics *)

Section Metrics.

Variable Date_now : nat -> Z.
Variable count : nat.

Lemma applied_count_snoc before c :
  accepted count c = true ->
  applied_count count (before ++ [c]) = (1 + applied_count count before)%nat.
Proof.
  intros H. rewrite applied_count_app, applied_count_single, H. lia.
Qed.

(** The call number [j] of the read loop is the one of the applied pair that
    has [j] applied pairs before it. *)
Lemma reports_from_lookup rest : forall before j p,
  reports_from Date_now count before rest !! j = Some p ->
  exists b c r, rest = b ++ c :: r /\ accepted count c = true /\
                applied_count count b = j /\
                p = report_after Date_now count (before ++ b) c.
Proof.
  induction rest as [|c rest IH]; intros before j p Hp; cbn [reports_from] in Hp.
  - rewrite lookup_nil in Hp. discriminate.
  - destruct (accepted count c) eqn:Hacc; cbn [app] in Hp.
    + destruct j as [|j].
      * cbn in Hp. injection Hp as <-.
        exists [], c, rest. rewrite app_nil_r. auto.
      * cbn in Hp. apply IH in Hp as (b & c' & r & -> & Hacc' & Hn & ->).
        exists (c :: b), c', r. rewrite <- app_assoc.
        split; [reflexivity|]. split; [exact Hacc'|]. split; [|reflexivity].
        change (c :: b) with ([c] ++ b).
        rewrite applied_count_app, applied_count_single, Hacc, Hn. reflexivity.
    + apply IH in Hp as (b & c' & r & -> & Hacc' & Hn & ->).
      exists (c :: b), c', r. rewrite <- app_assoc.
      split; [reflexivity|]. split; [exact Hacc'|]. split; [|reflexivity].
      change (c :: b) with ([c] ++ b).
      rewrite applied_count_app, applied_count_single, Hacc, Hn. reflexivity.
Qed.

(** What the call number [j] of a run reports: the characters of the deltas
    applied up to the pair that made the call, or of all of them for a final
    call, and the rate at the reading of the clock that the call has made. *)
Lemma callbacks_metrics cs j p :
  (stream_reports Date_now count cs ++ final_reports Date_now count cs) !! j
    = Some p ->
  exists seen,
    seen `prefix_of` cs /\
    (if isComplete p
     then seen = cs
     else exists before c,
            seen = before ++ [c] /\ accepted count c = true /\
            applied_count count before = j) /\
    totalTokens p = applied_length count seen /\
    tokenRate p =
      rate (totalTokens p)
           (Date_now (if isComplete p then 1 + applied_count count cs
                      else 1 + j)%nat)
           (Date_now 0).
Proof.
  intros Hp. apply lookup_app_Some in Hp as [Hp|[_ Hp]].
  - apply reports_from_lookup in Hp as (b & c & r & -> & Hacc & Hn & ->).
    cbn [app report_after isComplete totalTokens tokenRate].
    exists (b ++ [c]). split; [|split; [|split]].
    + exists r. rewrite <- app_assoc. reflexivity.
    + exists b, c. auto.
    + reflexivity.
    + rewrite Hn. reflexivity.
  - apply list_elem_of_lookup_2 in Hp. unfold final_reports in Hp.
    apply elem_of_concat_map in Hp as (i & _ & Hp).
    unfold final_report in Hp.
    destruct (0 <? length (deltas_for i cs))%nat;
      [|apply elem_of_nil in Hp; contradiction].
    apply list_elem_of_singleton in Hp. subst p.
    cbn [final_call isComplete totalTokens tokenRate].
    exists cs. split; [|split; [|split]]; reflexivity.
Qed.

End Metrics.

(** C9. The progress call number [j] of a run, counted from 0, reports as
    total the number of characters of the deltas applied so far, over all
    indices: those of the pairs up to the one that made the call, which has
    [j] applied pairs before it, and those of all the pairs when the call is a
    final one. It reports as rate the value the source computes from that
    total and the reading of the clock that the call has made: the reading
    number [1 + j], the reading 0 being the start time, and for a final call
    the one reading made after the loop. That rate is 0 when no time has
    elapsed (or the clock went back); when between 1 ms and 2^53 ms have
    elapsed it is [Math.round] of the binary64 quotient of the total by the
    elapsed seconds; and it is at least 0 as long as the total is below 2^53.
    [Math.round] of a finite number with a fractional part is the nearest
    integer, a tie going up. *)
Theorem token_metrics
    (Date_now : nat -> Z) (JSON_parse : jsstring -> option StreamChunk)
    (fetch : request_body -> error + response) (authConfig : AuthConfig)
    (contents : list jsstring) (count : nat) (maxTokens : Z)
    (resp : response) (stream : body_stream) :
  fetch (request authConfig contents maxTokens) = inr resp ->
  ok resp = true ->
  body resp = Some stream ->
  let run := _executeGeneration Date_now JSON_parse fetch authConfig
               contents count true maxTokens in
  let cs := decoded JSON_parse (chunks stream) in
  (forall j p, callbacks run !! j = Some p ->
     exists seen,
       seen `prefix_of` cs /\
       (if isComplete p
        then seen = cs
        else exists before c,
               seen = before ++ [c] /\ accepted count c = true /\
               applied_count count before = j) /\
       totalTokens p = applied_length count seen /\
       let k := (if isComplete p then 1 + applied_count count cs
                 else 1 + j)%nat in
       tokenRate p = rate (totalTokens p) (Date_now k) (Date_now 0%nat) /\
       let elapsed := Date_now k - Date_now 0%nat in
       (elapsed <= 0 -> tokenRate p = zero) /\
       (0 < elapsed < 2 ^ 53 ->
        tokenRate p =
        Math_round (div (of_Z (totalTokens p))
                        (div (of_Z elapsed) (of_Z 1000)))) /\
       (totalTokens p < 2 ^ 53 -> ge (tokenRate p) zero = true)) /\
  (forall s m k,
     let n := round_int s m (Zneg k) in
     Math_round (S754_finite s m (Zneg k))
       = (if n =? 0 then S754_zero s else of_Z n) /\
     (2 * n - 1) * 2 ^ Zpos k <= 2 * cond_Zopp s (Zpos m)
       < (2 * n + 1) * 2 ^ Zpos k).
Proof.
  intros Hf Hok Hb run cs. split.
  - intros j p Hp. unfold run in Hp.
    rewrite (run_streamed _ _ _ _ _ _ _ _ _ Hf Hok Hb) in Hp.
    cbn [callbacks] in Hp. fold cs in Hp.
    assert (Hp' : (stream_reports Date_now count cs ++
                   final_reports Date_now count cs) !! j = Some p).
    { destruct (ending stream); [exact Hp|].
      rewrite app_nil_r in Hp. apply lookup_app_l_Some. exact Hp. }
    destruct (callbacks_metrics _ _ _ _ _ Hp') as (seen & Hpre & Hseen & Ht & Hr).
    exists seen. split; [exact Hpre|]. split; [exact Hseen|].
    split; [exact Ht|]. cbn zeta.
    split; [exact Hr|]. rewrite Hr.
    destruct (rate_cases (totalTokens p)
                (Date_now (if isComplete p then 1 + applied_count count cs
                           else 1 + j)%nat) (Date_now 0%nat))
      as [Hz Hpos].
    split; [exact Hz|]. split; [exact Hpos|].
    intros Hlt. apply rate_nonneg. split; [|exact Hlt].
    rewrite Ht. apply applied_length_nonneg.
  - intros s m k n. split; [reflexivity|]. apply round_int_nearest.
Qed.

Lemma token_metrics_witness :
  let run := Scenario.run {| chunks := Scenario.chunks_A; ending := Done |} 3 in
  let cs := decoded Scenario.JSON_parse Scenario.chunks_A in
  (forall j p, callbacks run !! j = Some p ->
     exists seen,
       seen `prefix_of` cs /\
       (if isComplete p
        then seen = cs
        else exists before c,
               seen = before ++ [c] /\ accepted 3 c = true /\
               applied_count 3 before = j) /\
       totalTokens p = applied_length 3 seen /\
       let k := (if isComplete p then 1 + applied_count 3 cs
                 else 1 + j)%nat in
       tokenRate p =
         rate (totalTokens p) (Scenario.Date_now k) (Scenario.Date_now 0%nat) /\
       let elapsed := Scenario.Date_now k - Scenario.Date_now 0%nat in
       (elapsed <= 0 -> tokenRate p = zero) /\
       (0 < elapsed < 2 ^ 53 ->
        tokenRate p =
        Math_round (div (of_Z (totalTokens p))
                        (div (of_Z elapsed) (of_Z 1000)))) /\
       (totalTokens p < 2 ^ 53 -> ge (tokenRate p) zero = true)) /\
  (forall s m k,
     let n := round_int s m (Zneg k) in
     Math_round (S754_finite s m (Zneg k))
       = (if n =? 0 then S754_zero s else of_Z n) /\
     (2 * n - 1) * 2 ^ Zpos k <= 2 * cond_Zopp s (Zpos m)
       < (2 * n + 1) * 2 ^ Zpos k).
Proof.
  apply (token_metrics Scenario.Date_now Scenario.JSON_parse
           (Scenario.serve {| chunks := Scenario.chunks_A; ending := Done |})
           Scenario.authConfig (replicate 3 (lit "prompt")) 3 800
           {| ok := true; status := 200; statusText := lit "OK"; text := [];
              body := Some {| chunks := Scenario.chunks_A; ending := Done |} |}
           {| chunks := Scenario.chunks_A; ending := Done |}); reflexivity.
Defined.

(** The calls of scenario A, in order: total and rate after 400, 800 and
    1200 ms, then the two final calls at 1600 ms. The rate 2 / 0.4 is 5,
    4 / 0.8 is 5, 5 / 1.2 rounds to 4, and 5 / 1.6 rounds to 3. *)
Example scenario_A_metrics :
  map (fun p => (totalTokens p, tokenRate p))
      (callbacks (Scenario.run {| chunks := Scenario.chunks_A; ending := Done |} 3))
  = [(2, of_Z 5); (4, of_Z 5); (5, of_Z 4); (5, of_Z 3); (5, of_Z 3)].
Proof. vm_compute. reflexivity. Qed.

(** A tie goes up: one character in two seconds is a rate of 1, and five in
    two seconds a rate of 3. *)
Example rate_tie :
  rate 1 2000 0 = of_Z 1 /\ rate 5 2000 0 = of_Z 3 /\ rate 7 0 0 = zero.
Proof. vm_compute. repeat split; reflexivity. Qed.

(** ** The request *)

Section Request.

Variable Date_now : nat -> Z.
Variable JSON_parse : jsstring -> option StreamChunk.
Variable fetch : request_body -> error + response.
Variable authConfig : AuthConfig.
Variable promptPrefix : jsstring.

Lemma final_steps_results onProgress st r l : forall acc,
  length (fst (foldl (final_step onProgress st r) acc l)) =
  (length (fst acc) + length l)%nat.
Proof.
  induction l as [|i l IH]; intros [results called]; cbn [foldl].
  - simpl. lia.
  - rewrite IH. unfold final_step. cbn [fst].
    rewrite length_app. simpl. lia.
Qed.

Lemma executeGeneration_sent contents count onProgress maxTokens :
  sent (_executeGeneration Date_now JSON_parse fetch authConfig
          contents count onProgress maxTokens)
  = request authConfig contents maxTokens.
Proof.
  unfold _executeGeneration.
  destruct (fetch _) as [e|resp]; [reflexivity|].
  destruct (negb (ok resp)); [reflexivity|].
  destruct (body resp) as [stream|]; [|reflexivity].
  destruct (foldl _ _ (chunks stream)) as [st partial].
  destruct (ending stream); [|reflexivity].
  destruct (finish _ _ _ _ st). reflexivity.
Qed.

Lemma executeGeneration_results contents count onProgress maxTokens :
  match result (_executeGeneration Date_now JSON_parse fetch authConfig
                  contents count onProgress maxTokens) with
  | Return results => length results = count
  | Throw _ => True
  end.
Proof.
  unfold _executeGeneration.
  destruct (fetch _) as [e|resp]; [exact I|].
  destruct (negb (ok resp)); [exact I|].
  destruct (body resp) as [stream|]; [|exact I].
  destruct (foldl _ _ (chunks stream)) as [st partial].
  destruct (ending stream); [|exact I].
  pose proof (final_steps_results onProgress st
                (rate (totalTokenCount st) (Date_now (ticks st)) (Date_now 0))
                (seq 0 count) ([], calls st)) as Hlen.
  unfold finish.
  destruct (foldl _ ([], calls st) (seq 0 count)) as [results called].
  cbn [fst result] in *. rewrite length_seq in Hlen. simpl in Hlen. exact Hlen.
Qed.

End Request.

(** C10. When [generateMultipleResponses] is given an array of prompts, the
    [contents] of the request it sends is that array as it is, the run is that
    of [_executeGeneration] for as many streams as the array has prompts,
    whatever [count] is, and so a run that returns has one result per prompt.
    The [User: ... Assistant: <think>] wrapper is what a single string is
    turned into, [count] times. *)
Theorem continuation_prompts_verbatim
    (Date_now : nat -> Z) (JSON_parse : jsstring -> option StreamChunk)
    (fetch : request_body -> error + response) (authConfig : AuthConfig)
    (promptPrefix : jsstring)
    (prompts : list jsstring) (count : nat) (onProgress : bool)
    (maxTokens : option Z) :
  let generate message :=
    generateMultipleResponses Date_now JSON_parse fetch authConfig promptPrefix
      message count onProgress maxTokens in
  contents (sent (generate (Multiple prompts))) = prompts /\
  generate (Multiple prompts) =
    _executeGeneration Date_now JSON_parse fetch authConfig
      prompts (length prompts) onProgress (default 4000 maxTokens) /\
  match result (generate (Multiple prompts)) with
  | Return results => length results = length prompts
  | Throw _ => True
  end /\
  forall s,
    contents (sent (generate (Single s))) =
    replicate count
      (lit "User: " ++ promptPrefix ++ [newline] ++ s ++ [newline; newline] ++
       lit "Assistant: <think>" ++ [newline] ++ lit "</think>").
Proof.
  intros generate. unfold generate, generateMultipleResponses.
  split; [|split; [|split]].
  - rewrite executeGeneration_sent. reflexivity.
  - reflexivity.
  - apply executeGeneration_results.
  - intros s. rewrite executeGeneration_sent. reflexivity.
Qed.

(** A continuation of two prompts asked with [count = 8]: two prompts are
    sent, as they are, and two results come back. *)
Example continuation_of_two :
  let run :=
    generateMultipleResponses Scenario.Date_now Scenario.JSON_parse
      (Scenario.serve {| chunks := Scenario.chunks_A; ending := Done |})
      Scenario.authConfig (lit "Continue the story.")
      (Multiple [lit "foo"; lit "bar"]) 8 true None in
  contents (sent run) = [lit "foo"; lit "bar"] /\
  max_tokens (sent run) = 4000 /\
  result run = Return [lit "abc"; lit "cd"].
Proof. vm_compute. repeat split; reflexivity. Qed.

(** * The update scheduler *)

Import ChatPage.

Section Flush.

Lemma apply_updates_lookup updates prev i :
  apply_updates updates prev !! i =
  (fun result => match updates !! i with
                 | Some c => updated result c
                 | None => result
                 end) <$> prev !! i.
Proof. unfold apply_updates. apply list_lookup_imap. Qed.

Lemma apply_updates_lookup_Some updates prev i c r :
  updates !! i = Some c -> prev !! i = Some r ->
  apply_updates updates prev !! i = Some (updated r c).
Proof.
  intros Hu Hr. rewrite apply_updates_lookup, Hr. cbn. rewrite Hu. reflexivity.
Qed.

Lemma apply_updates_lookup_None updates prev i :
  updates !! i = None -> apply_updates updates prev !! i = prev !! i.
Proof.
  intros Hu. rewrite apply_updates_lookup.
  destruct (prev !! i); cbn; [rewrite Hu|]; reflexivity.
Qed.

Lemma apply_updates_length updates prev :
  length (apply_updates updates prev) = length prev.
Proof. apply length_imap. Qed.

Lemma apply_updates_empty prev : apply_updates ∅ prev = prev.
Proof.
  apply list_eq. intros i. rewrite apply_updates_lookup, lookup_empty.
  destruct (prev !! i); reflexivity.
Qed.

(** Applying the same updates again changes nothing. *)
Lemma apply_updates_idempotent updates prev :
  apply_updates updates (apply_updates updates prev) =
  apply_updates updates prev.
Proof.
  apply list_eq. intros i. rewrite !apply_updates_lookup.
  destruct (prev !! i) as [r|]; [|reflexivity]. cbn.
  destruct (updates !! i); reflexivity.
Qed.

Lemma size_positive (m : gmap nat jsstring) :
  (0 <? size m)%nat = false -> m = ∅.
Proof.
  intros H. apply Nat.ltb_ge in H. apply map_size_empty_iff. lia.
Qed.

Lemma size_insert_positive (m : gmap nat jsstring) i c :
  (0 <? size (<[i:=c]> m))%nat = true.
Proof.
  apply Nat.ltb_lt. rewrite map_size_insert.
  destruct (m !! i) eqn:E; [|simpl; lia].
  assert (m <> ∅) by (intros ->; rewrite lookup_empty in E; discriminate).
  assert (size m <> 0%nat) by (rewrite map_size_empty_iff; assumption).
  simpl. lia.
Qed.

Lemma flushUpdates_updateBuffer s :
  updateBuffer (flushUpdates s) = updateBuffer s.
Proof. unfold flushUpdates. destruct (0 <? _)%nat; reflexivity. Qed.

Lemma flushUpdates_updateTimeoutRef s :
  updateTimeoutRef (flushUpdates s) = updateTimeoutRef s.
Proof. unfold flushUpdates. destruct (0 <? _)%nat; reflexivity. Qed.

Lemma flushUpdates_now s : now (flushUpdates s) = now s.
Proof. unfold flushUpdates. destruct (0 <? _)%nat; reflexivity. Qed.

(** The results after a flush, whether or not the pending map is empty. *)
Lemma flushUpdates_results s :
  results (flushUpdates s) = apply_updates (updateBuffer s) (results s).
Proof.
  unfold flushUpdates. destruct (0 <? _)%nat eqn:E; [reflexivity|].
  rewrite (size_positive _ E), apply_updates_empty. reflexivity.
Qed.

Lemma flushUpdates_chatPageResults s :
  chatPageResults (flushUpdates s) =
  if (0 <? size (updateBuffer s))%nat
  then Some (apply_updates (updateBuffer s) (results s))
  else chatPageResults s.
Proof. unfold flushUpdates. destruct (0 <? _)%nat; reflexivity. Qed.

Lemma flushUpdates_flushes s :
  flushes (flushUpdates s) =
  flushes s ++
  (if (0 <? size (updateBuffer s))%nat then [(now s, updateBuffer s)] else []).
Proof.
  unfold flushUpdates. destruct (0 <? _)%nat; [reflexivity|].
  rewrite app_nil_r. reflexivity.
Qed.

Lemma updateSessionStorage_updateBuffer s :
  updateBuffer (updateSessionStorage s) = updateBuffer s.
Proof.
  unfold updateSessionStorage. destruct (chatPageResults s); [|reflexivity].
  destruct (existsb _ _); reflexivity.
Qed.

Lemma updateSessionStorage_results s :
  results (updateSessionStorage s) = results s.
Proof.
  unfold updateSessionStorage. destruct (chatPageResults s); [|reflexivity].
  destruct (existsb _ _); reflexivity.
Qed.

Lemma updateSessionStorage_updateTimeoutRef s :
  updateTimeoutRef (updateSessionStorage s) = updateTimeoutRef s.
Proof.
  unfold updateSessionStorage. destruct (chatPageResults s); [|reflexivity].
  destruct (existsb _ _); reflexivity.
Qed.

Lemma updateSessionStorage_flushes s :
  flushes (updateSessionStorage s) = flushes s.
Proof.
  unfold updateSessionStorage. destruct (chatPageResults s); [|reflexivity].
  destruct (existsb _ _); reflexivity.
Qed.

(** A snapshot that already has the pending updates is saved as it is. *)
Lemma updateSessionStorage_saved s saved :
  chatPageResults s = Some (apply_updates (updateBuffer s) saved) ->
  chatPageResults (updateSessionStorage s) = chatPageResults s.
Proof.
  intros H. unfold updateSessionStorage. rewrite H.
  destruct (existsb _ _); [|exact H]. cbn.
  rewrite apply_updates_idempotent. reflexivity.
Qed.

End Flush.

(** C7. [flushUpdates] leaves the pending map as it is, and a second flush
    with no update in between leaves the results and the saved snapshot as the
    first flush left them. *)
Theorem flush_idempotent (s : page) :
  updateBuffer (flushUpdates s) = updateBuffer s /\
  results (flushUpdates (flushUpdates s)) = results (flushUpdates s) /\
  chatPageResults (flushUpdates (flushUpdates s)) =
    chatPageResults (flushUpdates s).
Proof.
  split; [apply flushUpdates_updateBuffer|]. split.
  - rewrite !flushUpdates_results, flushUpdates_updateBuffer.
    apply apply_updates_idempotent.
  - rewrite (flushUpdates_chatPageResults (flushUpdates s)).
    rewrite flushUpdates_updateBuffer, flushUpdates_results.
    rewrite apply_updates_idempotent, flushUpdates_chatPageResults.
    destruct (0 <? size (updateBuffer s))%nat; reflexivity.
Qed.

(** ** Immediate and throttled updates *)

Section Schedule.

Lemma record_update_updateBuffer p c s :
  updateBuffer (record_update p c s) = <[p_index p := c]> (updateBuffer s).
Proof. unfold record_update. destruct (AIService.isComplete p); reflexivity. Qed.

Lemma record_update_results p c s :
  results (record_update p c s) = results s.
Proof. unfold record_update. destruct (AIService.isComplete p); reflexivity. Qed.

Lemma record_update_chatPageResults p c s :
  chatPageResults (record_update p c s) = chatPageResults s.
Proof. unfold record_update. destruct (AIService.isComplete p); reflexivity. Qed.

Lemma record_update_flushes p c s :
  flushes (record_update p c s) = flushes s.
Proof. unfold record_update. destruct (AIService.isComplete p); reflexivity. Qed.

Lemma record_update_now p c s : now (record_update p c s) = now s.
Proof. unfold record_update. destruct (AIService.isComplete p); reflexivity. Qed.

Lemma run_callback_updateBuffer f s :
  updateBuffer (run_callback f s) = updateBuffer s.
Proof.
  destruct f; cbn [run_callback];
    rewrite ?updateSessionStorage_updateBuffer; apply flushUpdates_updateBuffer.
Qed.

Lemma run_callback_results f s :
  results (run_callback f s) = apply_updates (updateBuffer s) (results s).
Proof.
  destruct f; cbn [run_callback];
    rewrite ?updateSessionStorage_results; apply flushUpdates_results.
Qed.

Lemma run_callback_updateTimeoutRef f s :
  updateTimeoutRef (run_callback f s) = updateTimeoutRef s.
Proof.
  destruct f; cbn [run_callback];
    rewrite ?updateSessionStorage_updateTimeoutRef;
    apply flushUpdates_updateTimeoutRef.
Qed.

Lemma run_callback_flushes f s :
  flushes (run_callback f s) =
  flushes s ++
  (if (0 <? size (updateBuffer s))%nat then [(now s, updateBuffer s)] else []).
Proof.
  destruct f; cbn [run_callback];
    rewrite ?updateSessionStorage_flushes; apply flushUpdates_flushes.
Qed.

(** When the pending map is not empty, a flush saves the new results, and
    [updateSessionStorage] has nothing to add. *)
Lemma run_callback_chatPageResults f s :
  (0 <? size (updateBuffer s))%nat = true ->
  chatPageResults (run_callback f s) =
  Some (apply_updates (updateBuffer s) (results s)).
Proof.
  intros Hsize.
  assert (Hflush : chatPageResults (flushUpdates s) =
                   Some (apply_updates (updateBuffer s) (results s))).
  { rewrite flushUpdates_chatPageResults, Hsize. reflexivity. }
  destruct f; cbn [run_callback]; [|exact Hflush].
  rewrite (updateSessionStorage_saved _ (results s)); [exact Hflush|].
  rewrite flushUpdates_updateBuffer. exact Hflush.
Qed.

End Schedule.

Section Throttle.

(** What one progress call of [handleGenerate] does. *)
Lemma onProgress_decision s p :
  let s' := onProgress s p in
  let pending := <[p_index p := p_content p]> (updateBuffer s) in
  updateBuffer s' = pending /\
  if (100 <? length (p_content p))%nat || AIService.isComplete p
  then updateTimeoutRef s' = None /\
       flushes s' = flushes s ++ [(now s, pending)] /\
       results s' = apply_updates pending (results s) /\
       chatPageResults s' = Some (apply_updates pending (results s))
  else updateTimeoutRef s' = Some (now s + 300, FlushAndStore) /\
       flushes s' = flushes s /\
       results s' = results s /\
       chatPageResults s' = chatPageResults s.
Proof.
  intros s' pending. unfold s', onProgress, schedule.
  set (s1 := record_update p (p_content p) s).
  assert (Hb : updateBuffer s1 = pending) by apply record_update_updateBuffer.
  assert (Hsize : (0 <? size (updateBuffer (clearTimeout s1)))%nat = true).
  { cbn. rewrite Hb. apply size_insert_positive. }
  destruct ((100 <? length (p_content p))%nat || AIService.isComplete p).
  - rewrite run_callback_updateBuffer, run_callback_updateTimeoutRef,
      run_callback_flushes, run_callback_results,
      (run_callback_chatPageResults _ _ Hsize), Hsize.
    cbn [clearTimeout set_updateTimeoutRef updateBuffer updateTimeoutRef
           flushes results now].
    rewrite Hb. unfold s1.
    rewrite record_update_flushes, record_update_results, record_update_now.
    auto.
  - cbn [setTimeout clearTimeout set_updateTimeoutRef updateBuffer
           updateTimeoutRef flushes results chatPageResults now].
    rewrite Hb. unfold s1.
    rewrite record_update_flushes, record_update_results,
      record_update_chatPageResults, record_update_now.
    auto.
Qed.

Lemma run_timers_idle t s :
  updateTimeoutRef s = None -> run_timers t s = s.
Proof. intros H. unfold run_timers. rewrite H. reflexivity. Qed.

Lemma run_timers_early t s deadline f :
  updateTimeoutRef s = Some (deadline, f) -> t < deadline ->
  run_timers t s = s.
Proof.
  intros H Hlt. unfold run_timers. rewrite H.
  destruct (Z.leb_spec deadline t); [lia | reflexivity].
Qed.

Lemma run_timers_due t s deadline f :
  updateTimeoutRef s = Some (deadline, f) -> deadline <= t ->
  run_timers t s = run_callback f (clearTimeout (set_now deadline s)).
Proof.
  intros H Hle. unfold run_timers. rewrite H.
  destruct (Z.leb_spec deadline t); [reflexivity | lia].
Qed.

(** With no timeout pending, waiting changes nothing. *)
Lemma waits_idle cb waits : forall s,
  updateTimeoutRef s = None ->
  results (run cb s (map (fun T => (T, Wait)) waits)) = results s /\
  flushes (run cb s (map (fun T => (T, Wait)) waits)) = flushes s /\
  chatPageResults (run cb s (map (fun T => (T, Wait)) waits)) = chatPageResults s /\
  updateBuffer (run cb s (map (fun T => (T, Wait)) waits)) = updateBuffer s /\
  updateTimeoutRef (run cb s (map (fun T => (T, Wait)) waits)) = None.
Proof.
  induction waits as [|T waits IH]; intros s Hs; [auto|].
  unfold run in *. cbn [map foldl step].
  rewrite (run_timers_idle T s Hs).
  destruct (IH (set_now T s) Hs) as (H1 & H2 & H3 & H4 & H5). auto.
Qed.

(** A short update that is not the final one arms the timer and flushes
    nothing. *)
Lemma onProgress_short s i c r n :
  (length c <= 100)%nat ->
  let s' := onProgress s {| p_index := i; p_content := c; isComplete := false;
                            tokenRate := r; totalTokens := n |} in
  updateBuffer s' = <[i := c]> (updateBuffer s) /\
  updateTimeoutRef s' = Some (now s + 300, FlushAndStore) /\
  flushes s' = flushes s /\ now s' = now s.
Proof.
  intros Hlen s'.
  pose proof (onProgress_decision s
    {| p_index := i; p_content := c; isComplete := false;
       tokenRate := r; totalTokens := n |}) as H.
  cbn [p_index p_content AIService.isComplete] in H. fold s' in H.
  destruct (Nat.ltb_spec 100 (length c)) as [|_]; [lia|].
  cbn [orb] in H. destruct H as (Hb & Ht & Hf & _).
  repeat split; try assumption.
  unfold s', onProgress, schedule. cbn [p_content AIService.isComplete].
  destruct (Nat.ltb_spec 100 (length c)) as [|_]; [lia|]. cbn [orb].
  cbn [setTimeout clearTimeout set_updateTimeoutRef now].
  apply record_update_now.
Qed.

(** A step with a short update that is not the final one, when no timeout is
    due: nothing is flushed or shown, and the timeout that the call has set,
    300 ms from the call, is pending no more when the call has made the
    component render. *)
Lemma step_short s t i c r n :
  (length c <= 100)%nat ->
  (forall d f, updateTimeoutRef s = Some (d, f) -> t < d) ->
  let s' := step onProgress s
              (t, Progress {| p_index := i; p_content := c; isComplete := false;
                              tokenRate := r; totalTokens := n |}) in
  updateBuffer s' = <[i := c]> (updateBuffer s) /\
  (updateTimeoutRef s' = None \/
   updateTimeoutRef s' = Some (t + 300, FlushAndStore)) /\
  flushes s' = flushes s /\ results s' = results s.
Proof.
  intros Hlen Hearly s'.
  assert (Hidle : run_timers t s = s).
  { destruct (updateTimeoutRef s) as [[d f]|] eqn:E.
    - apply (run_timers_early t s d f E), (Hearly d f eq_refl).
    - apply run_timers_idle, E. }
  unfold s', step. rewrite Hidle.
  pose proof (onProgress_decision (set_now t s)
    {| p_index := i; p_content := c; isComplete := false;
       tokenRate := r; totalTokens := n |}) as H.
  cbn [p_index p_content AIService.isComplete] in H.
  destruct (Nat.ltb_spec 100 (length c)) as [|_]; [lia|].
  cbn [orb set_now now updateBuffer flushes results] in H.
  destruct H as (Hb & Ht & Hf & Hr & _).
  destruct (changes_state _ _);
    cbn [cleanup clearTimeout set_updateTimeoutRef updateBuffer
           updateTimeoutRef flushes results];
    auto.
Qed.

(** Two short updates for one index, 50 ms apart, from a page with no timeout
    pending: until 350 ms after the first update nothing is flushed or shown,
    and the second content is the pending one. *)
Lemma two_short_updates s t i c1 c2 r1 r2 n1 n2 T :
  (length c1 <= 100)%nat -> (length c2 <= 100)%nat ->
  updateTimeoutRef s = None ->
  T < t + 350 ->
  let trace :=
    [ (t, Progress {| p_index := i; p_content := c1; isComplete := false;
                      tokenRate := r1; totalTokens := n1 |});
      (t + 50, Progress {| p_index := i; p_content := c2; isComplete := false;
                           tokenRate := r2; totalTokens := n2 |});
      (T, Wait) ] in
  flushes (run onProgress s trace) = flushes s /\
  results (run onProgress s trace) = results s /\
  updateBuffer (run onProgress s trace) = <[i := c2]> (updateBuffer s).
Proof.
  intros H1 H2 Hidle HT trace. unfold trace, run. cbn [foldl].
  destruct (step_short s t i c1 r1 n1 H1) as (Hb1 & Ht1 & Hf1 & Hr1).
  { intros d f E. rewrite Hidle in E. discriminate. }
  set (s1 := step onProgress s _) in *.
  destruct (step_short s1 (t + 50) i c2 r2 n2 H2) as (Hb2 & Ht2 & Hf2 & Hr2).
  { intros d f E. destruct Ht1 as [Ht1|Ht1]; rewrite Ht1 in E;
      [discriminate | injection E as <- <-; lia]. }
  set (s2 := step onProgress s1 _) in *.
  replace (t + 50 + 300) with (t + 350) in Ht2 by lia.
  assert (Hwait : run_timers T s2 = s2).
  { destruct Ht2 as [Ht2|Ht2].
    - apply run_timers_idle, Ht2.
    - apply (run_timers_early T s2 _ _ Ht2 HT). }
  assert (Hstep : step onProgress s2 (T, Wait) = set_now T s2).
  { unfold step. rewrite Hwait. reflexivity. }
  rewrite Hstep. cbn [set_now flushes results updateBuffer].
  rewrite Hf2, Hf1, Hr2, Hr1, Hb2, Hb1, insert_insert_eq. auto.
Qed.

(** In scenario D nothing is ever flushed: each of the two updates changes
    the total that is shown, so the component renders and the timeout is
    cleared. *)
Lemma scenario_D_flushes T :
  flushes (run onProgress (start Scenario.idle) (Scenario.trace_D T)) = [].
Proof. reflexivity. Qed.

End Throttle.

(** C3, as the source has it. A progress call puts its content in the
    pending map; when the content is longer than 100 characters or the call is
    the final one, the pending timeout is cleared and all the pending updates
    are flushed at once; otherwise the timeout is cleared and set again, 300 ms
    from this call. So when two short updates for one index arrive 50 ms apart,
    from a page with no timeout pending, the timeout that the second update
    sets is due 350 ms after the first update, and until then nothing is
    flushed or shown: the second content is pending. *)
Theorem throttle_restarts :
  (forall s p,
     let s' := onProgress s p in
     let pending := <[p_index p := p_content p]> (updateBuffer s) in
     updateBuffer s' = pending /\
     if (100 <? length (p_content p))%nat || AIService.isComplete p
     then updateTimeoutRef s' = None /\
          flushes s' = flushes s ++ [(now s, pending)] /\
          results s' = apply_updates pending (results s) /\
          chatPageResults s' = Some (apply_updates pending (results s))
     else updateTimeoutRef s' = Some (now s + 300, FlushAndStore) /\
          flushes s' = flushes s /\
          results s' = results s /\
          chatPageResults s' = chatPageResults s) /\
  (forall s s1 t i c1 c2 r1 r2 n1 n2 T,
     (length c1 <= 100)%nat -> (length c2 <= 100)%nat ->
     updateTimeoutRef s = None ->
     T < t + 350 ->
     let p1 := {| p_index := i; p_content := c1; isComplete := false;
                  tokenRate := r1; totalTokens := n1 |} in
     let p2 := {| p_index := i; p_content := c2; isComplete := false;
                  tokenRate := r2; totalTokens := n2 |} in
     let s' := run onProgress s
                 [(t, Progress p1); (t + 50, Progress p2); (T, Wait)] in
     updateTimeoutRef (onProgress (set_now (t + 50) s1) p2)
       = Some (t + 350, FlushAndStore) /\
     flushes s' = flushes s /\
     results s' = results s /\
     updateBuffer s' = <[i := c2]> (updateBuffer s)).
Proof.
  split.
  - apply onProgress_decision.
  - intros s s1 t i c1 c2 r1 r2 n1 n2 T H1 H2 Hidle HT p1 p2 s'. split.
    + destruct (onProgress_short (set_now (t + 50) s1) i c2 r2 n2 H2)
        as (_ & Ht & _).
      cbn [set_now now] in Ht. fold p2 in Ht. rewrite Ht. f_equal. f_equal. lia.
    + apply two_short_updates; assumption.
Qed.

Lemma throttle_restarts_witness :
  let s' := run onProgress (start Scenario.idle) (Scenario.trace_D 300) in
  updateTimeoutRef
    (onProgress (set_now 50 Scenario.idle)
                (Scenario.partial_update 0 (lit "abcd") 4))
    = Some (350, FlushAndStore) /\
  flushes s' = [] /\
  results s' = placeholders /\
  updateBuffer s' = <[0%nat := lit "abcd"]> ∅.
Proof.
  destruct throttle_restarts as [_ H].
  apply (H (start Scenario.idle) Scenario.idle 0 0%nat (lit "ab") (lit "abcd")
           zero zero 2 4 300);
    [vm_compute; lia | vm_compute; lia | reflexivity | lia].
Defined.

(** The clean-up of the effect that runs at every render clears the timeout
    as well: with a render between a short update and its deadline, nothing is
    flushed. *)
Example render_clears_timeout :
  flushes (run onProgress (start Scenario.idle)
             [ (0, Progress (Scenario.partial_update 0 (lit "ab") 2));
               (10, Render);
               (1000, Wait) ]) = [].
Proof. vm_compute. reflexivity. Qed.

(** Scenario D as the design document has it, with one flush at the 300 ms
    mark, does not hold: at 300 ms nothing has been flushed, and however long
    one waits, no flush has the time 300. *)
Lemma no_flush_at_300_ms :
  flushes (run onProgress (start Scenario.idle) (Scenario.trace_D 300)) = [] /\
  ~ exists T updates,
      (300, updates) ∈
      flushes (run onProgress (start Scenario.idle) (Scenario.trace_D T)).
Proof.
  split; [reflexivity|].
  intros (T & updates & H). rewrite scenario_D_flushes in H.
  apply elem_of_nil in H. exact H.
Qed.

(** ** The pending map over a run *)

Section Pending.

Variable cb : page -> progress -> page.
Variable recorded : progress -> jsstring.

Hypothesis cb_updateBuffer : forall s p,
  updateBuffer (cb s p) = <[p_index p := recorded p]> (updateBuffer s).
Hypothesis cb_length : forall s p,
  length (results (cb s p)) = length (results s).

Local Abbreviation record_all := (record_all recorded).

Lemma run_timers_updateBuffer t s :
  updateBuffer (run_timers t s) = updateBuffer s.
Proof.
  unfold run_timers. destruct (updateTimeoutRef s) as [[d f]|]; [|reflexivity].
  destruct (d <=? t); [|reflexivity].
  rewrite run_callback_updateBuffer. reflexivity.
Qed.

Lemma run_timers_length t s :
  length (results (run_timers t s)) = length (results s).
Proof.
  unfold run_timers. destruct (updateTimeoutRef s) as [[d f]|]; [|reflexivity].
  destruct (d <=? t); [|reflexivity].
  rewrite run_callback_results, apply_updates_length. reflexivity.
Qed.

(** Timers and renders leave the pending map alone: after a trace it holds
    what its progress calls have recorded, the later call winning. *)
Lemma run_updateBuffer trace : forall s,
  updateBuffer (run cb s trace) =
  record_all (updateBuffer s) (progress_of trace).
Proof.
  unfold run, Spec.record_all, progress_of.
  induction trace as [|[t a] trace IH]; intros s; [reflexivity|].
  cbn [foldl omap]. rewrite IH. unfold step.
  destruct a as [p| |]; cbn [snd foldl];
    try destruct (changes_state _ _);
    cbn [cleanup clearTimeout set_updateTimeoutRef updateBuffer];
    rewrite ?cb_updateBuffer; cbn [set_now updateBuffer];
    rewrite run_timers_updateBuffer; reflexivity.
Qed.

Lemma run_length trace : forall s,
  length (results (run cb s trace)) = length (results s).
Proof.
  unfold run. induction trace as [|[t a] trace IH]; intros s; [reflexivity|].
  cbn [foldl]. rewrite IH. unfold step.
  destruct a as [p| |]; try destruct (changes_state _ _);
    cbn [cleanup clearTimeout set_updateTimeoutRef results];
    rewrite ?cb_length; cbn [set_now results];
    apply run_timers_length.
Qed.

Lemma record_all_app m ps1 ps2 :
  record_all m (ps1 ++ ps2) = record_all (record_all m ps1) ps2.
Proof. apply foldl_app. Qed.

(** An index that no call names keeps its entry. *)
Lemma record_all_other m ps i :
  Forall (fun p => p_index p <> i) ps -> record_all m ps !! i = m !! i.
Proof.
  revert m. induction ps as [|p ps IH]; intros m H; [reflexivity|].
  inversion H as [|? ? Hp Hps]; subst. unfold Spec.record_all in *. cbn [foldl].
  rewrite (IH _ Hps). apply lookup_insert_ne. exact Hp.
Qed.

(** The entry of an index is what the last call for it recorded. *)
Lemma record_all_last m ps1 p ps2 :
  Forall (fun q => p_index q <> p_index p) ps2 ->
  record_all m (ps1 ++ p :: ps2) !! p_index p = Some (recorded p).
Proof.
  intros H. rewrite record_all_app. unfold Spec.record_all at 1. cbn [foldl].
  fold (record_all (<[p_index p := recorded p]> (record_all m ps1)) ps2).
  rewrite (record_all_other _ _ _ H). apply lookup_insert_eq.
Qed.

End Pending.

Section Callbacks.

Lemma schedule_updateBuffer f c b s :
  updateBuffer (schedule f c b s) = updateBuffer s.
Proof.
  unfold schedule. destruct (_ || _); [|reflexivity].
  rewrite run_callback_updateBuffer. reflexivity.
Qed.

Lemma schedule_length f c b s :
  length (results (schedule f c b s)) = length (results s).
Proof.
  unfold schedule. destruct (_ || _); [|reflexivity].
  rewrite run_callback_results, apply_updates_length. reflexivity.
Qed.

Lemma onProgress_updateBuffer s p :
  updateBuffer (onProgress s p) = <[p_index p := p_content p]> (updateBuffer s).
Proof.
  unfold onProgress. rewrite schedule_updateBuffer.
  apply record_update_updateBuffer.
Qed.

Lemma onProgress_length s p :
  length (results (onProgress s p)) = length (results s).
Proof.
  unfold onProgress. rewrite schedule_length, record_update_results.
  reflexivity.
Qed.



End Callbacks.

Section FinalPending.

Variable Date_now : nat -> Z.
Variable count : nat.

Lemma final_report_nonempty cs i :
  deltas_for i cs <> [] ->
  final_report Date_now count cs i = [final_call Date_now count cs i].
Proof.
  intros H. unfold final_report.
  destruct (deltas_for i cs); [congruence | reflexivity].
Qed.

(** The final call of an index is the last call that names it. *)
Lemma final_reports_split cs i :
  (i < count)%nat -> deltas_for i cs <> [] ->
  exists ps1 ps2,
    final_reports Date_now count cs =
      ps1 ++ final_call Date_now count cs i :: ps2 /\
    Forall (fun q => p_index q <> i) ps2.
Proof.
  intros Hi Hd. unfold final_reports.
  assert (Hseq : seq 0 count = seq 0 i ++ i :: seq (S i) (count - S i)).
  { replace count with (i + S (count - S i))%nat at 1 by lia.
    rewrite seq_app. reflexivity. }
  rewrite Hseq, map_app, concat_app. cbn [map concat].
  rewrite (final_report_nonempty _ _ Hd). cbn [app].
  eexists _, _. split; [reflexivity|].
  apply Forall_forall. intros q Hq.
  apply elem_of_concat_map in Hq as (j & Hj & Hq).
  apply elem_of_seq in Hj. apply final_report_elem in Hq.
  destruct Hq as (_ & Hq & _). lia.
Qed.



End FinalPending.



(** Scenario C: the contexts ["foo"] and ["bar"], continued with the deltas of
    scenario A, end as ["foo\n\nabc"] and ["bar\n\ncd"], shown and saved. *)
Example scenario_C :
  let finished :=
    final_save
      (completed FlushOnly
         (run (onContinueProgress [lit "foo"; lit "bar"]) Scenario.page_C
              (Scenario.tasks (callbacks Scenario.continuation_C)))) in
  map content (results finished) =
    [lit "foo" ++ [newline; newline] ++ lit "abc";
     lit "bar" ++ [newline; newline] ++ lit "cd"] /\
  chatPageResults finished = Some (results finished) /\
  contents (sent Scenario.continuation_C) = [lit "foo"; lit "bar"].
Proof. vm_compute. repeat split; reflexivity. Qed.

(** ** Stopping and failing *)

Section Ending.

Lemma loaded_loaded r : loaded (loaded r) = loaded r.
Proof. reflexivity. Qed.

Lemma loaded_updated r c : loaded (updated r c) = updated r c.
Proof. reflexivity. Qed.

Lemma Forall_loaded rs : Forall (fun r => isLoading r = false) (map loaded rs).
Proof. apply Forall_forall. intros r Hr. apply list_elem_of_fmap in Hr as (r' & -> & _). reflexivity. Qed.

Lemma map_loaded_id rs :
  Forall (fun r => isLoading r = false) rs -> map loaded rs = rs.
Proof.
  induction 1 as [|r rs Hr _ IH]; [reflexivity|]. cbn [map]. rewrite IH.
  f_equal. destruct r as [i c l]. cbn in Hr. subst l. reflexivity.
Qed.

Lemma handleStopGenerate_results s :
  results (handleStopGenerate s) = imap (stopped_result (updateBuffer s)) (results s).
Proof.
  unfold handleStopGenerate.
  cbn [set_isGenerating set_chatPageResults set_results results clearTimeout
         set_updateTimeoutRef updateBuffer].
  destruct (0 <? size (updateBuffer s))%nat eqn:E; [reflexivity|].
  rewrite (size_positive _ E). apply list_eq. intros i.
  rewrite list_lookup_fmap, list_lookup_imap.
  destruct (results s !! i); [|reflexivity]. cbn.
  unfold stopped_result. rewrite lookup_empty. reflexivity.
Qed.

Lemma handleStopGenerate_chatPageResults s :
  chatPageResults (handleStopGenerate s) = Some (results (handleStopGenerate s)).
Proof.
  unfold handleStopGenerate.
  destruct (0 <? size (updateBuffer (clearTimeout s)))%nat; reflexivity.
Qed.

Lemma handleStopGenerate_loaded s :
  Forall (fun r => isLoading r = false) (results (handleStopGenerate s)).
Proof.
  rewrite handleStopGenerate_results. apply Forall_forall. intros r Hr.
  apply elem_of_lookup_imap_1 in Hr as (i & r' & -> & _).
  unfold stopped_result. destruct (updateBuffer s !! i); reflexivity.
Qed.

Lemma failed_results s : results (failed s) = map loaded (results s).
Proof. reflexivity. Qed.

Lemma map_content_loaded rs : map content (map loaded rs) = map content rs.
Proof. rewrite map_map. reflexivity. Qed.

(** The last call that names an index, in a list of calls. *)
Lemma last_call_split (ps : list progress) i p :
  last (filter (fun q => p_index q = i) ps) = Some p ->
  p_index p = i /\
  exists ps1 ps2, ps = ps1 ++ p :: ps2 /\ Forall (fun q => p_index q <> i) ps2.
Proof.
  intros H. split.
  - apply last_Some_elem_of, list_elem_of_filter in H. tauto.
  - apply last_filter_Some in H. exact H.
Qed.

End Ending.

Section Saved.

(** During a run of [handleGenerate], the saved snapshot, when there is one,
    is the results as they are shown. *)
Lemma run_callback_saved f s :
  chatPageResults s = None \/ chatPageResults s = Some (results s) ->
  chatPageResults (run_callback f s) = None \/
  chatPageResults (run_callback f s) = Some (results (run_callback f s)).
Proof.
  intros H. destruct (0 <? size (updateBuffer s))%nat eqn:E.
  - right. rewrite (run_callback_chatPageResults f s E), run_callback_results.
    reflexivity.
  - apply size_positive in E.
    assert (Hflush : flushUpdates s = s).
    { unfold flushUpdates. rewrite E. reflexivity. }
    destruct f; cbn [run_callback]; rewrite Hflush; [|exact H].
    unfold updateSessionStorage.
    destruct (chatPageResults s) as [saved|] eqn:Hs; [|left; exact Hs].
    destruct H as [H|H]; [discriminate|]. injection H as ->.
    rewrite E, apply_updates_empty.
    destruct (existsb _ _); right; cbn; rewrite ?Hs; reflexivity.
Qed.

Lemma onProgress_saved s p :
  chatPageResults s = None \/ chatPageResults s = Some (results s) ->
  chatPageResults (onProgress s p) = None \/
  chatPageResults (onProgress s p) = Some (results (onProgress s p)).
Proof.
  intros H. unfold onProgress, schedule.
  set (s1 := record_update p (p_content p) s).
  assert (H1 : chatPageResults s1 = None \/ chatPageResults s1 = Some (results s1)).
  { unfold s1. rewrite record_update_chatPageResults, record_update_results.
    exact H. }
  destruct (_ || _); [|exact H1].
  apply run_callback_saved. exact H1.
Qed.

Lemma run_saved trace : forall s,
  chatPageResults s = None \/ chatPageResults s = Some (results s) ->
  chatPageResults (run onProgress s trace) = None \/
  chatPageResults (run onProgress s trace)
    = Some (results (run onProgress s trace)).
Proof.
  unfold run. induction trace as [|[t a] trace IH]; intros s H; [exact H|].
  cbn [foldl]. apply IH. unfold step.
  assert (Ht : chatPageResults (set_now t (run_timers t s)) = None \/
               chatPageResults (set_now t (run_timers t s))
                 = Some (results (set_now t (run_timers t s)))).
  { cbn [set_now chatPageResults results]. unfold run_timers.
    destruct (updateTimeoutRef s) as [[d f]|]; [|exact H].
    destruct (d <=? t); [|exact H].
    apply run_callback_saved. exact H. }
  destruct a as [p| |];
    [destruct (changes_state _ _);
     cbn [cleanup clearTimeout set_updateTimeoutRef chatPageResults results];
     apply onProgress_saved | |];
    exact Ht.
Qed.

End Saved.

(** A run that is stopped: [handleStopGenerate], then the [catch] that
    the abort leads to, leave no result loading, show for every index the
    pending content if it has one and its own content otherwise, and save
    exactly that; no timeout is left. So the content of the last progress
    call of an index, which is all the text the index has received, is what
    the stopped run shows and saves for it. *)
Lemma stopped_keeps_content :
  (forall s,
     let stopped := failed (handleStopGenerate s) in
     Forall (fun r => isLoading r = false) (results stopped) /\
     chatPageResults stopped = Some (results stopped) /\
     updateTimeoutRef stopped = None /\
     isGenerating stopped = false /\
     forall i r,
       results s !! i = Some r ->
       content <$> results stopped !! i =
       Some (default (content r) (updateBuffer s !! i)))
  /\
  (forall s0 trace i p,
     last (filter (fun q => p_index q = i) (progress_of trace)) = Some p ->
     (i < totalCount)%nat ->
     let stopped :=
       failed (handleStopGenerate (run onProgress (start s0) trace)) in
     content <$> results stopped !! i = Some (p_content p) /\
     exists saved,
       chatPageResults stopped = Some saved /\
       content <$> saved !! i = Some (p_content p)).
Proof.
  split.
  - intros s stopped.
    assert (Hres : results stopped = results (handleStopGenerate s)).
    { unfold stopped. rewrite failed_results.
      apply map_loaded_id, handleStopGenerate_loaded. }
    split; [rewrite Hres; apply handleStopGenerate_loaded|].
    split; [rewrite Hres; apply handleStopGenerate_chatPageResults|].
    split; [reflexivity|]. split; [reflexivity|].
    intros i r Hr. rewrite Hres, handleStopGenerate_results, list_lookup_imap, Hr.
    cbn. unfold stopped_result. destruct (updateBuffer s !! i); reflexivity.
  - intros s0 trace i p Hlast Hi stopped.
    set (s := run onProgress (start s0) trace) in *.
    destruct (last_call_split _ _ _ Hlast) as (Hp & ps1 & ps2 & Hps & Hps2).
    assert (Hbuf : updateBuffer s !! i = Some (p_content p)).
    { unfold s. rewrite (run_updateBuffer onProgress p_content onProgress_updateBuffer).
      rewrite Hps, <- Hp. apply record_all_last. rewrite Hp. exact Hps2. }
    assert (Hlen : length (results s) = totalCount).
    { unfold s. rewrite (run_length onProgress onProgress_length). reflexivity. }
    destruct (results s !! i) as [r|] eqn:Hr;
      [|apply lookup_ge_None in Hr; lia].
    assert (Hres : results stopped = results (handleStopGenerate s)).
    { unfold stopped. rewrite failed_results.
      apply map_loaded_id, handleStopGenerate_loaded. }
    assert (Hshown : content <$> results stopped !! i = Some (p_content p)).
    { rewrite Hres, handleStopGenerate_results, list_lookup_imap, Hr. cbn.
      unfold stopped_result. rewrite Hbuf. reflexivity. }
    split; [exact Hshown|].
    exists (results stopped). split; [|exact Hshown].
    rewrite Hres. apply handleStopGenerate_chatPageResults.
Qed.

(** A stopped run: the two short updates were still pending, and the stop
    shows and saves them; no result is loading. *)
Example stopped_run :
  let stopped :=
    failed (handleStopGenerate
              (run onProgress (start Scenario.idle) Scenario.trace_short)) in
  map (fun r => (content r, isLoading r)) (results stopped) =
    [(lit "ab", false); (lit "cd", false)] ++ replicate 6 ([], false) /\
  chatPageResults stopped = Some (results stopped).
Proof. vm_compute. split; reflexivity. Qed.

(** A run that fails: the [catch] leaves no result loading and changes no
    content, shown or saved, and it applies no pending update: the pending map
    is left as it is, and no timeout is left that would flush it. Once the
    effect on [results] has saved them, what is saved is what is shown. So an
    update that is pending at the failure, for an index that shows another
    content, is neither shown nor saved, however long one waits. *)
Lemma failed_leaves_pending :
  (forall s,
     let ended := failed s in
     Forall (fun r => isLoading r = false) (results ended) /\
     map content (results ended) = map content (results s) /\
     chatPageResults ended = chatPageResults s /\
     updateBuffer ended = updateBuffer s /\
     updateTimeoutRef ended = None /\
     isGenerating ended = false /\
     (results s <> [] ->
      chatPageResults (save_effect ended) = Some (results ended)))
  /\
  (forall s i c r waits,
     updateBuffer s !! i = Some c ->
     results s !! i = Some r ->
     let ended :=
       run onProgress (save_effect (failed s)) (map (fun T => (T, Wait)) waits) in
     updateBuffer ended !! i = Some c /\
     results ended !! i = Some (loaded r) /\
     chatPageResults ended = Some (results ended)).
Proof.
  split.
  - intros s ended. unfold ended.
    split; [apply Forall_loaded|].
    split; [rewrite failed_results; apply map_content_loaded|].
    split; [reflexivity|]. split; [reflexivity|]. split; [reflexivity|].
    split; [reflexivity|].
    intros Hne. unfold save_effect. rewrite failed_results, length_map.
    destruct (results s); [congruence | reflexivity].
  - intros s i c r waits Hb Hr ended.
    assert (Hne : (0 <? length (results (failed s)))%nat = true).
    { rewrite failed_results, length_map. apply Nat.ltb_lt.
      apply lookup_lt_Some in Hr. lia. }
    assert (Hsaved : save_effect (failed s) =
                     set_chatPageResults (Some (results (failed s))) (failed s)).
    { unfold save_effect. rewrite Hne. reflexivity. }
    destruct (waits_idle onProgress waits (save_effect (failed s)))
      as (H1 & _ & H3 & H4 & _); [rewrite Hsaved; reflexivity|].
    unfold ended. rewrite H1, H3, H4, Hsaved.
    cbn [set_chatPageResults updateBuffer results chatPageResults].
    split; [exact Hb|]. split; [|reflexivity].
    rewrite failed_results, list_lookup_fmap, Hr. reflexivity.
Qed.

(** C8, on the code. A run of [handleGenerate] whose stream delivers two
    characters for index 0 and whose next read is rejected. The service makes
    one progress call and throws. The call is short, so its update is pending;
    the render that the call causes has cleared its timeout. The [catch]
    leaves no result loading, but result 0 shows no content, and what is saved
    is what is shown: the two characters that index 0 had received are in the
    pending map only, and however long one waits they are neither shown nor
    saved. [handleStopGenerate] on the same state shows and saves them. *)
Example failed_run :
  let service :=
    generateMultipleResponses Scenario.Date_now Scenario.JSON_parse
      (Scenario.serve {| chunks := [Scenario.line "data: 0:ab"];
                         ending := ReadRejected NetworkError |})
      Scenario.authConfig (lit "Write.") (Single (lit "prompt"))
      totalCount true None in
  let s := run onProgress (start Scenario.idle)
               (Scenario.tasks (callbacks service)) in
  let ended := save_effect (failed s) in
  result service = Throw NetworkError /\
  map (fun p => (p_index p, p_content p, isComplete p)) (callbacks service)
    = [(0%nat, lit "ab", false)] /\
  updateBuffer ended !! 0%nat = Some (lit "ab") /\
  map (fun r => (content r, isLoading r)) (results ended)
    = replicate 8 ([], false) /\
  chatPageResults ended = Some (results ended) /\
  updateTimeoutRef ended = None /\
  (forall T,
     results (run onProgress ended [(T, Wait)]) = results ended /\
     chatPageResults (run onProgress ended [(T, Wait)]) = Some (results ended)) /\
  content <$> results (handleStopGenerate s) !! 0%nat = Some (lit "ab") /\
  content <$> results (failed (handleStopGenerate s)) !! 0%nat
    = Some (lit "ab").
Proof.
  vm_compute. repeat split; reflexivity.
Qed.

(** * More about a run of the service *)

Import Observed Value LocalStorage.

(** ** Runs that throw *)

Section Thrown.

Variable Date_now : nat -> Z.
Variable count : nat.

Lemma stream_reports_partial cs :
  Forall (fun p => isComplete p = false /\ (p_index p < count)%nat)
         (stream_reports Date_now count cs).
Proof.
  apply Forall_forall. intros p Hp. split.
  - pose proof (reports_from_streaming Date_now count cs []) as H.
    rewrite Forall_forall in H. apply H. exact Hp.
  - apply reports_from_elem in Hp as (b & c & r & _ & Hacc & ->).
    apply accepted_range in Hacc. cbn. lia.
Qed.

End Thrown.

(** X1. A run of [_executeGeneration] that throws has made no final
    call: every progress call it has made has [isComplete = false], and names
    an index below [count]. It has made a call at all only when the request
    was answered, with an OK status and a body, and a read of the body was
    rejected. *)
Theorem thrown_run_reports_no_completion
    (Date_now : nat -> Z) (JSON_parse : jsstring -> option StreamChunk)
    (fetch : request_body -> error + response) (authConfig : AuthConfig)
    (contents : list jsstring) (count : nat) (maxTokens : Z) (e : error) :
  let run := _executeGeneration Date_now JSON_parse fetch authConfig
               contents count true maxTokens in
  result run = Throw e ->
  Forall (fun p => isComplete p = false /\ (p_index p < count)%nat)
         (callbacks run) /\
  (callbacks run <> [] ->
   exists resp chunks,
     fetch (request authConfig contents maxTokens) = inr resp /\
     ok resp = true /\
     body resp = Some {| chunks := chunks; ending := ReadRejected e |}).
Proof.
  intros run Hthrow. unfold run in *. clear run.
  destruct (fetch (request authConfig contents maxTokens)) as [e'|resp] eqn:Hf.
  { unfold _executeGeneration in *. rewrite Hf in *. cbn. split; [constructor|congruence]. }
  destruct (ok resp) eqn:Hok.
  2:{ unfold _executeGeneration in *. rewrite Hf, Hok in *. cbn.
      split; [constructor|congruence]. }
  destruct (body resp) as [stream|] eqn:Hb.
  2:{ unfold _executeGeneration in *. rewrite Hf, Hok, Hb in *. cbn.
      split; [constructor|congruence]. }
  rewrite (run_streamed _ _ _ _ _ _ _ _ _ Hf Hok Hb) in *.
  cbn [callbacks result] in *.
  destruct stream as [chunks [|e']]; cbn [ending AIService.chunks] in *;
    [discriminate|].
  injection Hthrow as ->. rewrite app_nil_r.
  split; [apply stream_reports_partial|].
  intros _. exists resp, chunks. auto.
Qed.

Lemma thrown_run_reports_no_completion_witness :
  let run := Scenario.run {| chunks := Scenario.chunks_A;
                             ending := ReadRejected AbortError |} 3 in
  Forall (fun p => AIService.isComplete p = false /\ (p_index p < 3)%nat)
         (callbacks run) /\
  (callbacks run <> [] ->
   exists resp chunks,
     Scenario.serve {| chunks := Scenario.chunks_A;
                       ending := ReadRejected AbortError |}
       (request Scenario.authConfig (replicate 3 (lit "prompt")) 800)
       = inr resp /\
     ok resp = true /\
     body resp = Some {| chunks := chunks; ending := ReadRejected AbortError |}).
Proof.
  apply (thrown_run_reports_no_completion Scenario.Date_now Scenario.JSON_parse
           (Scenario.serve {| chunks := Scenario.chunks_A;
                              ending := ReadRejected AbortError |})
           Scenario.authConfig (replicate 3 (lit "prompt")) 3 800 AbortError).
  vm_compute. reflexivity.
Defined.

(** ** The end of the text *)

Section Tail.

Lemma complete_lines_tail text tail :
  newline ∉ tail -> complete_lines (text ++ tail) = complete_lines text.
Proof.
  intros Ht. unfold complete_lines. rewrite split_nl_app.
  rewrite (split_nl_single (or_empty (last (split_nl text)) ++ tail)).
  - rewrite removelast_last. reflexivity.
  - intros H. apply elem_of_app in H as [H|H]; [|contradiction].
    apply (last_split_nl_no_newline text). exact H.
Qed.

Lemma decoded_tail JSON_parse chunks tail :
  newline ∉ tail ->
  decoded JSON_parse (chunks ++ [tail]) = decoded JSON_parse chunks.
Proof.
  intros Ht. unfold decoded. rewrite concat_app. cbn [concat].
  rewrite app_nil_r, (complete_lines_tail _ _ Ht). reflexivity.
Qed.

End Tail.

(** X2. The text after the last newline of the body is never
    handed to the line handler: a body that ends with a chunk that has no
    newline gives the same run (request, progress calls and outcome) as the
    body without that chunk. A last line that is not ended by a newline is
    lost. *)
Theorem unterminated_last_line_dropped
    (Date_now : nat -> Z) (JSON_parse : jsstring -> option StreamChunk)
    (fetch fetch' : request_body -> error + response) (authConfig : AuthConfig)
    (contents : list jsstring) (count : nat) (maxTokens : Z)
    (resp resp' : response) (chunks : list jsstring) (tail : jsstring)
    (ending : read_end) :
  newline ∉ tail ->
  fetch (request authConfig contents maxTokens) = inr resp ->
  ok resp = true ->
  body resp = Some {| chunks := chunks ++ [tail]; ending := ending |} ->
  fetch' (request authConfig contents maxTokens) = inr resp' ->
  ok resp' = true ->
  body resp' = Some {| chunks := chunks; ending := ending |} ->
  _executeGeneration Date_now JSON_parse fetch authConfig
    contents count true maxTokens =
  _executeGeneration Date_now JSON_parse fetch' authConfig
    contents count true maxTokens.
Proof.
  intros Ht Hf Hok Hb Hf' Hok' Hb'.
  rewrite (run_streamed _ _ _ _ _ _ _ _ _ Hf Hok Hb).
  rewrite (run_streamed _ _ _ _ _ _ _ _ _ Hf' Hok' Hb').
  cbn [AIService.chunks AIService.ending].
  rewrite (decoded_tail _ _ _ Ht). reflexivity.
Qed.

Lemma unterminated_last_line_dropped_witness :
  Scenario.run {| chunks := Scenario.chunks_A ++ [lit "data: 2:lost"];
                  ending := Done |} 3 =
  Scenario.run {| chunks := Scenario.chunks_A; ending := Done |} 3.
Proof.
  apply (unterminated_last_line_dropped Scenario.Date_now Scenario.JSON_parse
           _ _ Scenario.authConfig (replicate 3 (lit "prompt")) 3 800
           {| ok := true; status := 200; statusText := lit "OK"; text := [];
              body := Some {| chunks := Scenario.chunks_A ++ [lit "data: 2:lost"];
                              ending := Done |} |}
           {| ok := true; status := 200; statusText := lit "OK"; text := [];
              body := Some {| chunks := Scenario.chunks_A; ending := Done |} |}
           Scenario.chunks_A (lit "data: 2:lost") Done);
    try reflexivity.
  vm_compute. intros H. 
  repeat (apply elem_of_cons in H as [H|H]; [discriminate|]).
  apply elem_of_nil in H. exact H.
Defined.

(** ** Line endings *)

Section CarriageReturn.

Lemma startsWith_snoc p l c :
  c ∉ p -> startsWith p (l ++ [c]) = startsWith p l.
Proof.
  revert l. induction p as [|a p IH]; intros l Hc; [destruct l; reflexivity|].
  apply not_elem_of_cons in Hc as [Hca Hc].
  destruct l as [|b l]; cbn [app startsWith].
  - destruct (N.eqb_spec a c); [congruence|reflexivity].
  - rewrite (IH l Hc). reflexivity.
Qed.

Lemma trimStart_snoc s c :
  trimStart (s ++ [c]) =
  match trimStart s with
  | [] => trimStart [c]
  | t => t ++ [c]
  end.
Proof.
  induction s as [|a s IH]; cbn [app trimStart]; [reflexivity|].
  destruct (is_space a); [exact IH | reflexivity].
Qed.

Lemma trim_snoc_space s c : is_space c = true -> trim (s ++ [c]) = trim s.
Proof.
  intros Hc. unfold trim. rewrite trimStart_snoc.
  destruct (trimStart s) as [|a t] eqn:E.
  - cbn [trimStart]. rewrite Hc. reflexivity.
  - rewrite rev_app_distr. cbn [rev app trimStart]. rewrite Hc. reflexivity.
Qed.

Lemma slice_snoc n (s : jsstring) c :
  (n <= length s)%nat -> slice n (s ++ [c]) = slice n s ++ [c].
Proof. intros H. unfold slice. apply drop_app_le. exact H. Qed.

Lemma startsWith_length p s :
  startsWith p s = true -> (length p <= length s)%nat.
Proof.
  revert s. induction p as [|a p IH]; intros [|b s]; cbn; try lia; try discriminate.
  intros H. apply andb_true_iff in H as [_ H]. apply IH in H. lia.
Qed.

End CarriageReturn.

(** X3. A carriage return at the end of a line changes nothing of
    what the line handler does with it: a stream whose lines end with CR LF is
    read as the same stream with LF. *)
Theorem carriage_return_tolerated
    (Date_now : nat -> Z) (JSON_parse : jsstring -> option StreamChunk)
    (count : nat) (onProgress : bool) (startTime : Z)
    (st : gen_state) (line : jsstring) :
  process_line Date_now JSON_parse count onProgress startTime st (line ++ [13%N]) =
  process_line Date_now JSON_parse count onProgress startTime st line.
Proof.
  unfold process_line.
  rewrite startsWith_snoc.
  2:{ vm_compute. intros H.
      repeat (apply elem_of_cons in H as [H|H]; [discriminate|]).
      apply elem_of_nil in H. exact H. }
  destruct (startsWith (lit "data: ") line) eqn:Hs; [|reflexivity].
  cbn [negb]. apply startsWith_length in Hs.
  rewrite slice_snoc by exact Hs.
  rewrite trim_snoc_space by reflexivity. reflexivity.
Qed.

(** ** The order of the calls *)

Section Order.

Variable Date_now : nat -> Z.
Variable count : nat.


Lemma accepted_length c :
  accepted count c = true -> 0 < applied_length count [c].
Proof.
  intros H. rewrite applied_length_single, H.
  apply accepted_range in H as [H _].
  destruct (delta_text c); [congruence | cbn; lia].
Qed.

Lemma report_after_extends b1 c1 b2 c2 :
  accepted count c2 = true ->
  extends (report_after Date_now count b1 c1)
          (report_after Date_now count (b1 ++ c1 :: b2) c2).
Proof.
  intros H2. unfold extends, report_after.
  cbn [p_index p_content totalTokens isComplete].
  replace ((b1 ++ c1 :: b2) ++ [c2]) with ((b1 ++ [c1]) ++ (b2 ++ [c2]))
    by (rewrite <- !app_assoc; reflexivity).
  rewrite (applied_length_app count (b1 ++ [c1]) (b2 ++ [c2])).
  rewrite (applied_length_app count b2 [c2]).
  pose proof (applied_length_nonneg count b2).
  pose proof (accepted_length c2 H2).
  split; [lia|]. split; [lia|].
  intros ->. rewrite (deltas_for_app _ (b1 ++ [c1]) (b2 ++ [c2])).
  eexists. reflexivity.
Qed.

Lemma report_after_final b c r i :
  extends (report_after Date_now count b c)
          (final_call Date_now count (b ++ c :: r) i).
Proof.
  unfold extends, report_after, final_call.
  cbn [p_index p_content totalTokens isComplete].
  replace (b ++ c :: r) with ((b ++ [c]) ++ r)
    by (rewrite <- app_assoc; reflexivity).
  rewrite (applied_length_app count (b ++ [c]) r).
  pose proof (applied_length_nonneg count r).
  split; [lia|]. split; [discriminate|].
  intros ->. rewrite (deltas_for_app _ (b ++ [c]) r). eexists. reflexivity.
Qed.

Lemma reports_from_ordered rest : forall before j k p q,
  (j < k)%nat ->
  reports_from Date_now count before rest !! j = Some p ->
  reports_from Date_now count before rest !! k = Some q ->
  extends p q.
Proof.
  induction rest as [|c rest IH]; intros before j k p q Hjk Hp Hq;
    cbn [reports_from] in *; [rewrite lookup_nil in Hp; discriminate|].
  destruct (accepted count c) eqn:Hacc; cbn [app] in *.
  - destruct k as [|k]; [lia|]. cbn in Hq.
    destruct j as [|j].
    + cbn in Hp. injection Hp as <-.
      apply list_elem_of_lookup_2, reports_from_elem in Hq
        as (b & c' & r & _ & Hacc' & ->).
      rewrite <- app_assoc. apply report_after_extends. exact Hacc'.
    + cbn in Hp. apply (IH (before ++ [c]) j k); [lia | exact Hp | exact Hq].
  - apply (IH (before ++ [c]) j k); assumption.
Qed.

Lemma final_reports_lookup cs k q :
  final_reports Date_now count cs !! k = Some q ->
  exists i, q = final_call Date_now count cs i /\ (i < count)%nat /\
            deltas_for i cs <> [].
Proof.
  intros Hq. apply list_elem_of_lookup_2 in Hq. unfold final_reports in Hq.
  apply elem_of_concat_map in Hq as (i & Hi & Hq).
  apply elem_of_seq in Hi.
  pose proof (final_report_elem _ _ _ _ _ Hq) as (_ & _ & Hd & _).
  rewrite (final_report_nonempty _ _ _ _ Hd) in Hq.
  apply list_elem_of_singleton in Hq. exists i. split; [exact Hq|]. split; [lia|exact Hd].
Qed.

(** The final calls come in the order of their indices. *)
Lemma final_reports_from_ordered cs l : forall j k p q,
  (j < k)%nat ->
  concat (map (final_report Date_now count cs) l) !! j = Some p ->
  concat (map (final_report Date_now count cs) l) !! k = Some q ->
  NoDup l ->
  p_index p <> p_index q.
Proof.
  induction l as [|i l IH]; intros j k p q Hjk Hp Hq Hnd;
    cbn [map concat] in *; [rewrite lookup_nil in Hp; discriminate|].
  apply NoDup_cons in Hnd as [Hi Hnd].
  unfold final_report at 1 in Hp. unfold final_report at 1 in Hq.
  destruct (0 <? length (deltas_for i cs))%nat; cbn [app] in *.
  - destruct k as [|k]; [lia|]. cbn in Hq. destruct j as [|j].
    + cbn in Hp. injection Hp as <-. cbn.
      apply list_elem_of_lookup_2, elem_of_concat_map in Hq as (i' & Hi' & Hq).
      apply final_report_elem in Hq as (_ & <- & _). congruence.
    + cbn in Hp. apply (IH j k); [lia | assumption..].
  - apply (IH j k); assumption.
Qed.

Lemma calls_ordered cs j k p q :
  (j < k)%nat ->
  (stream_reports Date_now count cs ++ final_reports Date_now count cs) !! j
    = Some p ->
  (stream_reports Date_now count cs ++ final_reports Date_now count cs) !! k
    = Some q ->
  extends p q.
Proof.
  intros Hjk Hp Hq.
  apply lookup_app_Some in Hp as [Hp|[Hj Hp]];
    apply lookup_app_Some in Hq as [Hq|[Hk Hq]].
  - apply (reports_from_ordered cs [] j k); assumption.
  - apply list_elem_of_lookup_2, reports_from_elem in Hp
      as (b & c & r & Hcs & _ & ->).
    apply final_reports_lookup in Hq as (i & -> & _). cbn [app].
    rewrite Hcs. apply report_after_final.
  - apply lookup_lt_Some in Hq. lia.
  - assert (Hlt : (j - length (stream_reports Date_now count cs) <
                   k - length (stream_reports Date_now count cs))%nat) by lia.
    pose proof (final_reports_from_ordered cs (seq 0 count) _ _ p q
                  Hlt Hp Hq (NoDup_seq 0 count)) as Hne.
    apply final_reports_lookup in Hp as (i & -> & _).
    apply final_reports_lookup in Hq as (i' & -> & _).
    unfold extends, final_call in *. cbn in *.
    split; [lia|]. split; [discriminate|]. intros E. congruence.
Qed.

End Order.

(** X4. Of two progress calls of a run, the later one reports a
    total that is not smaller, and larger when the later call is not a final
    one; when both name the same index, the content of the later call starts
    with the content of the earlier one. What is reported for an index only
    grows. *)
Theorem progress_calls_only_grow
    (Date_now : nat -> Z) (JSON_parse : jsstring -> option StreamChunk)
    (fetch : request_body -> error + response) (authConfig : AuthConfig)
    (contents : list jsstring) (count : nat) (maxTokens : Z)
    (j k : nat) (p q : progress) :
  let run := _executeGeneration Date_now JSON_parse fetch authConfig
               contents count true maxTokens in
  (j < k)%nat ->
  callbacks run !! j = Some p ->
  callbacks run !! k = Some q ->
  totalTokens p <= totalTokens q /\
  (isComplete q = false -> totalTokens p < totalTokens q) /\
  (p_index p = p_index q -> p_content p `prefix_of` p_content q).
Proof.
  intros run Hjk Hp Hq. unfold run in *. clear run.
  destruct (fetch (request authConfig contents maxTokens)) as [e'|resp] eqn:Hf.
  { unfold _executeGeneration in *. rewrite Hf in *. cbn in Hp.
    rewrite lookup_nil in Hp. discriminate. }
  destruct (ok resp) eqn:Hok.
  2:{ unfold _executeGeneration in *. rewrite Hf, Hok in *. cbn in Hp.
      rewrite lookup_nil in Hp. discriminate. }
  destruct (body resp) as [stream|] eqn:Hb.
  2:{ unfold _executeGeneration in *. rewrite Hf, Hok, Hb in *. cbn in Hp.
      rewrite lookup_nil in Hp. discriminate. }
  rewrite (run_streamed _ _ _ _ _ _ _ _ _ Hf Hok Hb) in *.
  cbn [callbacks] in *.
  set (cs := decoded JSON_parse (chunks stream)) in *.
  apply (calls_ordered Date_now count cs j k p q Hjk).
  - destruct (ending stream); [exact Hp|].
    rewrite app_nil_r in Hp. apply lookup_app_l_Some. exact Hp.
  - destruct (ending stream); [exact Hq|].
    rewrite app_nil_r in Hq. apply lookup_app_l_Some. exact Hq.
Qed.

Lemma progress_calls_only_grow_witness :
  let run := Scenario.run Scenario.stream_A 3 in
  exists p q,
    callbacks run !! 0%nat = Some p /\ callbacks run !! 2%nat = Some q /\
    p_content p = lit "ab" /\ p_content q = lit "abc" /\
    totalTokens p <= totalTokens q /\
    (AIService.isComplete q = false -> totalTokens p < totalTokens q) /\
    (p_index p = p_index q -> p_content p `prefix_of` p_content q).
Proof.
  eexists _, _. split; [vm_compute; reflexivity|].
  split; [vm_compute; reflexivity|].
  split; [reflexivity|]. split; [reflexivity|].
  apply (progress_calls_only_grow Scenario.Date_now Scenario.JSON_parse
           (Scenario.serve Scenario.stream_A) Scenario.authConfig
           (replicate 3 (lit "prompt")) 3 800 0%nat 2%nat).
  - lia.
  - vm_compute. reflexivity.
  - vm_compute. reflexivity.
Defined.

(** ** The context of a continuation *)

Section Context.

Import Service.

Lemma context_drop existingContent contextLength :
  context existingContent contextLength =
  drop (Z.to_nat (if contextLength <=? 0 then - contextLength
                  else Z.of_nat (length existingContent) - contextLength))
       existingContent.
Proof.
  unfold context, slice_from.
  destruct (Z.gtb_spec (Z.of_nat (length existingContent)) contextLength) as [Hgt|Hle].
  - destruct (Z.ltb_spec (- contextLength) 0) as [Hneg|Hpos].
    + destruct (Z.leb_spec contextLength 0); [lia|]. f_equal. lia.
    + destruct (Z.leb_spec contextLength 0); [|lia].
      destruct (Z.min_spec (- contextLength) (Z.of_nat (length existingContent)))
        as [[_ ->]|[Hm ->]]; [reflexivity|].
      rewrite Nat2Z.id. rewrite !drop_ge; [reflexivity| lia | lia].
  - destruct (Z.leb_spec contextLength 0) as [H0|H0].
    + assert (length existingContent = 0%nat) by lia.
      destruct existingContent; [|discriminate]. rewrite drop_nil. reflexivity.
    + replace (Z.to_nat _) with 0%nat by lia. reflexivity.
Qed.

End Context.

(** X5. The context of [continueGeneration] is a suffix of the
    existing content. For a positive [contextLength] it has the length of the
    content or [contextLength], whichever is smaller; for [contextLength = 0]
    it is the whole content, as [slice(-0)] is [slice(0)]; for a negative one
    it is the content without its first [-contextLength] characters. The
    request has [count] times the same prompt, made of the prefix, the
    context and the request to continue, and [max_tokens] is 4000 unless it is
    given. *)
Theorem continuation_context_is_the_end_of_the_text
    (Date_now : nat -> Z) (JSON_parse : jsstring -> option StreamChunk)
    (fetch : request_body -> error + response) (authConfig : AuthConfig)
    (promptPrefix existingContent : jsstring) (count : nat)
    (contextLength : Z) (p : positive) (onProgress : bool)
    (maxTokens : option Z) :
  let context := Service.context existingContent in
  context contextLength `suffix_of` existingContent /\
  length (context (Zpos p)) = Nat.min (length existingContent) (Pos.to_nat p) /\
  context 0 = existingContent /\
  context (Zneg p) = drop (Pos.to_nat p) existingContent /\
  let run := Service.continueGeneration Date_now JSON_parse fetch authConfig
               promptPrefix existingContent count (Some contextLength)
               onProgress maxTokens in
  contents (sent run) =
    replicate count
      (lit "User: " ++ promptPrefix ++ [newline] ++ context contextLength ++
       [newline] ++ Service.continue_request ++ [newline; newline] ++
       lit "Assistant: <think>" ++ [newline] ++ lit "</think>") /\
  max_tokens (sent run) = default 4000 maxTokens.
Proof.
  intros context. unfold context. split; [|split; [|split; [|split]]].
  - rewrite context_drop. apply suffix_drop.
  - rewrite context_drop. cbn [Z.leb Z.compare]. rewrite length_drop. lia.
  - rewrite context_drop. reflexivity.
  - rewrite context_drop. reflexivity.
  - unfold Service.continueGeneration.
    rewrite executeGeneration_sent. cbn [contents max_tokens request default].
    unfold Service.continuePrompt. split; [|reflexivity].
    rewrite <- !app_assoc. reflexivity.
Qed.

(** * More about the chat page *)

(** ** What a run keeps *)

Section Kept.

Lemma apply_updates_id updates prev :
  map id (apply_updates updates prev) = map id prev.
Proof.
  apply list_eq. intros i. rewrite !list_lookup_fmap, apply_updates_lookup.
  destruct (prev !! i) as [r|]; [|reflexivity]. cbn.
  destruct (updates !! i); reflexivity.
Qed.

Lemma run_callback_id f s :
  map id (results (run_callback f s)) = map id (results s).
Proof. rewrite run_callback_results. apply apply_updates_id. Qed.

Lemma schedule_id f c b s :
  map id (results (schedule f c b s)) = map id (results s).
Proof.
  unfold schedule. destruct (_ || _); [|reflexivity].
  rewrite run_callback_id. reflexivity.
Qed.

Lemma run_timers_id t s :
  map id (results (run_timers t s)) = map id (results s).
Proof.
  unfold run_timers. destruct (updateTimeoutRef s) as [[d f]|]; [|reflexivity].
  destruct (d <=? t); [|reflexivity]. rewrite run_callback_id. reflexivity.
Qed.

Lemma run_id cb trace :
  (forall s p, map id (results (cb s p)) = map id (results s)) ->
  forall s, map id (results (run cb s trace)) = map id (results s).
Proof.
  intros Hcb. unfold run.
  induction trace as [|[t a] trace IH]; intros s; [reflexivity|].
  cbn [foldl]. rewrite IH. unfold step.
  destruct a as [p| |]; try destruct (changes_state _ _);
    cbn [cleanup clearTimeout set_updateTimeoutRef results];
    rewrite ?Hcb; cbn [set_now results];
    apply run_timers_id.
Qed.

Lemma onProgress_id s p :
  map id (results (onProgress s p)) = map id (results s).
Proof.
  unfold onProgress. rewrite schedule_id, record_update_results. reflexivity.
Qed.

Lemma onContinueProgress_id contexts s p :
  map id (results (onContinueProgress contexts s p)) = map id (results s).
Proof.
  unfold onContinueProgress. rewrite schedule_id, record_update_results.
  reflexivity.
Qed.

Lemma handleStopGenerate_id s :
  map id (results (handleStopGenerate s)) = map id (results s).
Proof.
  rewrite handleStopGenerate_results. apply list_eq. intros i.
  rewrite !list_lookup_fmap, list_lookup_imap.
  destruct (results s !! i) as [r|]; [|reflexivity]. cbn.
  unfold stopped_result. destruct (updateBuffer s !! i); reflexivity.
Qed.

Lemma failed_id s : map id (results (failed s)) = map id (results s).
Proof. rewrite failed_results, map_map. reflexivity. Qed.

Lemma completed_id f s :
  map id (results (completed f s)) = map id (results s).
Proof.
  unfold completed.
  destruct f; cbn [set_isGenerating postMessage results];
    rewrite run_callback_id; reflexivity.
Qed.

End Kept.

(** X6. No handler changes the [id] of a result or the number of
    results: a run of [handleGenerate] has the eight results [result-0] to
    [result-7] throughout, and progress calls, timeouts, renders, the last
    flush, the last save, a stop and a failure keep the [id]s as they are. *)
Theorem result_ids_are_stable (s s0 : page) (trace : list (Z * action))
    (contexts : list jsstring) (f : timer_callback) :
  map id (results (run onProgress (start s0) trace)) =
    map (fun i => lit "result-" ++ lit (pretty i)) (seq 0 totalCount) /\
  map id (results (run onProgress s trace)) = map id (results s) /\
  map id (results (run (onContinueProgress contexts) s trace))
    = map id (results s) /\
  map id (results (completed f s)) = map id (results s) /\
  map id (results (final_save s)) = map id (results s) /\
  map id (results (handleStopGenerate s)) = map id (results s) /\
  map id (results (failed s)) = map id (results s).
Proof.
  split; [|split; [|split; [|split; [|split; [|split]]]]].
  - rewrite (run_id onProgress trace onProgress_id).
    cbn [start cleanup clearTimeout set_updateTimeoutRef set_results results].
    unfold placeholders.
    rewrite map_map. reflexivity.
  - apply (run_id onProgress trace onProgress_id).
  - apply (run_id _ trace (onContinueProgress_id contexts)).
  - apply completed_id.
  - reflexivity.
  - apply handleStopGenerate_id.
  - apply failed_id.
Qed.

(** ** Pending updates from an earlier run *)

Section Stale.

Lemma placeholders_lookup j :
  (j < totalCount)%nat ->
  placeholders !! j =
  Some {| id := lit "result-" ++ lit (pretty j); content := []; isLoading := true |}.
Proof.
  intros Hj. unfold placeholders. rewrite list_lookup_fmap.
  rewrite (lookup_seq_lt 0 totalCount j Hj). reflexivity.
Qed.

End Stale.

(** X7. [handleGenerate] does not empty the pending map. So an
    update that was pending for index [j] when a run starts is applied by the
    first flush of the run: after a first progress call for another index that
    is flushed at once, result [j] is no placeholder any more but shows the
    content of the earlier run, not loading. *)
Theorem pending_updates_outlive_a_new_run (s0 : page) (p : progress)
    (j : nat) (c : jsstring) :
  updateBuffer s0 !! j = Some c ->
  (j < totalCount)%nat ->
  p_index p <> j ->
  (100 < length (p_content p))%nat \/ AIService.isComplete p = true ->
  updateBuffer (start s0) = updateBuffer s0 /\
  results (start s0) !! j =
    Some {| id := lit "result-" ++ lit (pretty j); content := [];
            isLoading := true |} /\
  results (onProgress (start s0) p) !! j =
    Some {| id := lit "result-" ++ lit (pretty j); content := c;
            isLoading := false |}.
Proof.
  intros Hc Hj Hne Himm.
  split; [reflexivity|]. split; [apply (placeholders_lookup j Hj)|].
  pose proof (onProgress_decision (start s0) p) as [_ H].
  assert (E : (100 <? length (p_content p))%nat || AIService.isComplete p = true).
  { apply orb_true_iff. destruct Himm as [H1|H1]; [left|right; exact H1].
    apply Nat.ltb_lt. exact H1. }
  rewrite E in H. destruct H as (_ & _ & -> & _).
  rewrite (apply_updates_lookup_Some _ _ j c
             {| id := lit "result-" ++ lit (pretty j); content := [];
                isLoading := true |}).
  - reflexivity.
  - rewrite lookup_insert_ne by exact Hne. exact Hc.
  - apply (placeholders_lookup j Hj).
Qed.

Lemma pending_updates_outlive_a_new_run_witness :
  results (onProgress (start Scenario.page_C)
             (Scenario.partial_update 0 (replicate 101 97%N) 101)) !! 1%nat =
  Some {| id := lit "result-1"; content := lit "bar"; isLoading := false |}.
Proof.
  apply (pending_updates_outlive_a_new_run Scenario.page_C
           (Scenario.partial_update 0 (replicate 101 97%N) 101) 1%nat (lit "bar")).
  - reflexivity.
  - vm_compute. lia.
  - vm_compute. lia.
  - left. vm_compute. lia.
Defined.

(** ** The completed indices *)

Section Completed.


Lemma flushUpdates_completedIndexes s :
  completedIndexes (flushUpdates s) = completedIndexes s.
Proof. unfold flushUpdates. destruct (0 <? _)%nat; reflexivity. Qed.

Lemma updateSessionStorage_completedIndexes s :
  completedIndexes (updateSessionStorage s) = completedIndexes s.
Proof.
  unfold updateSessionStorage. destruct (chatPageResults s); [|reflexivity].
  destruct (existsb _ _); reflexivity.
Qed.

Lemma run_callback_completedIndexes f s :
  completedIndexes (run_callback f s) = completedIndexes s.
Proof.
  destruct f; cbn [run_callback];
    rewrite ?updateSessionStorage_completedIndexes;
    apply flushUpdates_completedIndexes.
Qed.

Lemma run_timers_completedIndexes t s :
  completedIndexes (run_timers t s) = completedIndexes s.
Proof.
  unfold run_timers. destruct (updateTimeoutRef s) as [[d f]|]; [|reflexivity].
  destruct (d <=? t); [|reflexivity].
  rewrite run_callback_completedIndexes. reflexivity.
Qed.

Lemma schedule_completedIndexes f c b s :
  completedIndexes (schedule f c b s) = completedIndexes s.
Proof.
  unfold schedule. destruct (_ || _); [|reflexivity].
  rewrite run_callback_completedIndexes. reflexivity.
Qed.

Lemma onProgress_completedIndexes s p :
  completedIndexes (onProgress s p) =
  if AIService.isComplete p then {[p_index p]} ∪ completedIndexes s
  else completedIndexes s.
Proof.
  unfold onProgress. rewrite schedule_completedIndexes. unfold record_update.
  destruct (AIService.isComplete p); reflexivity.
Qed.

Lemma completions_cons p ps :
  completions (p :: ps) =
  if AIService.isComplete p then {[p_index p]} ∪ completions ps
  else completions ps.
Proof.
  unfold completions. rewrite filter_cons.
  destruct (decide (AIService.isComplete p = true)) as [E|E].
  - rewrite E. reflexivity.
  - destruct (AIService.isComplete p); [congruence | reflexivity].
Qed.

Lemma progress_of_cons t a trace :
  progress_of ((t, a) :: trace) =
  match a with
  | Progress p => p :: progress_of trace
  | _ => progress_of trace
  end.
Proof. destruct a; reflexivity. Qed.

Lemma run_completedIndexes trace : forall s,
  completedIndexes (run onProgress s trace) =
  completedIndexes s ∪ completions (progress_of trace).
Proof.
  induction trace as [|[t a] trace IH]; intros s.
  - unfold run, completions. cbn. rewrite union_empty_r_L. reflexivity.
  - rewrite progress_of_cons. unfold run in *. cbn [foldl]. rewrite IH.
    unfold step. destruct a as [p| |].
    + assert (E : forall s', completedIndexes
                    (if changes_state (set_now t (run_timers t s)) p
                     then cleanup s' else s') = completedIndexes s')
        by (intros s'; destruct (changes_state _ _); reflexivity).
      rewrite E, onProgress_completedIndexes. cbn [set_now completedIndexes].
      rewrite run_timers_completedIndexes, completions_cons.
      destruct (AIService.isComplete p); [|reflexivity].
      rewrite (comm_L (∪) {[p_index p]} (completedIndexes s)).
      rewrite <- (assoc_L (∪)). reflexivity.
    + cbn [cleanup clearTimeout set_updateTimeoutRef set_now completedIndexes].
      rewrite run_timers_completedIndexes. reflexivity.
    + cbn [set_now completedIndexes].
      rewrite run_timers_completedIndexes. reflexivity.
Qed.

Lemma completions_app ps1 ps2 :
  completions (ps1 ++ ps2) = completions ps1 ∪ completions ps2.
Proof.
  unfold completions. rewrite filter_app, map_app, list_to_set_app_L.
  reflexivity.
Qed.

Lemma completions_streaming ps :
  Forall (fun p => AIService.isComplete p = false) ps -> completions ps = ∅.
Proof.
  intros H. unfold completions. rewrite filter_none; [reflexivity|].
  eapply Forall_impl; [exact H|]. cbn. intros p Hp. congruence.
Qed.

Lemma completions_final Date_now count cs i :
  i ∈ completions (final_reports Date_now count cs) <->
  (i < count)%nat /\ deltas_for i cs <> [].
Proof.
  unfold completions. rewrite elem_of_list_to_set, list_elem_of_fmap. split.
  - intros (p & -> & Hp). apply list_elem_of_filter in Hp as [_ Hp].
    unfold final_reports in Hp. apply elem_of_concat_map in Hp as (j & Hj & Hp).
    apply elem_of_seq in Hj.
    apply final_report_elem in Hp as (_ & -> & Hd & _). split; [lia | exact Hd].
  - intros [Hi Hd]. exists (final_call Date_now count cs i). split; [reflexivity|].
    apply list_elem_of_filter. split; [reflexivity|].
    destruct (final_reports_split Date_now count cs i Hi Hd) as (ps1 & ps2 & -> & _).
    apply elem_of_app. right. apply list_elem_of_here.
Qed.

End Completed.

(** X8. After a run of [handleGenerate] that ends normally, the
    completed indices are exactly the indices below eight for which the
    stream carried some text. So the count of completed tasks is eight, and
    the button that continues is shown, exactly when every index has received
    some text. *)
Theorem completed_indexes_after_run
    (Date_now : nat -> Z) (JSON_parse : jsstring -> option StreamChunk)
    (fetch : request_body -> error + response) (authConfig : AuthConfig)
    (promptPrefix prompt : jsstring) (s0 : page) (resp : response)
    (chunks : list jsstring) (trace : list (Z * action)) :
  let service :=
    generateMultipleResponses Date_now JSON_parse fetch authConfig promptPrefix
      (Single prompt) totalCount true None in
  let cs := decoded JSON_parse chunks in
  fetch (request authConfig
           (replicate totalCount (template promptPrefix prompt)) 800)
    = inr resp ->
  ok resp = true ->
  body resp = Some {| chunks := chunks; ending := Done |} ->
  progress_of trace = callbacks service ->
  let finished := completed FlushAndStore (run onProgress (start s0) trace) in
  (forall i, i ∈ completedIndexes finished <->
             (i < totalCount)%nat /\ deltas_for i cs <> []) /\
  (size (completedIndexes finished) = totalCount <->
   forall i, (i < totalCount)%nat -> deltas_for i cs <> []) /\
  (ChatPageStorage.continue_button false finished = true <->
   forall i, (i < totalCount)%nat -> deltas_for i cs <> []).
Proof.
  intros service cs Hf Hok Hb Htrace finished.
  assert (Hcalls : callbacks service =
            stream_reports Date_now totalCount cs ++
            final_reports Date_now totalCount cs).
  { unfold service, generateMultipleResponses. cbn [default].
    rewrite (run_streamed _ _ _ _ _ _ _ _ _ Hf Hok Hb). reflexivity. }
  assert (Hmem : forall i, i ∈ completedIndexes finished <->
                           (i < totalCount)%nat /\ deltas_for i cs <> []).
  { intros i. unfold finished, completed.
    cbn [set_isGenerating postMessage completedIndexes].
    rewrite run_callback_completedIndexes.
    cbn [clearTimeout set_updateTimeoutRef completedIndexes].
    rewrite run_completedIndexes, Htrace, Hcalls, completions_app.
    rewrite (completions_streaming (stream_reports _ _ _))
      by apply reports_from_streaming.
    cbn [start cleanup clearTimeout set_updateTimeoutRef set_results set_shown
           set_completedIndexes completedIndexes].
    rewrite !union_empty_l_L. apply completions_final. }
  split; [exact Hmem|].
  assert (Hbutton : ChatPageStorage.continue_button false finished =
                    (size (completedIndexes finished) =? totalCount)%nat).
  { unfold ChatPageStorage.continue_button.
    assert (Hlen : length (results finished) = totalCount).
    { unfold finished, completed. cbn [set_isGenerating postMessage results].
      rewrite run_callback_results, apply_updates_length.
      cbn [clearTimeout set_updateTimeoutRef results].
      rewrite (run_length onProgress onProgress_length). reflexivity. }
    rewrite Hlen. reflexivity. }
  set (C := completedIndexes finished) in *.
  assert (Hsub : C ⊆ list_to_set (seq 0 totalCount)).
  { intros i Hi. apply elem_of_list_to_set, elem_of_seq.
    apply Hmem in Hi. lia. }
  assert (Hfull : size (list_to_set (seq 0 totalCount) : gset nat) = totalCount).
  { rewrite size_list_to_set by apply NoDup_seq. apply length_seq. }
  assert (Hcount : size C = totalCount <->
                   forall i, (i < totalCount)%nat -> deltas_for i cs <> []);
    [|split; [exact Hcount|]; rewrite Hbutton, Nat.eqb_eq; exact Hcount].
  split.
  - intros Hsize i Hi.
    assert (E : C = list_to_set (seq 0 totalCount)).
    { apply set_eq. apply set_subseteq_size_equiv; [exact Hsub|]. rewrite Hfull. lia. }
    apply (Hmem i). rewrite E. apply elem_of_list_to_set, elem_of_seq. lia.
  - intros Hall. rewrite <- Hfull. f_equal. apply set_eq. intros i. split.
    + apply Hsub.
    + intros Hi. apply elem_of_list_to_set, elem_of_seq in Hi.
      apply Hmem. split; [lia|]. apply Hall. lia.
Qed.

Lemma completed_indexes_after_run_witness :
  let service :=
    generateMultipleResponses Scenario.Date_now Scenario.JSON_parse
      (Scenario.serve Scenario.stream_A) Scenario.authConfig (lit "Write.")
      (Single (lit "a storm")) totalCount true None in
  let cs := decoded Scenario.JSON_parse Scenario.chunks_A in
  let finished :=
    completed FlushAndStore
      (run onProgress (start Scenario.idle)
           (Scenario.tasks (callbacks service))) in
  (forall i, i ∈ completedIndexes finished <->
             (i < totalCount)%nat /\ deltas_for i cs <> []) /\
  (size (completedIndexes finished) = totalCount <->
   forall i, (i < totalCount)%nat -> deltas_for i cs <> []) /\
  (ChatPageStorage.continue_button false finished = true <->
   forall i, (i < totalCount)%nat -> deltas_for i cs <> []).
Proof.
  apply (completed_indexes_after_run Scenario.Date_now Scenario.JSON_parse
           (Scenario.serve Scenario.stream_A) Scenario.authConfig
           (lit "Write.") (lit "a storm") Scenario.idle
           {| ok := true; status := 200; statusText := lit "OK"; text := [];
              body := Some Scenario.stream_A |}
           Scenario.chunks_A).
  - reflexivity.
  - reflexivity.
  - reflexivity.
  - vm_compute. reflexivity.
Defined.

(** ** Indices that receive nothing *)

Section Silent.

Lemma run_callback_untouched f s i :
  updateBuffer s !! i = None ->
  results (run_callback f s) !! i = results s !! i.
Proof.
  intros H. rewrite run_callback_results. apply apply_updates_lookup_None, H.
Qed.

Lemma run_timers_untouched t s i :
  updateBuffer s !! i = None ->
  results (run_timers t s) !! i = results s !! i.
Proof.
  intros H. unfold run_timers.
  destruct (updateTimeoutRef s) as [[d f]|]; [|reflexivity].
  destruct (d <=? t); [|reflexivity].
  rewrite run_callback_untouched; [reflexivity | exact H].
Qed.

Lemma onProgress_untouched s p i :
  updateBuffer s !! i = None -> p_index p <> i ->
  results (onProgress s p) !! i = results s !! i.
Proof.
  intros H Hne. unfold onProgress, schedule.
  destruct (_ || _); cbn [setTimeout clearTimeout set_updateTimeoutRef results].
  - rewrite run_callback_untouched.
    + cbn [clearTimeout set_updateTimeoutRef results].
      rewrite record_update_results. reflexivity.
    + cbn [clearTimeout set_updateTimeoutRef updateBuffer].
      rewrite record_update_updateBuffer, lookup_insert_ne by exact Hne. exact H.
  - rewrite record_update_results. reflexivity.
Qed.

Lemma step_untouched s t a i :
  updateBuffer s !! i = None ->
  Forall (fun p => p_index p <> i) (progress_of [(t, a)]) ->
  results (step onProgress s (t, a)) !! i = results s !! i /\
  updateBuffer (step onProgress s (t, a)) !! i = None.
Proof.
  intros Hb Hp. unfold step.
  assert (Hb' : updateBuffer (set_now t (run_timers t s)) !! i = None).
  { cbn [set_now updateBuffer]. rewrite run_timers_updateBuffer. exact Hb. }
  assert (Hr' : results (set_now t (run_timers t s)) !! i = results s !! i).
  { cbn [set_now results]. apply run_timers_untouched, Hb. }
  destruct a as [p| |].
  - rewrite progress_of_cons in Hp. apply Forall_cons in Hp as [Hp _].
    destruct (changes_state _ _);
      cbn [cleanup clearTimeout set_updateTimeoutRef results updateBuffer];
      split.
    + rewrite (onProgress_untouched _ _ _ Hb' Hp). exact Hr'.
    + rewrite onProgress_updateBuffer, lookup_insert_ne by exact Hp. exact Hb'.
    + rewrite (onProgress_untouched _ _ _ Hb' Hp). exact Hr'.
    + rewrite onProgress_updateBuffer, lookup_insert_ne by exact Hp. exact Hb'.
  - split; [exact Hr' | exact Hb'].
  - split; [exact Hr' | exact Hb'].
Qed.

Lemma run_untouched trace i : forall s,
  updateBuffer s !! i = None ->
  Forall (fun p => p_index p <> i) (progress_of trace) ->
  results (run onProgress s trace) !! i = results s !! i /\
  updateBuffer (run onProgress s trace) !! i = None.
Proof.
  induction trace as [|[t a] trace IH]; intros s Hb Hps;
    [split; [reflexivity | exact Hb]|].
  assert (Hhd : Forall (fun p => p_index p <> i) (progress_of [(t, a)]) /\
                Forall (fun p => p_index p <> i) (progress_of trace)).
  { rewrite progress_of_cons in Hps. rewrite progress_of_cons.
    destruct a as [p| |]; cbn [progress_of omap list_omap].
    - apply Forall_cons in Hps as [Hp Hps]. split; [|exact Hps].
      repeat constructor. exact Hp.
    - split; [constructor | exact Hps].
    - split; [constructor | exact Hps]. }
  destruct Hhd as [Hhd Htl].
  destruct (step_untouched s t a i Hb Hhd) as [Hr1 Hb1].
  unfold run in *. cbn [foldl].
  destruct (IH _ Hb1 Htl) as [Hr2 Hb2]. split; [|exact Hb2].
  rewrite Hr2. exact Hr1.
Qed.

End Silent.

(** X9. An index that has no pending update when a run starts
    and that no progress call of the run names is still the loading
    placeholder after the run has completed and the last save is done, on the
    page and in the saved snapshot: the normal completion marks no result as
    loaded. *)
Theorem silent_stream_stays_loading (s0 : page) (trace : list (Z * action))
    (i : nat) :
  updateBuffer s0 !! i = None ->
  Forall (fun p => p_index p <> i) (progress_of trace) ->
  (i < totalCount)%nat ->
  let finished :=
    final_save (completed FlushAndStore (run onProgress (start s0) trace)) in
  let placeholder :=
    {| id := lit "result-" ++ lit (pretty i); content := [];
       isLoading := true |} in
  results finished !! i = Some placeholder /\
  exists saved,
    chatPageResults finished = Some saved /\ saved !! i = Some placeholder.
Proof.
  intros Hb Hps Hi finished placeholder.
  destruct (run_untouched trace i (start s0) Hb Hps) as [Hr Hbuf].
  set (s := run onProgress (start s0) trace) in *.
  assert (Hres : results (completed FlushAndStore s) !! i = Some placeholder).
  { unfold completed. cbn [set_isGenerating postMessage results].
    rewrite run_callback_untouched by exact Hbuf.
    cbn [clearTimeout set_updateTimeoutRef results]. rewrite Hr.
    apply (placeholders_lookup i Hi). }
  assert (Hbuf' : updateBuffer (completed FlushAndStore s) !! i = None).
  { unfold completed. cbn [set_isGenerating postMessage updateBuffer].
    rewrite run_callback_updateBuffer. exact Hbuf. }
  split; [exact Hres|].
  eexists. split; [reflexivity|].
  rewrite apply_updates_lookup_None by exact Hbuf'. exact Hres.
Qed.

Lemma silent_stream_stays_loading_witness :
  let finished :=
    final_save (completed FlushAndStore
      (run onProgress (start Scenario.idle) Scenario.trace_long)) in
  let placeholder :=
    {| id := lit "result-2"; content := []; isLoading := true |} in
  results finished !! 2%nat = Some placeholder /\
  exists saved,
    chatPageResults finished = Some saved /\ saved !! 2%nat = Some placeholder.
Proof.
  apply (silent_stream_stays_loading Scenario.idle Scenario.trace_long 2%nat).
  - reflexivity.
  - vm_compute. repeat constructor; lia.
  - vm_compute. lia.
Defined.

(** ** Short updates *)

Section Quiet.





End Quiet.





(** ** Stopping again *)

Section StopAgain.

Lemma stopped_result_twice updates i r :
  stopped_result updates i (stopped_result updates i r) =
  stopped_result updates i r.
Proof. unfold stopped_result. destruct (updates !! i); reflexivity. Qed.

Lemma handleStopGenerate_updateBuffer s :
  updateBuffer (handleStopGenerate s) = updateBuffer s.
Proof. reflexivity. Qed.

Lemma stopped_results_twice s :
  imap (stopped_result (updateBuffer s)) (results (handleStopGenerate s)) =
  results (handleStopGenerate s).
Proof.
  rewrite handleStopGenerate_results. apply list_eq. intros i.
  rewrite !list_lookup_imap. destruct (results s !! i) as [r|]; [|reflexivity].
  cbn. rewrite stopped_result_twice. reflexivity.
Qed.

End StopAgain.

(** X12. [handleStopGenerate] is idempotent on the results
    and the saved snapshot: a second stop, a flush (as of a late timeout) and
    the [catch] of the aborted run leave the results as the first stop left
    them. *)
Theorem stopping_twice_changes_nothing (s : page) :
  let stopped := handleStopGenerate s in
  results (handleStopGenerate stopped) = results stopped /\
  chatPageResults (handleStopGenerate stopped) = chatPageResults stopped /\
  updateTimeoutRef (handleStopGenerate stopped) = None /\
  isGenerating (handleStopGenerate stopped) = false /\
  results (flushUpdates stopped) = results stopped /\
  results (failed stopped) = results stopped.
Proof.
  intros stopped.
  assert (H2 : results (handleStopGenerate stopped) = results stopped).
  { rewrite (handleStopGenerate_results stopped).
    exact (stopped_results_twice s). }
  split; [exact H2|]. split.
  { rewrite !handleStopGenerate_chatPageResults, H2. reflexivity. }
  split; [reflexivity|]. split; [reflexivity|]. split.
  - rewrite flushUpdates_results. unfold stopped.
    rewrite handleStopGenerate_updateBuffer, handleStopGenerate_results.
    apply list_eq. intros i. rewrite apply_updates_lookup, !list_lookup_imap.
    destruct (results s !! i) as [r|]; [|reflexivity]. cbn.
    unfold stopped_result. destruct (updateBuffer s !! i); reflexivity.
  - rewrite failed_results. apply map_loaded_id, handleStopGenerate_loaded.
Qed.

(** ** The saved snapshot *)

Section Restored.

Import ChatPageStorage.

Lemma completed_fold (l : list GeneratedResult) :
  forall (g : nat -> nat) (acc : gset nat) j,
  j ∈ foldl (fun completed '(index, result) =>
               if hasContent result then {[index]} ∪ completed else completed)
            acc (imap (fun i r => (g i, r)) l) <->
  j ∈ acc \/ exists i r, l !! i = Some r /\ hasContent r = true /\ j = g i.
Proof.
  induction l as [|r l IH]; intros g acc j.
  - cbn. split; [auto|]. intros [H|(i & r & H & _)]; [exact H|].
    rewrite lookup_nil in H. discriminate.
  - rewrite imap_cons. cbn [foldl].
    rewrite (IH (g ∘ S)). split.
    + intros [H|(i & r' & Hl & Hc & ->)].
      * destruct (hasContent r) eqn:E; [|left; exact H].
        apply elem_of_union in H as [H|H]; [|left; exact H].
        apply elem_of_singleton in H. right. exists 0%nat, r. auto.
      * right. exists (S i), r'. auto.
    + intros [H|(i & r' & Hl & Hc & ->)].
      * left. destruct (hasContent r); [|exact H].
        apply elem_of_union. right. exact H.
      * destruct i as [|i].
        -- cbn in Hl. injection Hl as ->. left. rewrite Hc.
           apply elem_of_union. left. apply elem_of_singleton. reflexivity.
        -- right. exists i, r'. auto.
Qed.

Lemma initial_completedIndexes_elem saved j :
  j ∈ initial_completedIndexes saved <->
  exists l r, saved = Some l /\ l !! j = Some r /\ hasContent r = true.
Proof.
  unfold initial_completedIndexes. destruct saved as [l|].
  - change (imap pair l) with (imap (fun i r => (Datatypes.id i, r)) l).
    rewrite completed_fold. split.
    + intros [H|(i & r & Hl & Hc & ->)]; [apply elem_of_empty in H; contradiction|].
      exists l, r. auto.
    + intros (l' & r & [= <-] & Hl & Hc). right. exists j, r. auto.
  - split; [intros H; apply elem_of_empty in H; contradiction|].
    intros (l & r & H & _). discriminate.
Qed.

Lemma hasContent_spec r :
  hasContent r = true <-> isLoading r = false /\ content r <> [].
Proof.
  unfold hasContent. rewrite andb_true_iff, negb_true_iff.
  destruct (content r); cbn; split; intros [H1 H2]; split; congruence.
Qed.

Lemma mount_cases saved pending generating t :
  let s := mount saved pending generating t in
  (results s = [] /\ chatPageResults s = None /\ completedIndexes s = ∅) \/
  (saved = Some (results s) /\ length (results s) = totalCount /\
   chatPageResults s = saved /\
   completedIndexes s = initial_completedIndexes saved).
Proof.
  unfold mount, initial_results. destruct saved as [parsed|]; [|left; auto].
  destruct (Nat.eqb_spec (length parsed) 8) as [E|E]; cbn [negb].
  - right. cbn. auto.
  - left. cbn. auto.
Qed.

Lemma mount_completedIndexes saved pending generating t i :
  let s := mount saved pending generating t in
  i ∈ completedIndexes s <->
  exists r, results s !! i = Some r /\ isLoading r = false /\ content r <> [].
Proof.
  intros s.
  destruct (mount_cases saved pending generating t)
    as [(Hr & _ & Hc)|(Hs & _ & _ & Hc)];
    fold s in Hr || fold s in Hs; fold s in Hc; rewrite Hc.
  - rewrite Hr. split; [intros H; apply elem_of_empty in H; contradiction|].
    intros (r & H & _). rewrite lookup_nil in H. discriminate.
  - rewrite initial_completedIndexes_elem. split.
    + intros (l & r & Hl & Hi & Hh). rewrite Hs in Hl. injection Hl as <-.
      exists r. split; [exact Hi|]. apply hasContent_spec, Hh.
    + intros (r & Hi & Hh). exists (results s), r.
      split; [exact Hs|]. split; [exact Hi|]. apply hasContent_spec, Hh.
Qed.

End Restored.

(** X13. When [ChatPage] mounts, the results are the saved
    snapshot if there is one and it has eight results, and the snapshot is
    kept; else there are no results and no snapshot is left. The pending map
    and the flag of the global state are taken over. The completed indices
    are exactly the indices of the results that are not loading and have
    content, so there are at most as many as results. *)
Theorem restored_state_is_consistent
    (saved : option (list GeneratedResult)) (pending : gmap nat jsstring)
    (generating : bool) (t : Z) :
  let s := ChatPageStorage.mount saved pending generating t in
  results s =
    match saved with
    | Some l => if (length l =? totalCount)%nat then l else []
    | None => []
    end /\
  chatPageResults s =
    match saved with
    | Some l => if (length l =? totalCount)%nat then Some l else None
    | None => None
    end /\
  updateBuffer s = pending /\
  isGenerating s = generating /\
  (results s = [] \/ length (results s) = totalCount) /\
  chatPageResults s = (if results s is [] then None else Some (results s)) /\
  (forall i, i ∈ completedIndexes s <->
             exists r, results s !! i = Some r /\
                       isLoading r = false /\ content r <> []) /\
  (size (completedIndexes s) <= length (results s))%nat.
Proof.
  intros s.
  assert (Hmem : forall i, i ∈ completedIndexes s <->
                   exists r, results s !! i = Some r /\
                             isLoading r = false /\ content r <> [])
    by (intros i; apply mount_completedIndexes).
  assert (Hin : results s =
                  match saved with
                  | Some l => if (length l =? totalCount)%nat then l else []
                  | None => []
                  end /\
                chatPageResults s =
                  match saved with
                  | Some l => if (length l =? totalCount)%nat then Some l else None
                  | None => None
                  end).
  { unfold s, ChatPageStorage.mount, ChatPageStorage.initial_results.
    destruct saved as [l|]; [|auto].
    change 8%nat with totalCount.
    destruct (length l =? totalCount)%nat; cbn; auto. }
  destruct Hin as [Hin1 Hin2].
  split; [exact Hin1|]. split; [exact Hin2|].
  split; [unfold s, ChatPageStorage.mount;
          destruct (ChatPageStorage.initial_results saved); reflexivity|].
  split; [unfold s, ChatPageStorage.mount;
          destruct (ChatPageStorage.initial_results saved); reflexivity|].
  split; [|split; [|split; [exact Hmem|]]].
  - destruct (mount_cases saved pending generating t) as [(Hr & _)|(_ & Hl & _)];
      [left; exact Hr | right; exact Hl].
  - destruct (mount_cases saved pending generating t) as [(Hr & Hc & _)|(Hs & Hl & Hc & _)];
      fold s in Hr || fold s in Hs; fold s in Hc.
    + rewrite Hr. exact Hc.
    + rewrite Hc, Hs. fold s in Hl.
      destruct (results s); [discriminate | reflexivity].
  - assert (Hsub : completedIndexes s ⊆ list_to_set (seq 0 (length (results s)))).
    { intros i Hi. apply Hmem in Hi as (r & Hr & _).
      apply elem_of_list_to_set, elem_of_seq. apply lookup_lt_Some in Hr. lia. }
    apply subseteq_size in Hsub.
    rewrite size_list_to_set, length_seq in Hsub by apply NoDup_seq. exact Hsub.
Qed.

(** X14. After any progress calls, timeouts and renders of a run
    of [handleGenerate], the snapshot that its flushes have saved, when there
    is one, is the eight results that the page shows: a page that mounts from
    it has these results, leaves the snapshot as it is, and counts as
    completed the results that have content. It has no results when nothing
    has been saved yet. The effect that saves the results writes the same
    snapshot. *)
Theorem reload_restores_what_was_saved (s0 : page) (trace : list (Z * action))
    (pending : gmap nat jsstring) (generating : bool) (t : Z) :
  let s := run onProgress (start s0) trace in
  let reloaded := ChatPageStorage.mount (chatPageResults s) pending generating t in
  results reloaded = (if chatPageResults s is Some _ then results s else []) /\
  chatPageResults reloaded = chatPageResults s /\
  (forall i, i ∈ completedIndexes reloaded <->
             exists r, results reloaded !! i = Some r /\
                       isLoading r = false /\ content r <> []) /\
  chatPageResults (save_effect s) = Some (results s).
Proof.
  intros s reloaded.
  assert (Hlen : length (results s) = totalCount).
  { unfold s. rewrite (run_length onProgress onProgress_length). reflexivity. }
  split; [|split; [|split]].
  - destruct (run_saved trace (start s0) (or_introl eq_refl)) as [H|H];
      fold s in H; unfold reloaded; rewrite H; [reflexivity|].
    unfold ChatPageStorage.mount, ChatPageStorage.initial_results.
    rewrite Hlen. reflexivity.
  - destruct (run_saved trace (start s0) (or_introl eq_refl)) as [H|H];
      fold s in H; unfold reloaded; rewrite H; [reflexivity|].
    unfold ChatPageStorage.mount, ChatPageStorage.initial_results.
    rewrite Hlen. reflexivity.
  - intros i. apply mount_completedIndexes.
  - unfold save_effect. rewrite Hlen. reflexivity.
Qed.

(** ** The button that continues *)

Section Continue.

Import ChatPageStorage.

Lemma full_set (C : gset nat) n :
  (forall i, i ∈ C -> (i < n)%nat) -> size C = n ->
  forall i, (i < n)%nat -> i ∈ C.
Proof.
  intros Hsub Hsize i Hi.
  assert (Hs : C ⊆ list_to_set (seq 0 n)).
  { intros j Hj. apply elem_of_list_to_set, elem_of_seq. apply Hsub in Hj. lia. }
  assert (Hfull : size (list_to_set (seq 0 n) : gset nat) = n).
  { rewrite size_list_to_set by apply NoDup_seq. apply length_seq. }
  assert (E : C = list_to_set (seq 0 n)).
  { apply set_eq. apply set_subseteq_size_equiv; [exact Hs|]. rewrite Hfull. lia. }
  rewrite E. apply elem_of_list_to_set, elem_of_seq. lia.
Qed.

End Continue.

(** X15. When the button that continues is shown on a page that
    has just mounted, there are eight results, every one of them has content
    and is not loading, [handleContinueGenerate] does start a run, and none of
    the contexts it sends is empty. *)
Theorem continue_button_means_all_have_content
    (saved : option (list GeneratedResult)) (pending : gmap nat jsstring)
    (generating isContinuing : bool) (t : Z) :
  let s := ChatPageStorage.mount saved pending generating t in
  ChatPageStorage.continue_button isContinuing s = true ->
  length (results s) = totalCount /\
  Forall (fun r => isLoading r = false /\ content r <> []) (results s) /\
  ChatPageStorage.can_continue isContinuing s = true /\
  Forall (fun c => c <> []) (contexts_of (results s)).
Proof.
  intros s Hb. unfold ChatPageStorage.continue_button in Hb.
  apply andb_true_iff in Hb as [Hb Hsize].
  apply andb_true_iff in Hb as [Hb Hcont].
  apply andb_true_iff in Hb as [Hlen Hgen].
  apply Nat.ltb_lt in Hlen. apply Nat.eqb_eq in Hsize.
  apply negb_true_iff in Hgen, Hcont.
  assert (Hl : length (results s) = totalCount).
  { destruct (mount_cases saved pending generating t) as [(Hr & _)|(_ & Hl & _)];
      fold s in Hr || fold s in Hl; [|exact Hl].
    rewrite Hr in Hlen. cbn in Hlen. lia. }
  assert (Hall : forall i, (i < totalCount)%nat ->
            exists r, results s !! i = Some r /\
                      isLoading r = false /\ content r <> []).
  { intros i Hi. apply mount_completedIndexes.
    apply (full_set _ totalCount); [|exact Hsize|exact Hi].
    intros j Hj. apply mount_completedIndexes in Hj as (r & Hr & _).
    fold s in Hr. apply lookup_lt_Some in Hr. lia. }
  assert (Hres : Forall (fun r => isLoading r = false /\ content r <> [])
                        (results s)).
  { apply Forall_lookup. intros i r Hr.
    assert (Hi : (i < totalCount)%nat) by (apply lookup_lt_Some in Hr; lia).
    destruct (Hall i Hi) as (r' & Hr' & H). fold s in Hr'.
    rewrite Hr in Hr'. injection Hr' as <-. exact H. }
  split; [exact Hl|]. split; [exact Hres|]. split.
  - unfold ChatPageStorage.can_continue. rewrite Hgen, Hcont.
    destruct (results s) as [|r rs] eqn:E; [cbn in Hl; discriminate|].
    apply Forall_cons in Hres as [[Hr1 Hr2] _]. cbn [existsb].
    rewrite Hr1. destruct (content r); [contradiction|]. reflexivity.
  - unfold contexts_of. apply Forall_fmap.
    eapply Forall_impl; [exact Hres|]. cbn. tauto.
Qed.

Lemma continue_button_means_all_have_content_witness :
  let saved := Some (map (fun i => Scenario.shown i (lit "text")) (seq 0 8)) in
  let s := ChatPageStorage.mount saved ∅ false 0 in
  length (results s) = totalCount /\
  Forall (fun r => isLoading r = false /\ content r <> []) (results s) /\
  ChatPageStorage.can_continue false s = true /\
  Forall (fun c => c <> []) (contexts_of (results s)).
Proof.
  apply (continue_button_means_all_have_content
           (Some (map (fun i => Scenario.shown i (lit "text")) (seq 0 8)))
           ∅ false false 0).
  vm_compute. reflexivity.
Defined.

(** * The configuration of the server *)

(** ** Facts about [trim] *)

Section Trim.

(** No white space at the start. *)
Local Abbreviation lead s :=
  (match s with [] => true | c :: _ => negb (is_space c) end).

Lemma trimStart_lead s : lead (trimStart s) = true.
Proof.
  induction s as [|c s IH]; [reflexivity|]. cbn [trimStart].
  destruct (is_space c) eqn:E; [exact IH|]. cbn. rewrite E. reflexivity.
Qed.

Lemma trimStart_fixed s : lead s = true -> trimStart s = s.
Proof.
  destruct s as [|c s]; [reflexivity|]. cbn [trimStart]. intros H.
  apply negb_true_iff in H. rewrite H. reflexivity.
Qed.

Lemma trimStart_cases s :
  trimStart s = [] \/ exists b, s = b ++ trimStart s /\ trimStart s <> [].
Proof.
  induction s as [|c s IH]; [left; reflexivity|]. cbn [trimStart].
  destruct (is_space c).
  - destruct IH as [IH|(b & Hb & Hne)]; [left; exact IH|].
    right. exists (c :: b). split; [|exact Hne]. cbn. rewrite <- Hb. reflexivity.
  - right. exists []. split; [reflexivity | discriminate].
Qed.

Lemma rev_lead_suffix (b t : jsstring) :
  t <> [] -> lead (rev (b ++ t)) = lead (rev t).
Proof.
  intros Ht. rewrite rev_app_distr.
  destruct (rev t) as [|c r] eqn:E; [|reflexivity].
  apply (f_equal (@rev N)) in E. rewrite rev_involutive in E. contradiction.
Qed.

Lemma trim_lead s : lead (trim s) = true.
Proof.
  unfold trim. set (u := trimStart s).
  destruct (trimStart_cases (rev u)) as [E|(b & Hb & Hne)].
  - rewrite E. reflexivity.
  - rewrite <- (rev_lead_suffix b _ Hne), <- Hb, rev_involutive.
    apply trimStart_lead.
Qed.

Lemma trim_rev_lead s : lead (rev (trim s)) = true.
Proof. unfold trim. rewrite rev_involutive. apply trimStart_lead. Qed.

Lemma trim_fixed s : lead s = true -> lead (rev s) = true -> trim s = s.
Proof.
  intros H1 H2. unfold trim.
  rewrite (trimStart_fixed s H1), (trimStart_fixed (rev s) H2).
  apply rev_involutive.
Qed.

Lemma trim_idempotent s : trim (trim s) = trim s.
Proof. apply trim_fixed; [apply trim_lead | apply trim_rev_lead]. Qed.

Lemma trimStart_blank s :
  Forall (fun c => is_space c = true) s -> trimStart s = [].
Proof.
  induction 1 as [|c s Hc _ IH]; [reflexivity|]. cbn [trimStart].
  rewrite Hc. exact IH.
Qed.

Lemma trim_blank s : Forall (fun c => is_space c = true) s -> trim s = [].
Proof. intros H. unfold trim. rewrite (trimStart_blank s H). reflexivity. Qed.

Lemma trimStart_nil s :
  trimStart s = [] -> Forall (fun c => is_space c = true) s.
Proof.
  induction s as [|c s IH]; [constructor|]. cbn [trimStart].
  destruct (is_space c) eqn:E; [|discriminate].
  intros H. constructor; [exact E | exact (IH H)].
Qed.

Lemma trim_nil s : trim s = [] -> Forall (fun c => is_space c = true) s.
Proof.
  unfold trim. intros H.
  apply (f_equal (@rev N)) in H. rewrite rev_involutive in H. cbn in H.
  apply trimStart_nil in H.
  destruct (trimStart_cases s) as [E|(b & Hb & Hne)];
    [apply trimStart_nil, E|].
  exfalso. destruct (trimStart s) as [|c t] eqn:Et; [congruence|].
  pose proof (trimStart_lead s) as Hl. rewrite Et in Hl. cbn in Hl.
  apply Forall_rev in H. rewrite rev_involutive in H.
  apply Forall_cons in H as [Hc _]. rewrite Hc in Hl. discriminate.
Qed.

(** A trimmed text with a prefix that starts with a letter is trimmed. *)
Lemma trim_prefixed (p t : jsstring) :
  lead p = true -> p <> [] -> t <> [] -> trim t = t -> trim (p ++ t) = p ++ t.
Proof.
  intros Hp Hne Ht Htrim. apply trim_fixed.
  - destruct p; [contradiction | exact Hp].
  - rewrite (rev_lead_suffix p t Ht), <- Htrim. apply trim_rev_lead.
Qed.

Lemma startsWith_app p s : startsWith p (p ++ s) = true.
Proof.
  induction p as [|a p IH]; [reflexivity|]. cbn. rewrite N.eqb_refl. exact IH.
Qed.

End Trim.

(** ** The dialog *)

Section Dialog.

Import AuthDialog.

Lemma truthy_nil s : truthy s = false <-> s = [].
Proof. destruct s; cbn; split; congruence. Qed.

Lemma handleSubmit_accepts f :
  trim (apiUrl f) <> [] -> trim (password f) <> [] ->
  handleSubmit f =
  (setError [] f, Some (finalUrl (apiUrl f), trim (password f))).
Proof.
  intros Hu Hp. unfold handleSubmit. cbn [setError apiUrl password].
  destruct (truthy (trim (apiUrl f))) eqn:Eu;
    [|apply truthy_nil in Eu; contradiction].
  destruct (truthy (trim (password f))) eqn:Ep;
    [|apply truthy_nil in Ep; contradiction].
  reflexivity.
Qed.

Lemma handleSubmit_refuses f :
  trim (apiUrl f) = [] \/ trim (password f) = [] ->
  handleSubmit f =
  (setError (if truthy (trim (apiUrl f)) then enter_password else enter_apiUrl) f,
   None).
Proof.
  intros H. unfold handleSubmit. cbn [setError apiUrl password].
  destruct (truthy (trim (apiUrl f))) eqn:Eu; [|reflexivity].
  destruct H as [H|H]; [rewrite H in Eu; discriminate|].
  rewrite H. reflexivity.
Qed.

Lemma handleSubmit_inv f f' url pw :
  handleSubmit f = (f', Some (url, pw)) ->
  trim (apiUrl f) <> [] /\ trim (password f) <> [].
Proof.
  unfold handleSubmit. cbn [setError apiUrl password].
  destruct (truthy (trim (apiUrl f))) eqn:Eu; [|discriminate].
  destruct (truthy (trim (password f))) eqn:Ep; [|discriminate].
  intros _. split; intros E; rewrite E in *; discriminate.
Qed.

Lemma finalUrl_normalised u :
  trim u <> [] ->
  (startsWith (lit "http://") (finalUrl u) = true \/
   startsWith (lit "https://") (finalUrl u) = true) /\
  trim (finalUrl u) = finalUrl u /\ finalUrl u <> [].
Proof.
  intros Hne. unfold finalUrl.
  destruct (startsWith (lit "http://") (trim u)) eqn:E1; cbn [negb andb].
  - split; [left; exact E1 | split; [apply trim_idempotent | exact Hne]].
  - destruct (startsWith (lit "https://") (trim u)) eqn:E2; cbn [negb].
    + split; [right; exact E2 | split; [apply trim_idempotent | exact Hne]].
    + split; [left; apply startsWith_app|]. split; [|discriminate].
      apply trim_prefixed;
        [reflexivity | discriminate | exact Hne | apply trim_idempotent].
Qed.

(** An address that is normalised is submitted as it is. *)
Lemma finalUrl_fixed u :
  (startsWith (lit "http://") u = true \/ startsWith (lit "https://") u = true) ->
  trim u = u -> finalUrl u = u.
Proof.
  intros Hs Ht. unfold finalUrl. rewrite Ht.
  destruct Hs as [E|E]; rewrite E; cbn [negb andb]; [reflexivity|].
  rewrite andb_false_r. reflexivity.
Qed.

End Dialog.

(** X16. What [AuthDialog] submits is normalised: the address
    starts with [http://] or [https://] and has no white space around it, the
    password is the trimmed password and is not empty, the error message is
    cleared, and submitting the submitted values again submits them as they
    are. *)
Theorem submitted_url_is_normalised (f f' : AuthDialog.form)
    (url pw : jsstring) :
  AuthDialog.handleSubmit f = (f', Some (url, pw)) ->
  (startsWith (lit "http://") url = true \/
   startsWith (lit "https://") url = true) /\
  trim url = url /\
  pw = trim (AuthDialog.password f) /\ pw <> [] /\
  AuthDialog.error f' = [] /\
  AuthDialog.handleSubmit
    {| AuthDialog.apiUrl := url; AuthDialog.password := pw;
       AuthDialog.showPassword := AuthDialog.showPassword f;
       AuthDialog.error := [] |} =
  ({| AuthDialog.apiUrl := url; AuthDialog.password := pw;
      AuthDialog.showPassword := AuthDialog.showPassword f;
      AuthDialog.error := [] |}, Some (url, pw)).
Proof.
  intros H. destruct (handleSubmit_inv _ _ _ _ H) as [Hu Hp].
  rewrite (handleSubmit_accepts f Hu Hp) in H.
  destruct (finalUrl_normalised (AuthDialog.apiUrl f) Hu)
    as (Hscheme & Htrim & Hne).
  injection H as <- <- <-.
  split; [exact Hscheme|]. split; [exact Htrim|].
  split; [reflexivity|]. split; [exact Hp|]. split; [reflexivity|].
  rewrite handleSubmit_accepts; cbn [AuthDialog.apiUrl AuthDialog.password].
  - rewrite (finalUrl_fixed _ Hscheme Htrim), trim_idempotent. reflexivity.
  - rewrite Htrim. exact Hne.
  - rewrite trim_idempotent. exact Hp.
Qed.

Lemma submitted_url_is_normalised_witness :
  let f := {| AuthDialog.apiUrl := lit "  192.168.0.82:8001/v1/chat/completions ";
              AuthDialog.password := lit " secret";
              AuthDialog.showPassword := false;
              AuthDialog.error := lit "old" |} in
  let url := lit "http://192.168.0.82:8001/v1/chat/completions" in
  let pw := lit "secret" in
  (startsWith (lit "http://") url = true \/
   startsWith (lit "https://") url = true) /\
  trim url = url /\
  pw = trim (AuthDialog.password f) /\ pw <> [] /\
  AuthDialog.error (AuthDialog.setError [] f) = [] /\
  AuthDialog.handleSubmit
    {| AuthDialog.apiUrl := url; AuthDialog.password := pw;
       AuthDialog.showPassword := false; AuthDialog.error := [] |} =
  ({| AuthDialog.apiUrl := url; AuthDialog.password := pw;
      AuthDialog.showPassword := false; AuthDialog.error := [] |},
   Some (url, pw)).
Proof.
  apply (submitted_url_is_normalised
           {| AuthDialog.apiUrl := lit "  192.168.0.82:8001/v1/chat/completions ";
              AuthDialog.password := lit " secret";
              AuthDialog.showPassword := false;
              AuthDialog.error := lit "old" |}).
  vm_compute. reflexivity.
Defined.

Section Blank.

Import AuthDialog.

Lemma forallb_space_trim s : forallb is_space s = true <-> trim s = [].
Proof.
  rewrite forallb_forall. split.
  - intros H. apply trim_blank, Forall_forall. intros c Hc.
    apply H, list_elem_of_In, Hc.
  - intros H c Hc. apply trim_nil in H. rewrite Forall_forall in H.
    apply H, list_elem_of_In, Hc.
Qed.

End Blank.

(** X17. [handleSubmit] of [AuthDialog] refuses a form whose
    address has only white space, with the message for the address, then one
    whose password has only white space, with the message for the password;
    it calls [onSubmit] in no other case, with the normalised address and the
    trimmed password. *)
Theorem blank_fields_are_refused (f : AuthDialog.form) :
  AuthDialog.handleSubmit f =
  if forallb is_space (AuthDialog.apiUrl f)
  then (AuthDialog.setError AuthDialog.enter_apiUrl f, None)
  else if forallb is_space (AuthDialog.password f)
  then (AuthDialog.setError AuthDialog.enter_password f, None)
  else (AuthDialog.setError [] f,
        Some (AuthDialog.finalUrl (AuthDialog.apiUrl f),
              trim (AuthDialog.password f))).
Proof.
  destruct (forallb is_space (AuthDialog.apiUrl f)) eqn:Eu.
  { apply forallb_space_trim in Eu.
    rewrite handleSubmit_refuses by (left; exact Eu). rewrite Eu. reflexivity. }
  assert (Hu : trim (AuthDialog.apiUrl f) <> []).
  { intros E. apply forallb_space_trim in E. congruence. }
  destruct (forallb is_space (AuthDialog.password f)) eqn:Ep.
  { apply forallb_space_trim in Ep.
    rewrite handleSubmit_refuses by (right; exact Ep).
    destruct (trim (AuthDialog.apiUrl f)); [contradiction | reflexivity]. }
  apply handleSubmit_accepts; [exact Hu|].
  intros E. apply forallb_space_trim in E. congruence.
Qed.

(** ** The saved configuration *)

Section SavedConfig.

Import AuthContext Service.

Variable JSON_parse : jsstring -> option AuthConfig.
Variable JSON_stringify : AuthConfig -> jsstring.
Variable PUBLIC_RWKV_API_URL : option jsstring.

Local Abbreviation fallback :=
  {| apiUrl := or_else PUBLIC_RWKV_API_URL []; password := [] |}.

Lemma getAuthConfig_saved ls :
  getAuthConfig JSON_parse PUBLIC_RWKV_API_URL ls =
  default fallback (saved_config JSON_parse ls).
Proof.
  unfold getAuthConfig, saved_config.
  destruct (getItem STORAGE_KEY ls) as [saved|]; [|reflexivity].
  destruct (truthy saved); [|reflexivity].
  destruct (JSON_parse saved); reflexivity.
Qed.

Lemma saved_config_login apiUrl password s :
  let config := {| apiUrl := apiUrl; password := password |} in
  JSON_parse (JSON_stringify config) = Some config ->
  JSON_stringify config <> [] ->
  saved_config JSON_parse (localStorage (login JSON_stringify apiUrl password s))
  = Some config.
Proof.
  intros config Hrt Hne. unfold saved_config, login, getItem, setItem.
  cbn [localStorage]. fold config. rewrite lookup_insert_eq.
  destruct (JSON_stringify config) eqn:E; [contradiction|].
  cbn [truthy]. exact Hrt.
Qed.

Lemma saved_config_logout s :
  saved_config JSON_parse (localStorage (logout s)) = None.
Proof.
  unfold saved_config, logout, getItem, removeItem. cbn [localStorage].
  rewrite lookup_delete_eq. reflexivity.
Qed.

Lemma saved_config_removeChatItems ls :
  saved_config JSON_parse (HomePage.removeChatItems ls) = saved_config JSON_parse ls.
Proof.
  unfold saved_config, HomePage.removeChatItems, getItem, removeItem.
  rewrite !lookup_delete_ne by discriminate. reflexivity.
Qed.

End SavedConfig.

(** X18. After [login], provided the configuration survives
    [JSON.stringify] and [JSON.parse], the provider is authenticated, a reload
    restores the same state from [localStorage], and [getAuthConfig] of the
    service returns the configuration that was logged in. *)
Theorem saved_login_is_what_the_service_reads
    (JSON_parse : jsstring -> option AuthConfig)
    (JSON_stringify : AuthConfig -> jsstring)
    (PUBLIC_RWKV_API_URL : option jsstring)
    (apiUrl password : jsstring) (s : AuthContext.provider) :
  let config := {| apiUrl := apiUrl; password := password |} in
  JSON_parse (JSON_stringify config) = Some config ->
  JSON_stringify config <> [] ->
  let s' := AuthContext.login JSON_stringify apiUrl password s in
  AuthContext.isAuthenticated s' = true /\
  AuthContext.AuthProvider JSON_parse (AuthContext.localStorage s') = s' /\
  Service.getAuthConfig JSON_parse PUBLIC_RWKV_API_URL
    (AuthContext.localStorage s') = config.
Proof.
  intros config Hrt Hne s'.
  pose proof (saved_config_login JSON_parse JSON_stringify apiUrl password s
                Hrt Hne) as Hsaved.
  fold s' config in Hsaved.
  split; [reflexivity|]. split.
  - unfold AuthContext.AuthProvider. rewrite Hsaved. reflexivity.
  - rewrite getAuthConfig_saved, Hsaved. reflexivity.
Qed.

Lemma saved_login_is_what_the_service_reads_witness :
  let config := {| apiUrl := lit "http://localhost:8001"; password := lit "secret" |} in
  let s' := AuthContext.login Fixture.JSON_stringify (lit "http://localhost:8001")
              (lit "secret") Fixture.signed_out in
  AuthContext.isAuthenticated s' = true /\
  AuthContext.AuthProvider Fixture.JSON_parse (AuthContext.localStorage s') = s' /\
  Service.getAuthConfig Fixture.JSON_parse None (AuthContext.localStorage s')
    = config.
Proof.
  apply (saved_login_is_what_the_service_reads Fixture.JSON_parse
           Fixture.JSON_stringify None (lit "http://localhost:8001")
           (lit "secret") Fixture.signed_out).
  - vm_compute. reflexivity.
  - vm_compute. discriminate.
Defined.

(** X19. The service and the provider read the saved
    configuration alike: [getAuthConfig] returns what [AuthProvider] restores,
    and the configuration of the environment, with an empty password, when it
    restores none. After [logout] a reload restores none, the application shows
    the dialog, and the service falls back. *)
Theorem service_and_provider_agree
    (JSON_parse : jsstring -> option AuthConfig)
    (PUBLIC_RWKV_API_URL : option jsstring)
    (ls : storage) (s : AuthContext.provider) :
  let fallback :=
    {| apiUrl := or_else PUBLIC_RWKV_API_URL []; password := [] |} in
  Service.getAuthConfig JSON_parse PUBLIC_RWKV_API_URL ls =
    default fallback
      (AuthContext.authConfig (AuthContext.AuthProvider JSON_parse ls)) /\
  AuthContext.AuthProvider JSON_parse
    (AuthContext.localStorage (AuthContext.logout s)) = AuthContext.logout s /\
  App.AppContent (AuthContext.logout s) = App.Dialog /\
  Service.getAuthConfig JSON_parse PUBLIC_RWKV_API_URL
    (AuthContext.localStorage (AuthContext.logout s)) = fallback.
Proof.
  intros fallback. split; [apply getAuthConfig_saved|].
  split; [|split; [reflexivity|]].
  - unfold AuthContext.AuthProvider. rewrite saved_config_logout. reflexivity.
  - rewrite getAuthConfig_saved, saved_config_logout. reflexivity.
Qed.

Section Submit.

Import AuthContext.

Lemma submit_accepted JSON_stringify f f' url pw s :
  AuthDialog.handleSubmit f = (f', Some (url, pw)) ->
  App.submit JSON_stringify f s = (f', login JSON_stringify url pw s).
Proof. intros H. unfold App.submit. rewrite H. reflexivity. Qed.

Lemma submit_refused JSON_stringify f f' s :
  AuthDialog.handleSubmit f = (f', None) ->
  App.submit JSON_stringify f s = (f', s).
Proof. intros H. unfold App.submit. rewrite H. reflexivity. Qed.

Lemma or_else_nonempty s : s <> [] -> or_else (Some s) [] = s.
Proof. destruct s; [contradiction | reflexivity]. Qed.

End Submit.

(** X20. From the dialog to the request: when a form with an
    address and a password is submitted in [App], the routes are shown, the
    context has the normalised address and the trimmed password, the service
    reads that configuration, and the request it sends carries the trimmed
    password. *)
Theorem submitted_form_configures_the_service
    (JSON_parse : jsstring -> option AuthConfig)
    (JSON_stringify : AuthConfig -> jsstring)
    (PUBLIC_RWKV_API_URL : option jsstring)
    (f : AuthDialog.form) (s : AuthContext.provider)
    (contents : list jsstring) (maxTokens : Z) :
  let url := AuthDialog.finalUrl (AuthDialog.apiUrl f) in
  let pw := trim (AuthDialog.password f) in
  let config := {| apiUrl := url; password := pw |} in
  forallb is_space (AuthDialog.apiUrl f) = false ->
  forallb is_space (AuthDialog.password f) = false ->
  JSON_parse (JSON_stringify config) = Some config ->
  JSON_stringify config <> [] ->
  let s' := snd (App.submit JSON_stringify f s) in
  App.AppContent s' = App.Routes /\
  AuthContext.context_apiUrl s' = url /\
  AuthContext.context_password s' = pw /\
  (startsWith (lit "http://") url = true \/
   startsWith (lit "https://") url = true) /\
  Service.getAuthConfig JSON_parse PUBLIC_RWKV_API_URL
    (AuthContext.localStorage s') = config /\
  body_password
    (request (Service.getAuthConfig JSON_parse PUBLIC_RWKV_API_URL
                (AuthContext.localStorage s')) contents maxTokens) = pw.
Proof.
  intros url pw config Hu Hp Hrt Hne s'.
  assert (Hu' : trim (AuthDialog.apiUrl f) <> []).
  { intros E. apply forallb_space_trim in E. congruence. }
  assert (Hp' : trim (AuthDialog.password f) <> []).
  { intros E. apply forallb_space_trim in E. congruence. }
  pose proof (handleSubmit_accepts f Hu' Hp') as Hsub.
  destruct (finalUrl_normalised (AuthDialog.apiUrl f) Hu')
    as (Hscheme & _ & Hurl).
  unfold s'. rewrite (submit_accepted JSON_stringify _ _ _ _ s Hsub).
  cbn [snd].
  pose proof (saved_config_login JSON_parse JSON_stringify url pw s Hrt Hne)
    as Hsaved.
  assert (Hcfg : Service.getAuthConfig JSON_parse PUBLIC_RWKV_API_URL
                   (AuthContext.localStorage
                      (AuthContext.login JSON_stringify url pw s)) = config).
  { rewrite getAuthConfig_saved, Hsaved. reflexivity. }
  split; [reflexivity|].
  split; [apply (or_else_nonempty url Hurl)|].
  split; [apply (or_else_nonempty pw Hp')|].
  split; [exact Hscheme|]. split; [exact Hcfg|].
  exact (f_equal password Hcfg).
Qed.

Lemma submitted_form_configures_the_service_witness :
  let url := lit "http://192.168.0.82:8001/v1/chat/completions" in
  let pw := lit "secret" in
  let config := {| apiUrl := url; password := pw |} in
  let s' := snd (App.submit Fixture.JSON_stringify Fixture.filled
                   Fixture.signed_out) in
  App.AppContent s' = App.Routes /\
  AuthContext.context_apiUrl s' = url /\
  AuthContext.context_password s' = pw /\
  (startsWith (lit "http://") url = true \/
   startsWith (lit "https://") url = true) /\
  Service.getAuthConfig Fixture.JSON_parse None (AuthContext.localStorage s')
    = config /\
  body_password
    (request (Service.getAuthConfig Fixture.JSON_parse None
                (AuthContext.localStorage s')) [lit "prompt"] 800) = pw.
Proof.
  apply (submitted_form_configures_the_service Fixture.JSON_parse
           Fixture.JSON_stringify None Fixture.filled Fixture.signed_out
           [lit "prompt"] 800).
  - vm_compute. reflexivity.
  - vm_compute. reflexivity.
  - vm_compute. reflexivity.
  - vm_compute. discriminate.
Defined.

(** ** The home page *)

Section Home.

Import AuthContext HomePage.

Lemma removeChatItems_lookup ls k :
  removeChatItems ls !! k =
  if bool_decide (k = "chatPageResults"%string \/ k = "chatPagePrompt"%string \/
                  k = "hasProcessedInitialMessage"%string)
  then None else ls !! k.
Proof.
  unfold removeChatItems, removeItem.
  destruct (bool_decide _) eqn:E.
  - apply bool_decide_eq_true in E.
    destruct E as [-> | [-> | ->]];
      rewrite ?lookup_delete_eq, ?lookup_delete_ne by discriminate;
      rewrite ?lookup_delete_eq; reflexivity.
  - apply bool_decide_eq_false in E.
    rewrite !lookup_delete_ne; [reflexivity|..]; intros <-; tauto.
Qed.

End Home.

(** X21. [handleSubmit] of [HomePage] does nothing for a text of
    white space only. For any other text it navigates with the text as it was
    typed, empties the input, removes the three items of [ChatPage] from
    [localStorage] and no other item, so the saved configuration is restored
    as before. *)
Theorem new_prompt_keeps_the_session
    (JSON_parse : jsstring -> option AuthConfig)
    (content : jsstring) (h : HomePage.home) :
  let h' := HomePage.handleSubmit content h in
  let ls := AuthContext.localStorage (HomePage.auth h) in
  let ls' := AuthContext.localStorage (HomePage.auth h') in
  if forallb is_space content then h' = h
  else
    HomePage.initialMessage h' = Some content /\
    HomePage.inputValue h' = [] /\
    ls' !! "chatPageResults"%string = None /\
    ls' !! "chatPagePrompt"%string = None /\
    ls' !! "hasProcessedInitialMessage"%string = None /\
    (forall k, k <> "chatPageResults"%string -> k <> "chatPagePrompt"%string ->
               k <> "hasProcessedInitialMessage"%string -> ls' !! k = ls !! k) /\
    AuthContext.AuthProvider JSON_parse ls' =
      {| AuthContext.authConfig :=
           AuthContext.authConfig (AuthContext.AuthProvider JSON_parse ls);
         AuthContext.localStorage := ls' |}.
Proof.
  intros h' ls ls'. unfold h', HomePage.handleSubmit in *.
  destruct (forallb is_space content) eqn:E.
  - apply forallb_space_trim in E. rewrite E. reflexivity.
  - assert (Ht : truthy (trim content) = true).
    { destruct (trim content) eqn:Et; [|reflexivity].
      apply forallb_space_trim in Et. congruence. }
    unfold ls'. rewrite Ht. cbn [HomePage.initialMessage HomePage.inputValue
      HomePage.auth AuthContext.localStorage].
    split; [reflexivity|]. split; [reflexivity|].
    rewrite !removeChatItems_lookup.
    split; [reflexivity|]. split; [reflexivity|]. split; [reflexivity|]. split.
    + intros k H1 H2 H3. rewrite removeChatItems_lookup.
      rewrite bool_decide_eq_false_2 by tauto. reflexivity.
    + unfold AuthContext.AuthProvider.
      rewrite saved_config_removeChatItems. reflexivity.
Qed.

(** X22. [handleClearCache], once confirmed, removes the saved
    configuration and the three items of [ChatPage] from [localStorage] and
    leaves every other item, and empties [sessionStorage]: a reload is not
    authenticated, the application shows the dialog, and the service falls
    back to the configuration of the environment. When it is not confirmed
    nothing changes. *)
Theorem clearing_the_cache_signs_out
    (JSON_parse : jsstring -> option AuthConfig)
    (PUBLIC_RWKV_API_URL : option jsstring) (h : HomePage.home) :
  let h' := HomePage.handleClearCache true h in
  let ls := AuthContext.localStorage (HomePage.auth h) in
  let ls' := AuthContext.localStorage (HomePage.auth h') in
  HomePage.handleClearCache false h = h /\
  App.AppContent (HomePage.auth h') = App.Dialog /\
  AuthContext.AuthProvider JSON_parse ls' = HomePage.auth h' /\
  Service.getAuthConfig JSON_parse PUBLIC_RWKV_API_URL ls' =
    {| apiUrl := or_else PUBLIC_RWKV_API_URL []; password := [] |} /\
  HomePage.sessionStorage h' = ∅ /\
  (forall k,
     ls' !! k =
     if bool_decide (k = AuthContext.STORAGE_KEY \/ k = "chatPageResults"%string \/
                     k = "chatPagePrompt"%string \/
                     k = "hasProcessedInitialMessage"%string)
     then None else ls !! k).
Proof.
  intros h' ls ls'. split; [reflexivity|].
  assert (Hsaved : AuthContext.saved_config JSON_parse ls' = None).
  { unfold ls', h', HomePage.handleClearCache.
    cbn [HomePage.auth AuthContext.localStorage].
    rewrite saved_config_removeChatItems. apply saved_config_logout. }
  split; [reflexivity|]. split.
  { unfold AuthContext.AuthProvider. rewrite Hsaved. reflexivity. }
  split.
  { rewrite getAuthConfig_saved, Hsaved. reflexivity. }
  split; [reflexivity|].
  intros k. unfold ls', h', HomePage.handleClearCache.
  cbn [HomePage.auth AuthContext.localStorage AuthContext.logout].
  rewrite removeChatItems_lookup. unfold removeItem.
  destruct (decide (k = AuthContext.STORAGE_KEY)) as [->|Hk].
  - rewrite lookup_delete_eq.
    rewrite (bool_decide_eq_true_2
               (AuthContext.STORAGE_KEY = AuthContext.STORAGE_KEY \/
                AuthContext.STORAGE_KEY = "chatPageResults"%string \/
                AuthContext.STORAGE_KEY = "chatPagePrompt"%string \/
                AuthContext.STORAGE_KEY = "hasProcessedInitialMessage"%string))
      by (left; reflexivity).
    destruct (bool_decide _); reflexivity.
  - rewrite lookup_delete_ne by congruence.
    destruct (bool_decide (k = "chatPageResults"%string \/
                           k = "chatPagePrompt"%string \/
                           k = "hasProcessedInitialMessage"%string)) eqn:E.
    + apply bool_decide_eq_true in E.
      rewrite bool_decide_eq_true_2 by (right; exact E). reflexivity.
    + apply bool_decide_eq_false in E.
      rewrite bool_decide_eq_false_2 by tauto. reflexivity.
Qed.

(** X23. A prompt submitted on the home page is generated,
    whatever was saved before: the snapshot is gone, so [ChatPage] mounts with
    no results and no completed index, its effect starts a generation with the
    text as it was typed, and the generation starts from the eight
    placeholders. *)
Theorem submitted_prompt_is_generated
    (JSON_parse : jsstring -> list GeneratedResult)
    (content : jsstring) (h : HomePage.home)
    (pending : gmap nat jsstring) (generating : bool) (t : Z) :
  forallb is_space content = false ->
  let h' := HomePage.handleSubmit content h in
  let saved :=
    ChatPageStorage.saved_results JSON_parse
      (AuthContext.localStorage (HomePage.auth h')) in
  let s := ChatPageStorage.mount saved pending generating t in
  saved = None /\
  results s = [] /\
  completedIndexes s = ∅ /\
  ChatPageStorage.initial_generation (HomePage.initialMessage h') s
    = Some content /\
  results (start s) = placeholders.
Proof.
  intros Hc h' saved s.
  assert (Ht : truthy (trim content) = true).
  { destruct (trim content) eqn:Et; [|reflexivity].
    apply forallb_space_trim in Et. congruence. }
  assert (Hs : saved = None).
  { unfold saved, h', HomePage.handleSubmit, ChatPageStorage.saved_results, getItem.
    rewrite Ht. cbn [HomePage.auth AuthContext.localStorage].
    rewrite removeChatItems_lookup. reflexivity. }
  split; [exact Hs|]. unfold s. rewrite Hs.
  split; [reflexivity|]. split; [reflexivity|]. split; [|reflexivity].
  unfold h', HomePage.handleSubmit. rewrite Ht.
  cbn [HomePage.initialMessage].
  unfold ChatPageStorage.initial_generation. cbn.
  destruct content as [|c0 content']; [discriminate | reflexivity].
Qed.

Lemma submitted_prompt_is_generated_witness :
  let h := {| HomePage.inputValue := lit "a storm";
              HomePage.auth :=
                {| AuthContext.authConfig := None;
                   AuthContext.localStorage :=
                     <["chatPageResults"%string := lit "[]"]> ∅ |};
              HomePage.sessionStorage := ∅;
              HomePage.initialMessage := None |} in
  let h' := HomePage.handleSubmit (lit "a storm") h in
  let saved :=
    ChatPageStorage.saved_results (fun _ => [])
      (AuthContext.localStorage (HomePage.auth h')) in
  let s := ChatPageStorage.mount saved ∅ false 0 in
  saved = None /\
  results s = [] /\
  completedIndexes s = ∅ /\
  ChatPageStorage.initial_generation (HomePage.initialMessage h') s
    = Some (lit "a storm") /\
  results (start s) = placeholders.
Proof.
  apply (submitted_prompt_is_generated (fun _ => []) (lit "a storm")
           {| HomePage.inputValue := lit "a storm";
              HomePage.auth :=
                {| AuthContext.authConfig := None;
                   AuthContext.localStorage :=
                     <["chatPageResults"%string := lit "[]"]> ∅ |};
              HomePage.sessionStorage := ∅;
              HomePage.initialMessage := None |} ∅ false 0).
  vm_compute. reflexivity.
Defined.

(** * The detail page *)

Section Detail.

Import ChatPageStorage DetailPage.

Lemma valid_nonempty c : valid c = true -> c <> [].
Proof. intros H E. rewrite E in H. discriminate. Qed.

Lemma or_else_default (x : option jsstring) d : d <> [] -> or_else x d <> [].
Proof.
  intros Hd. unfold or_else. destruct x as [[|c s]|]; cbn; auto.
Qed.

Lemma at_index_nat {A} (i : nat) (get : nat -> option A) :
  at_index (Int (Z.of_nat i)) get = get i.
Proof.
  unfold at_index. destruct (Z.leb_spec 0 (Z.of_nat i)); [|lia].
  rewrite Nat2Z.id. reflexivity.
Qed.

Lemma initialText_nonempty ri sc saved g : initialText ri sc saved g <> [].
Proof.
  unfold initialText. destruct ri as [ri|]; [|apply or_else_default; discriminate].
  destruct saved as [results|].
  - destruct (at_index ri (fun i => results !! i)) as [r|].
    + destruct (valid (ChatPage.content r)) eqn:E; [apply valid_nonempty, E|].
      destruct g as [g|]; [|discriminate].
      destruct (at_index ri _) as [c|]; [|discriminate].
      destruct (valid c) eqn:Ec; [apply valid_nonempty, Ec | discriminate].
    + destruct g as [g|]; [|discriminate].
      destruct (at_index ri _) as [c|]; [|discriminate].
      destruct (valid c) eqn:Ec; [apply valid_nonempty, Ec | discriminate].
  - destruct g as [g|]; [|discriminate].
    destruct (at_index ri _) as [c|]; [|discriminate].
    destruct (valid c) eqn:Ec; [apply valid_nonempty, Ec | discriminate].
Qed.

(** The content [handleOpenDetail] saves for a result. *)
Lemma handleOpenDetail_saved i s r :
  results s !! i = Some r -> isLoading r = false ->
  handleOpenDetail i s =
  (set_chatPageResults
     (Some (imap (fun i result =>
                    match ChatPage.updateBuffer s !! i with
                    | Some c => if truthy c then updated result c else result
                    | None => result
                    end) (results s))) s,
   Some (lit "/detail?index=" ++ lit (pretty i))).
Proof.
  intros Hr Hl. unfold handleOpenDetail. rewrite Hr, Hl. reflexivity.
Qed.

End Detail.

(** X24. The text a detail page starts with, and the text it has
    once its effect has run, is never empty. For an index that is [NaN] or
    negative it starts with the default text, whatever is saved or pending. *)
Theorem detail_page_never_starts_empty
    (resultIndex : option integer) (state_content : option jsstring)
    (saved : option (list GeneratedResult))
    (global : option DetailPage.globalState) (p : positive) :
  DetailPage.initialText resultIndex state_content saved global <> [] /\
  DetailPage.textContent
    (DetailPage.mounted resultIndex state_content saved global) <> [] /\
  DetailPage.initialText (Some NaN) state_content saved global
    = DetailPage.DEFAULT_TEXT /\
  DetailPage.initialText (Some (Int (Zneg p))) state_content saved global
    = DetailPage.DEFAULT_TEXT.
Proof.
  pose proof (initialText_nonempty resultIndex state_content saved global) as Hne.
  split; [exact Hne|]. split.
  - unfold DetailPage.mounted.
    destruct resultIndex as [ri|]; [|exact Hne].
    destruct global as [g|]; [|exact Hne].
    destruct (DetailPage.isGenerating g); [|exact Hne].
    cbn [DetailPage.textContent].
    destruct (at_index ri _) as [c|]; [|exact Hne].
    destruct c; [exact Hne | discriminate].
  - split; unfold DetailPage.initialText; cbn [at_index Z.leb Z.compare];
      destruct saved, global; reflexivity.
Qed.

(** X25. [handleOpenDetail] on a result that is not loading saves
    a snapshot that has the pending contents, leaves the results and the
    pending map as they are, and opens [/detail?index=i]. A detail page that
    starts from that snapshot, in a window of its own, shows the latest content
    of index [i]: the pending one when it is not empty, else the one of the
    result; or the default text when that content is empty or is the default
    text. *)
Theorem opened_detail_shows_latest (s : page) (i : nat) (r : GeneratedResult) :
  results s !! i = Some r ->
  isLoading r = false ->
  let s' := fst (ChatPageStorage.handleOpenDetail i s) in
  let latest :=
    match updateBuffer s !! i with
    | Some c => if truthy c then c else content r
    | None => content r
    end in
  snd (ChatPageStorage.handleOpenDetail i s) =
    Some (lit "/detail?index=" ++ lit (pretty i)) /\
  results s' = results s /\
  updateBuffer s' = updateBuffer s /\
  DetailPage.initialText (Some (Int (Z.of_nat i))) None (chatPageResults s') None
    = (if DetailPage.valid latest then latest else DetailPage.DEFAULT_TEXT).
Proof.
  intros Hr Hl s' latest. unfold s'.
  rewrite (handleOpenDetail_saved i s r Hr Hl). cbn [fst snd].
  split; [reflexivity|]. split; [reflexivity|]. split; [reflexivity|].
  unfold DetailPage.initialText. cbn [set_chatPageResults chatPageResults].
  rewrite at_index_nat, list_lookup_imap, Hr. cbn [fmap option_fmap option_map].
  assert (E : content (match updateBuffer s !! i with
                       | Some c => if truthy c then updated r c else r
                       | None => r
                       end) = latest).
  { unfold latest. destruct (updateBuffer s !! i) as [c|]; [|reflexivity].
    destruct (truthy c); reflexivity. }
  rewrite E. destruct (DetailPage.valid latest); reflexivity.
Qed.

Lemma opened_detail_shows_latest_witness :
  let s := run onProgress (start Scenario.idle) Scenario.trace_long in
  let s' := fst (ChatPageStorage.handleOpenDetail 0 s) in
  snd (ChatPageStorage.handleOpenDetail 0 s) = Some (lit "/detail?index=0") /\
  results s' = results s /\
  updateBuffer s' = updateBuffer s /\
  DetailPage.initialText (Some (Int 0)) None (chatPageResults s') None
    = replicate 101 97%N.
Proof.
  apply (opened_detail_shows_latest
           (run onProgress (start Scenario.idle) Scenario.trace_long) 0%nat
           {| id := lit "result-0"; content := replicate 101 97%N;
              isLoading := false |}).
  - vm_compute. reflexivity.
  - reflexivity.
Defined.

(** ** Messages *)

Section Messages.

Import DetailPage.

Lemma onmessage_other ri g v d :
  strict_eq (index d) ri = false -> onmessage ri g v d = v.
Proof.
  intros H. unfold onmessage. rewrite H, andb_false_r. reflexivity.
Qed.

Lemma strict_eq_NaN a : strict_eq a NaN = false.
Proof. destruct a as [[|z]|]; reflexivity. Qed.

Lemma onmessage_update i g v c :
  c <> [] ->
  onmessage (Int (Z.of_nat i)) g v
    {| type := lit "UPDATE_CONTENT"; index := Some (Int (Z.of_nat i));
       content := Some c |}
  = {| textContent := c; isLiveUpdating := true |}.
Proof.
  intros Hc. unfold onmessage. cbn [type index content strict_eq].
  rewrite Z.eqb_refl.
  replace (string_eqb (lit "UPDATE_CONTENT") (lit "INIT_DETAIL")) with false
    by (vm_compute; reflexivity).
  replace (string_eqb (lit "UPDATE_CONTENT") (lit "UPDATE_CONTENT")) with true
    by (vm_compute; reflexivity).
  cbn [andb negb]. destruct c; [contradiction | reflexivity].
Qed.

Lemma update_messages_other i g l : forall v,
  Forall (fun e => fst e <> i) l ->
  foldl (onmessage (Int (Z.of_nat i)) g) v (update_messages l) = v.
Proof.
  induction l as [|[j c] l IH]; intros v H; [reflexivity|].
  apply Forall_cons in H as [Hj H]. cbn [update_messages map foldl].
  rewrite onmessage_other.
  - apply (IH v H).
  - cbn. apply Z.eqb_neq. cbn in Hj. lia.
Qed.

Lemma update_messages_own i g c l : forall v,
  NoDup (map fst l) -> (i, c) ∈ l -> c <> [] ->
  foldl (onmessage (Int (Z.of_nat i)) g) v (update_messages l)
  = {| textContent := c; isLiveUpdating := true |}.
Proof.
  induction l as [|[j d] l IH]; intros v Hnd Hin Hc.
  - apply elem_of_nil in Hin. contradiction.
  - cbn [map fst] in Hnd. apply NoDup_cons in Hnd as [Hj Hnd].
    cbn [update_messages map foldl].
    apply elem_of_cons in Hin as [Hin|Hin].
    + injection Hin as <- <-.
      assert (E : forall v1,
                v1 = {| textContent := c; isLiveUpdating := true |} ->
                foldl (onmessage (Int (Z.of_nat i)) g) v1 (update_messages l)
                = {| textContent := c; isLiveUpdating := true |}).
      { intros v1 ->. apply update_messages_other. apply Forall_forall.
        intros [k e] Hk. cbn. intros ->. apply Hj.
        apply list_elem_of_fmap. exists (i, e). auto. }
      apply E. apply onmessage_update. exact Hc.
    + rewrite onmessage_other.
      * apply (IH v Hnd Hin Hc).
      * cbn. apply Z.eqb_neq. intros E. apply Nat2Z.inj in E. subst j.
        apply Hj. apply list_elem_of_fmap. exists (i, c). auto.
Qed.

(** A message that [ChatPage] posts makes the page live or leaves it as it
    is. *)
Lemma received_live ri g m d v :
  d ∈ received m ->
  isLiveUpdating v = true ->
  isLiveUpdating (onmessage ri g v d) = true.
Proof.
  intros Hd Hv. destruct m as [updates| |]; cbn [received] in Hd.
  - unfold update_messages in Hd.
    apply list_elem_of_fmap in Hd as ([j c] & -> & _).
    unfold onmessage. cbn [type index content].
    replace (string_eqb (lit "UPDATE_CONTENT") (lit "INIT_DETAIL")) with false
      by (vm_compute; reflexivity).
    replace (string_eqb (lit "UPDATE_CONTENT") (lit "UPDATE_CONTENT")) with true
      by (vm_compute; reflexivity).
    cbn [andb].
    destruct (negb _); [exact Hv|]. destruct (truthy c); [reflexivity|].
    replace (string_eqb (lit "UPDATE_CONTENT") (lit "GENERATION_COMPLETE"))
      with false by (vm_compute; reflexivity).
    replace (string_eqb (lit "UPDATE_CONTENT") (lit "GENERATION_ERROR"))
      with false by (vm_compute; reflexivity).
    exact Hv.
  - apply list_elem_of_singleton in Hd. subst d.
    rewrite onmessage_other by reflexivity. exact Hv.
  - apply list_elem_of_singleton in Hd. subst d.
    rewrite onmessage_other by reflexivity. exact Hv.
Qed.

End Messages.

(** X26. A detail page reacts only to messages that carry its
    own index: the messages for other indices, and those that carry none, can
    be left out without changing what the page ends with. A page whose index
    is [NaN] reacts to no message. *)
Theorem messages_for_other_indices_are_ignored
    (resultIndex : integer) (global : option DetailPage.globalState)
    (v : DetailPage.view) (ds : list DetailPage.data) :
  foldl (DetailPage.onmessage resultIndex global) v ds =
  foldl (DetailPage.onmessage resultIndex global) v
        (filter (fun d => strict_eq (DetailPage.index d) resultIndex = true) ds)
  /\ foldl (DetailPage.onmessage NaN global) v ds = v.
Proof.
  split.
  - revert v. induction ds as [|d ds IH]; intros v; [reflexivity|].
    rewrite filter_cons. cbn [foldl].
    destruct (decide (strict_eq (DetailPage.index d) resultIndex = true)) as [E|E].
    + cbn [foldl]. apply IH.
    + rewrite onmessage_other by (destruct (strict_eq _ _); congruence).
      apply IH.
  - revert v. induction ds as [|d ds IH]; intros v; [reflexivity|].
    cbn [foldl]. rewrite onmessage_other by apply strict_eq_NaN. apply IH.
Qed.

(** X27. No message that [ChatPage] posts switches the live
    indicator of a detail page off. [GENERATION_COMPLETE] and
    [GENERATION_ERROR] are posted without an index, so the page returns before
    it looks at their type; and an update makes the page live or leaves it as
    it is. *)
Theorem completion_broadcast_leaves_the_page_live
    (resultIndex : integer) (global : option DetailPage.globalState)
    (v : DetailPage.view) (ds : list DetailPage.data) :
  Forall (fun d => exists m, d ∈ DetailPage.received m) ds ->
  DetailPage.isLiveUpdating v = true ->
  foldl (DetailPage.onmessage resultIndex global) v
        (DetailPage.received GENERATION_COMPLETE) = v /\
  foldl (DetailPage.onmessage resultIndex global) v
        (DetailPage.received GENERATION_ERROR) = v /\
  DetailPage.isLiveUpdating
    (foldl (DetailPage.onmessage resultIndex global) v ds) = true.
Proof.
  intros Hds Hv. split; [|split].
  - cbn [DetailPage.received foldl]. apply onmessage_other. reflexivity.
  - cbn [DetailPage.received foldl]. apply onmessage_other. reflexivity.
  - revert v Hv. induction Hds as [|d ds [m Hd] _ IH]; intros v Hv; [exact Hv|].
    cbn [foldl]. apply IH. apply (received_live _ _ m); assumption.
Qed.

Lemma completion_broadcast_leaves_the_page_live_witness :
  let v := {| DetailPage.textContent := lit "ab";
              DetailPage.isLiveUpdating := true |} in
  let ds := DetailPage.update_messages [(0%nat, lit "abc")] ++
            DetailPage.received GENERATION_COMPLETE in
  foldl (DetailPage.onmessage (Int 0) None) v
        (DetailPage.received GENERATION_COMPLETE) = v /\
  foldl (DetailPage.onmessage (Int 0) None) v
        (DetailPage.received GENERATION_ERROR) = v /\
  DetailPage.isLiveUpdating
    (foldl (DetailPage.onmessage (Int 0) None) v ds) = true.
Proof.
  apply (completion_broadcast_leaves_the_page_live (Int 0) None
           {| DetailPage.textContent := lit "ab";
              DetailPage.isLiveUpdating := true |}
           (DetailPage.update_messages [(0%nat, lit "abc")] ++
            DetailPage.received GENERATION_COMPLETE)).
  - repeat constructor.
    + exists (UPDATE_CONTENT {[0%nat := lit "abc"]}).
      cbn [DetailPage.received]. rewrite map_to_list_singleton.
      apply list_elem_of_here.
    + exists GENERATION_COMPLETE. apply list_elem_of_here.
  - reflexivity.
Defined.

(** X28. A flush posts the pending map, and whatever the order of
    its messages, a detail page for index [i] that receives them shows the
    pending content of [i], when it is not empty, and is live. *)
Theorem flush_reaches_the_detail_page (s : page) (i : nat) (c : jsstring)
    (global : option DetailPage.globalState) (v : DetailPage.view)
    (l : list (nat * jsstring)) :
  updateBuffer s !! i = Some c ->
  c <> [] ->
  l ≡ₚ map_to_list (updateBuffer s) ->
  posted (flushUpdates s) = posted s ++ [UPDATE_CONTENT (updateBuffer s)] /\
  foldl (DetailPage.onmessage (Int (Z.of_nat i)) global) v
        (DetailPage.update_messages l)
  = {| DetailPage.textContent := c; DetailPage.isLiveUpdating := true |}.
Proof.
  intros Hc Hne Hl. split.
  - unfold flushUpdates.
    assert (E : (0 <? size (updateBuffer s))%nat = true).
    { apply Nat.ltb_lt.
      assert (updateBuffer s <> ∅)
        by (intros E; rewrite E, lookup_empty in Hc; discriminate).
      assert (size (updateBuffer s) <> 0%nat)
        by (rewrite map_size_empty_iff; assumption).
      lia. }
    rewrite E. reflexivity.
  - apply update_messages_own; [| |exact Hne].
    + rewrite Hl. apply NoDup_fst_map_to_list.
    + rewrite Hl. apply elem_of_map_to_list. exact Hc.
Qed.

Lemma flush_reaches_the_detail_page_witness :
  let s := run onProgress (start Scenario.idle) Scenario.trace_short in
  let v := {| DetailPage.textContent := DetailPage.DEFAULT_TEXT;
              DetailPage.isLiveUpdating := false |} in
  posted (flushUpdates s) = posted s ++ [UPDATE_CONTENT (updateBuffer s)] /\
  foldl (DetailPage.onmessage (Int 1) None) v
        (DetailPage.update_messages [(0%nat, lit "ab"); (1%nat, lit "cd")])
  = {| DetailPage.textContent := lit "cd"; DetailPage.isLiveUpdating := true |}.
Proof.
  apply (flush_reaches_the_detail_page
           (run onProgress (start Scenario.idle) Scenario.trace_short) 1%nat
           (lit "cd") None
           {| DetailPage.textContent := DetailPage.DEFAULT_TEXT;
              DetailPage.isLiveUpdating := false |}
           [(0%nat, lit "ab"); (1%nat, lit "cd")]).
  - vm_compute. reflexivity.
  - discriminate.
  - vm_compute. apply perm_swap.
Defined.

(** * The dialog that optimises a prompt *)

Section OptimizeDialog.

Import PromptOptimizeDialog.

(** No results, or the five results of a run, in their order. *)
Local Abbreviation shaped d :=
  (optimizedResults d = [] \/
   map id (optimizedResults d) = map id placeholders).

Lemma map_id_loaded rs : map id (map loaded rs) = map id rs.
Proof. rewrite map_map. reflexivity. Qed.

Lemma map_id_onResult index c rs :
  map id (imap (fun i result =>
                  if Z.of_nat i =? index
                  then {| id := id result; content := c; isLoading := false |}
                  else result) rs) = map id rs.
Proof.
  apply list_eq. intros i. rewrite !list_lookup_fmap, list_lookup_imap.
  destruct (rs !! i) as [r|]; [|reflexivity]. cbn.
  destruct (Z.of_nat i =? index); reflexivity.
Qed.

Lemma handle_shaped d e : shaped d -> shaped (handle d e).
Proof.
  intros H. destruct e as [p|v| |index c| | | |]; cbn [handle].
  - left. reflexivity.
  - exact H.
  - unfold handleStartOptimize. destruct (negb _); [exact H|].
    right. reflexivity.
  - cbn [onResult optimizedResults]. destruct H as [H|H].
    + left. rewrite H. reflexivity.
    + right. rewrite map_id_onResult. exact H.
  - exact H.
  - cbn [rejected optimizedResults]. destruct H as [H|H].
    + left. rewrite H. reflexivity.
    + right. rewrite map_id_loaded. exact H.
  - cbn [handleStopOptimize optimizedResults]. destruct H as [H|H].
    + left. rewrite H. reflexivity.
    + right. rewrite map_id_loaded. exact H.
  - left. reflexivity.
Qed.

Lemma handles_shaped events : forall d,
  shaped d -> shaped (foldl handle d events).
Proof.
  induction events as [|e events IH]; intros d H; [exact H|].
  cbn [foldl]. apply IH, handle_shaped, H.
Qed.

Lemma shaped_length d : shaped d -> (length (optimizedResults d) <= totalCount)%nat.
Proof.
  intros [H|H].
  - rewrite H. cbn. lia.
  - apply (f_equal (@length jsstring)) in H. rewrite !length_map in H.
    rewrite H. unfold placeholders. rewrite length_map, length_seq. lia.
Qed.

Lemma counts_bound (rs : list OptimizedResult) :
  (length (filter (fun r => isLoading r = true) rs) +
   length (filter (fun r => negb (isLoading r) && truthy (content r) = true) rs)
   <= length rs)%nat.
Proof.
  induction rs as [|r rs IH]; [cbn; lia|].
  rewrite !filter_cons.
  destruct (decide (isLoading r = true)) as [E|E].
  - rewrite E. cbn [negb andb].
    destruct (decide (false = true)); [discriminate|]. cbn [length]. lia.
  - destruct (decide (_ = true)); cbn [length]; lia.
Qed.

(** A result leaves no result loading that was not. *)
Lemma running_loaded rs :
  length (filter (fun r => isLoading r = true) (map loaded rs)) = 0%nat.
Proof.
  induction rs as [|r rs IH]; [reflexivity|]. cbn [map].
  rewrite filter_cons.
  destruct (decide (isLoading (loaded r) = true)) as [E|_]; [discriminate|].
  exact IH.
Qed.

Lemma running_onResult index c rs : forall k,
  (length (filter (fun r => isLoading r = true)
             (imap (fun i result =>
                      if (Z.of_nat (k + i) =? index)%Z
                      then {| id := id result; content := c; isLoading := false |}
                      else result) rs))
   <= length (filter (fun r => isLoading r = true) rs))%nat.
Proof.
  induction rs as [|r rs IH]; intros k; [cbn; lia|].
  rewrite imap_cons, !filter_cons.
  specialize (IH (S k)).
  assert (E : imap ((fun i result =>
                if (Z.of_nat (k + i) =? index)%Z
                then {| id := id result; content := c; isLoading := false |}
                else result) ∘ S) rs =
              imap (fun i result =>
                if (Z.of_nat (S k + i) =? index)%Z
                then {| id := id result; content := c; isLoading := false |}
                else result) rs).
  { apply imap_ext. intros i x _. cbn. replace (k + S i)%nat with (S (k + i)) by lia.
    reflexivity. }
  rewrite E.
  destruct (Z.of_nat (k + 0) =? index)%Z.
  - rewrite (decide_False (P := isLoading _ = true)) by (cbn; discriminate).
    destruct (decide (isLoading r = true)); cbn [length]; lia.
  - destruct (decide (isLoading r = true)); cbn [length]; lia.
Qed.

Lemma running_handle d e :
  e <> Start -> (runningTaskCount (handle d e) <= runningTaskCount d)%nat.
Proof.
  intros He. unfold runningTaskCount.
  destruct e as [p|v| |index c| | | |]; cbn [handle]; try contradiction.
  - cbn. lia.
  - cbn. lia.
  - cbn [onResult optimizedResults]. apply (running_onResult index c _ 0).
  - cbn. lia.
  - cbn [rejected optimizedResults]. rewrite running_loaded. lia.
  - cbn [handleStopOptimize optimizedResults]. rewrite running_loaded. lia.
  - cbn. lia.
Qed.

Lemma running_handles events : forall d,
  Forall (fun e => e <> Start) events ->
  (runningTaskCount (foldl handle d events) <= runningTaskCount d)%nat.
Proof.
  induction events as [|e events IH]; intros d H; [cbn; lia|].
  apply Forall_cons in H as [He H]. cbn [foldl].
  specialize (IH (handle d e) H). pose proof (running_handle d e He). lia.
Qed.

End OptimizeDialog.

(** X29. Whatever happens to the dialog that optimises a prompt,
    starting with no results, there are no results or the five results
    [optimize-0] to [optimize-4] in this order, and the running and the
    completed tasks together are at most five. *)
Theorem optimized_results_keep_their_shape
    (d0 : PromptOptimizeDialog.dialog)
    (events : list PromptOptimizeDialog.event) :
  PromptOptimizeDialog.optimizedResults d0 = [] ->
  let d := foldl PromptOptimizeDialog.handle d0 events in
  (PromptOptimizeDialog.optimizedResults d = [] \/
   map PromptOptimizeDialog.id (PromptOptimizeDialog.optimizedResults d) =
   map (fun i => lit "optimize-" ++ lit (pretty i))
       (seq 0 PromptOptimizeDialog.totalCount)) /\
  (PromptOptimizeDialog.runningTaskCount d +
   PromptOptimizeDialog.completedTaskCount d
   <= PromptOptimizeDialog.totalCount)%nat.
Proof.
  intros H0 d.
  assert (Hs : PromptOptimizeDialog.optimizedResults d = [] \/
               map PromptOptimizeDialog.id (PromptOptimizeDialog.optimizedResults d) =
               map PromptOptimizeDialog.id PromptOptimizeDialog.placeholders).
  { apply handles_shaped. left. exact H0. }
  split.
  - destruct Hs as [Hs|Hs]; [left; exact Hs|]. right. rewrite Hs.
    unfold PromptOptimizeDialog.placeholders. rewrite map_map. reflexivity.
  - pose proof (shaped_length d Hs).
    pose proof (counts_bound (PromptOptimizeDialog.optimizedResults d)).
    unfold PromptOptimizeDialog.runningTaskCount,
      PromptOptimizeDialog.completedTaskCount. lia.
Qed.

Lemma optimized_results_keep_their_shape_witness :
  let d := foldl PromptOptimizeDialog.handle Fixture.closed
             [PromptOptimizeDialog.Start;
              PromptOptimizeDialog.Result 1 (lit "x");
              PromptOptimizeDialog.Result 7 (lit "y");
              PromptOptimizeDialog.Resolved] in
  (PromptOptimizeDialog.optimizedResults d = [] \/
   map PromptOptimizeDialog.id (PromptOptimizeDialog.optimizedResults d) =
   map (fun i => lit "optimize-" ++ lit (pretty i))
       (seq 0 PromptOptimizeDialog.totalCount)) /\
  (PromptOptimizeDialog.runningTaskCount d +
   PromptOptimizeDialog.completedTaskCount d
   <= PromptOptimizeDialog.totalCount)%nat.
Proof.
  apply (optimized_results_keep_their_shape Fixture.closed
           [PromptOptimizeDialog.Start;
            PromptOptimizeDialog.Result 1 (lit "x");
            PromptOptimizeDialog.Result 7 (lit "y");
            PromptOptimizeDialog.Resolved]).
  reflexivity.
Defined.

(** X30. After a stop, a failure or a close of the dialog, no task
    is running, and no result that arrives late makes one run again: only a
    new start does. *)
Theorem stopped_optimization_shows_no_spinner
    (d : PromptOptimizeDialog.dialog) (e : PromptOptimizeDialog.event)
    (events : list PromptOptimizeDialog.event) :
  e = PromptOptimizeDialog.Stop \/ e = PromptOptimizeDialog.Rejected \/
  e = PromptOptimizeDialog.Close ->
  Forall (fun e' => e' <> PromptOptimizeDialog.Start) events ->
  let d' := foldl PromptOptimizeDialog.handle
              (PromptOptimizeDialog.handle d e) events in
  PromptOptimizeDialog.runningTaskCount d' = 0%nat /\
  PromptOptimizeDialog.isOptimizing (PromptOptimizeDialog.handle d e) = false.
Proof.
  intros He Hev d'.
  assert (H0 : PromptOptimizeDialog.runningTaskCount
                 (PromptOptimizeDialog.handle d e) = 0%nat /\
               PromptOptimizeDialog.isOptimizing
                 (PromptOptimizeDialog.handle d e) = false).
  { destruct He as [-> | [-> | ->]]; cbn [PromptOptimizeDialog.handle];
      unfold PromptOptimizeDialog.runningTaskCount; cbn;
      rewrite ?running_loaded; auto. }
  destruct H0 as [H0 H1]. split; [|exact H1].
  pose proof (running_handles events (PromptOptimizeDialog.handle d e) Hev)
    as Hle.
  fold d' in Hle. lia.
Qed.

Lemma stopped_optimization_shows_no_spinner_witness :
  let started := PromptOptimizeDialog.handle Fixture.closed
                   PromptOptimizeDialog.Start in
  let d' := foldl PromptOptimizeDialog.handle
              (PromptOptimizeDialog.handle started PromptOptimizeDialog.Stop)
              [PromptOptimizeDialog.Result 2 (lit "late");
               PromptOptimizeDialog.Rejected] in
  PromptOptimizeDialog.runningTaskCount d' = 0%nat /\
  PromptOptimizeDialog.isOptimizing
    (PromptOptimizeDialog.handle started PromptOptimizeDialog.Stop) = false.
Proof.
  apply (stopped_optimization_shows_no_spinner
           (PromptOptimizeDialog.handle Fixture.closed PromptOptimizeDialog.Start)
           PromptOptimizeDialog.Stop
           [PromptOptimizeDialog.Result 2 (lit "late");
            PromptOptimizeDialog.Rejected]).
  - left. reflexivity.
  - repeat constructor; discriminate.
Defined.
